(** * Astro_Reveal: the calculation engine of [astro_calculator.py]

    A shallow embedding of [ProfessionalAstrologicalCalculator] and of the
    properties its specification states about it.

    Numbers are modelled the way CPython has them:
    - [int] is an unbounded integer, [Z];
    - [float] is an IEEE 754 binary64 value.  It is represented by the
      Standard Library's [spec_float] (sign, mantissa, exponent) and
      computed with [SFadd], [SFsub], [SFmul] and [SFdiv] at precision 53,
      so every rounding of the interpreter is present in the model;
    - the functions of the [math] module that the C library provides
      ([sin], [cos], [tan], [atan2]) are a parameter of the development:
      their results are not fixed by any standard;
    - a [dict] with string keys is a [gmap string _];
    - an exception is [None] in the [option] monad. *)

From Stdlib Require Import ZArith QArith Qround Qabs Lia Bool.
From Stdlib Require Import Floats.SpecFloat.
From stdpp Require Import gmap strings list.

Open Scope Z_scope.

(** ** Binary64 arithmetic *)

Module B64.

Definition prec : Z := 53.
Definition emax : Z := 1024.

Definition float := spec_float.

Definition add : float -> float -> float := SFadd prec emax.
Definition sub : float -> float -> float := SFsub prec emax.
Definition mul : float -> float -> float := SFmul prec emax.
Definition div : float -> float -> float := SFdiv prec emax.

(** The float nearest to an integer (ties to even). *)
Definition of_Z (z : Z) : float := binary_normalize prec emax z 0 false.

(** The float nearest to the quotient of two integers, [b] not zero: the
    quotient is computed with enough bits and rounded once. *)
Definition round_quot (a b : Z) : float :=
  if a =? 0 then S754_zero (b <? 0)
  else
    let '(q, e, l) := SFdiv_core_binary prec emax (Z.abs a) 0 (Z.abs b) 0 in
    binary_round_aux prec emax (xorb (a <? 0) (b <? 0)) q e l.

(** The value a decimal literal of the source denotes: the float nearest
    to the decimal. *)
Definition lit (q : Q) : float := round_quot (Qnum q) (Zpos (Qden q)).

Definition opp : float -> float := SFopp.

Definition zero : float := S754_zero false.

Definition is_nan (x : float) : bool :=
  match x with S754_nan => true | _ => false end.

Definition is_inf (x : float) : bool :=
  match x with S754_infinity _ => true | _ => false end.

Definition is_finite (x : float) : bool :=
  match x with S754_zero _ | S754_finite _ _ _ => true | _ => false end.

Definition is_zero (x : float) : bool :=
  match x with S754_zero _ => true | _ => false end.

Definition signbit (x : float) : bool :=
  match x with
  | S754_zero s | S754_infinity s | S754_finite s _ _ => s
  | S754_nan => false
  end.

Definition ltb : float -> float -> bool := SFltb.
Definition leb : float -> float -> bool := SFleb.
Definition eqb : float -> float -> bool := SFeqb.

(** The smallest exponent of a binary64 mantissa: every finite float is
    an integer multiple of [2^emin]. *)
Definition emin : Z := -1074.

(** [ticks x] is the exact value of a finite [x] counted in units of
    [2^emin]; it is an integer for every valid binary64 value. *)
Definition ticks (x : float) : Z :=
  match x with
  | S754_finite s m e => cond_Zopp s (Zpos m) * 2 ^ (e - emin)
  | _ => 0
  end.

(** C's [fmod]: the exact remainder of the truncated division, with the
    sign of [x].  Both mantissas are aligned on the smaller exponent; the
    remainder is below both operands and always representable. *)
Definition fmod (x y : float) : float :=
  match x, y with
  | S754_nan, _ | _, S754_nan => S754_nan
  | S754_infinity _, _ => S754_nan
  | _, S754_zero _ => S754_nan
  | S754_zero _, _ => x
  | S754_finite _ _ _, S754_infinity _ => x
  | S754_finite sx mx ex, S754_finite _ my ey =>
      let e := Z.min ex ey in
      let r := Z.rem (Zpos mx * 2 ^ (ex - e)) (Zpos my * 2 ^ (ey - e)) in
      binary_normalize prec emax (cond_Zopp sx r) e sx
  end.

(** C's [floor] on doubles. *)
Definition floor (x : float) : float :=
  match x with
  | S754_finite s m e =>
      if 0 <=? e then x
      else binary_normalize prec emax
             (Z.shiftr (cond_Zopp s (Zpos m)) (- e)) 0 s
  | _ => x
  end.

(** The integer part of a finite float, rounded down or towards zero. *)
Definition floor_Z (x : float) : Z :=
  match x with
  | S754_finite s m e => Z.shiftr (cond_Zopp s (Zpos m)) (- e)
  | _ => 0
  end.

Definition trunc_Z (x : float) : Z :=
  match x with
  | S754_finite s m e => cond_Zopp s (Z.shiftr (Zpos m) (- e))
  | _ => 0
  end.

End B64.

Arguments B64.lit q%_Q.

Abbreviation float := B64.float.

Declare Scope b64_scope.
Delimit Scope b64_scope with b64.
(** Rounded operations are written with circled operators. *)
Infix "⊕" := B64.add (at level 50, left associativity) : b64_scope.
Infix "⊖" := B64.sub (at level 50, left associativity) : b64_scope.
Infix "⊗" := B64.mul (at level 40, left associativity) : b64_scope.
Infix "⊘" := B64.div (at level 40, left associativity) : b64_scope.
Open Scope b64_scope.

(** ** CPython's numeric operations *)

Module Py.
Import B64.

(** [int] to [float] ([PyLong_AsDouble]): the nearest float, and
    [OverflowError] when the integer is too large. *)
Definition float_of_int (z : Z) : option float :=
  let f := of_Z z in if is_finite f then Some f else None.

(** [a / b] on two [int]s ([long_true_divide]): the exact quotient, rounded
    once; [ZeroDivisionError] and [OverflowError] are [None]. *)
Definition int_true_divide (a b : Z) : option float :=
  if b =? 0 then None
  else let f := round_quot a b in if is_finite f then Some f else None.

(** [x / y] on floats ([float_div]). *)
Definition float_true_divide (x y : float) : option float :=
  if eqb y zero then None else Some (x ⊘ y).

(** The body of [float_rem] once the divisor is known not to be zero. *)
Definition float_rem_nz (vx wx : float) : float :=
  let mod_ := fmod vx wx in
  if negb (eqb mod_ zero) then
    (* ensure the remainder has the same sign as the denominator *)
    if xorb (ltb wx zero) (ltb mod_ zero) then mod_ ⊕ wx else mod_
  else S754_zero (signbit wx).

(** [x % y] on floats ([float_rem]). *)
Definition float_rem (vx wx : float) : option float :=
  if eqb wx zero then None else Some (float_rem_nz vx wx).

(** [_float_div_mod]: quotient snapped to an integral value, and remainder. *)
Definition float_div_mod (vx wx : float) : float * float :=
  let mod0 := fmod vx wx in
  let div0 := (vx ⊖ mod0) ⊘ wx in
  let '(mod1, div1) :=
    if negb (eqb mod0 zero) then
      if xorb (ltb wx zero) (ltb mod0 zero)
      then (mod0 ⊕ wx, div0 ⊖ lit 1)
      else (mod0, div0)
    else (S754_zero (signbit wx), div0) in
  let floordiv :=
    if negb (eqb div1 zero) then
      let f := floor div1 in
      if ltb (lit 0.5) (div1 ⊖ f) then f ⊕ lit 1 else f
    else S754_zero (signbit (vx ⊘ wx)) in
  (floordiv, mod1).

Definition float_floor_div_nz (vx wx : float) : float :=
  fst (float_div_mod vx wx).

(** [x // y] on floats ([float_floor_div]). *)
Definition float_floor_div (vx wx : float) : option float :=
  if eqb wx zero then None else Some (float_floor_div_nz vx wx).

(** [math.floor] of a float: an [int]; it raises on infinities and NaN. *)
Definition math_floor (x : float) : option Z :=
  if is_finite x then Some (floor_Z x) else None.

(** [int(x)] of a float: truncation; it raises on infinities and NaN. *)
Definition int_of_float (x : float) : option Z :=
  if is_finite x then Some (trunc_Z x) else None.

(** [math.pi], and the two constants of [mathmodule.c]. *)
Definition pi : float := lit 3.141592653589793.
Definition degToRad : float := pi ⊘ lit 180.
Definition radToDeg : float := lit 180 ⊘ pi.

Definition math_radians (x : float) : float := x ⊗ degToRad.
Definition math_degrees (x : float) : float := x ⊗ radToDeg.

(** [l[i]] on a list: negative indices count from the end, anything else
    out of range is an [IndexError]. *)
Definition list_getitem {A} (l : list A) (i : Z) : option A :=
  let n := Z.of_nat (length l) in
  if (0 <=? i) && (i <? n) then l !! Z.to_nat i
  else if (- n <=? i) && (i <? 0) then l !! Z.to_nat (i + n)
  else None.

(** The C library behind [math.sin], [math.cos], [math.tan] and
    [math.atan2]. *)
Class Libm := {
  libm_sin : float -> float;
  libm_cos : float -> float;
  libm_tan : float -> float;
  libm_atan2 : float -> float -> float
}.

(** [math_1] and [math_2] of [mathmodule.c]: a NaN made from numbers, or an
    infinity made from finite numbers, is a [ValueError]. *)
Definition math_1 (f : float -> float) (x : float) : option float :=
  let r := f x in
  if is_nan r && negb (is_nan x) then None
  else if is_inf r && is_finite x then None
  else Some r.

Definition math_2 (f : float -> float -> float) (x y : float) : option float :=
  let r := f x y in
  if is_nan r && negb (is_nan x) && negb (is_nan y) then None
  else if is_inf r && is_finite x && is_finite y then None
  else Some r.

Definition math_sin `{Libm} : float -> option float := math_1 libm_sin.
Definition math_cos `{Libm} : float -> option float := math_1 libm_cos.
Definition math_tan `{Libm} : float -> option float := math_1 libm_tan.
Definition math_atan2 `{Libm} : float -> float -> option float :=
  math_2 libm_atan2.

End Py.

(** [x % y] and [x // y] on floats, for a divisor that is a non-zero
    constant of the program. *)
Infix "%%" := Py.float_rem_nz (at level 40, left associativity) : b64_scope.
Infix "⫽" := Py.float_floor_div_nz (at level 40, left associativity)
  : b64_scope.

(** ** The calculator *)

Import B64 Py.

(** [calculate_julian_day]: all five arguments are [int]s. *)
Definition calculate_julian_day (year month day hour minute : Z)
  : option float :=
  let '(year, month) :=
    if month <=? 2 then (year - 1, month + 12) else (year, month) in
  q ← int_true_divide year 100;
  a ← math_floor q;
  q4 ← int_true_divide a 4;
  a4 ← math_floor q4;
  let b := 2 - a + a4 in
  fy ← float_of_int (year + 4716);
  d1 ← math_floor (lit 365.25 ⊗ fy);
  fm ← float_of_int (month + 1);
  d2 ← math_floor (lit 30.6001 ⊗ fm);
  s ← float_of_int (d1 + d2 + day + b);
  fh ← float_of_int hour;
  mq ← int_true_divide minute 60;
  Some (s ⊖ lit 1524.5 ⊕ (fh ⊕ mq) ⊘ lit 24).

(** [calculate_lahiri_ayanamsa]; the divisors are the non-zero constants
    [36525] and [3600], so no division raises. *)
Definition calculate_lahiri_ayanamsa (jd : float) : float :=
  let t := (jd ⊖ lit 2451545.0) ⊘ lit 36525 in
  lit 23.85 ⊕ lit 50.29 ⊗ t ⊘ lit 3600 ⊖ lit 0.000279 ⊗ t ⊗ t.


(** [for i in range(lo, hi): s = body(i, s)], stopping at an exception. *)
Definition for_range {S : Type} (lo hi : Z) (body : Z -> S -> option S)
  (s : S) : option S :=
  foldl (fun acc i => acc ≫= body i) (Some s) (seqZ lo (hi - lo)).

(** [str(i)] of an [int]: its decimal digits.  A number has no more
    decimal digits than bits, which bounds the recursion. *)
Fixpoint str_digits (fuel : nat) (n : Z) (acc : string) : string :=
  let acc := String (Ascii.ascii_of_nat (48 + Z.to_nat (n mod 10))) acc in
  match fuel with
  | O => acc
  | S fuel => if n / 10 =? 0 then acc else str_digits fuel (n / 10) acc
  end.

Definition str (i : Z) : string :=
  if i <? 0 then "-" +:+ str_digits (Z.to_nat (Z.log2 (- i))) (- i) ""
  else str_digits (Z.to_nat (Z.log2 i)) i "".

(** *** Static tables *)

Definition zodiac_signs : list string :=
  ["Aries"; "Taurus"; "Gemini"; "Cancer"; "Leo"; "Virgo";
   "Libra"; "Scorpio"; "Sagittarius"; "Capricorn"; "Aquarius"; "Pisces"].

Definition nakshatras : list (string * string * string) :=
  [("Ashwini", "Ketu", "New beginnings, quick action");
   ("Bharani", "Venus", "Transformation, restraint");
   ("Krittika", "Sun", "Cutting through illusion");
   ("Rohini", "Moon", "Growth, fertility, beauty");
   ("Mrigashira", "Mars", "Searching, curiosity");
   ("Ardra", "Rahu", "Intensity, change");
   ("Punarvasu", "Jupiter", "Renewal, optimism");
   ("Pushya", "Saturn", "Nourishment, protection");
   ("Ashlesha", "Mercury", "Mystical knowledge");
   ("Magha", "Ketu", "Ancestral power, authority");
   ("Purva Phalguni", "Venus", "Creativity, relationships");
   ("Uttara Phalguni", "Sun", "Leadership, generosity");
   ("Hasta", "Moon", "Skill, dexterity");
   ("Chitra", "Mars", "Artistic creation");
   ("Swati", "Rahu", "Independence, flexibility");
   ("Vishakha", "Jupiter", "Determination, focus");
   ("Anuradha", "Saturn", "Devotion, friendship");
   ("Jyeshtha", "Mercury", "Seniority, protection");
   ("Mula", "Ketu", "Root investigation");
   ("Purva Ashadha", "Venus", "Invincibility, pride");
   ("Uttara Ashadha", "Sun", "Victory, achievement");
   ("Shravana", "Moon", "Learning, listening");
   ("Dhanishta", "Mars", "Wealth, music");
   ("Shatabhisha", "Rahu", "Healing, mystery");
   ("Purva Bhadrapada", "Jupiter", "Spiritual intensity");
   ("Uttara Bhadrapada", "Saturn", "Deep wisdom");
   ("Revati", "Mercury", "Completion, journeys")].

Definition heavenly_stems : list (string * string) :=
  [("Jia", "Yang Wood"); ("Yi", "Yin Wood");
   ("Bing", "Yang Fire"); ("Ding", "Yin Fire");
   ("Wu", "Yang Earth"); ("Ji", "Yin Earth");
   ("Geng", "Yang Metal"); ("Xin", "Yin Metal");
   ("Ren", "Yang Water"); ("Gui", "Yin Water")].

Definition earthly_branches : list (string * string) :=
  [("Zi", "Rat"); ("Chou", "Ox"); ("Yin", "Tiger"); ("Mao", "Rabbit");
   ("Chen", "Dragon"); ("Si", "Snake"); ("Wu", "Horse"); ("Wei", "Goat");
   ("Shen", "Monkey"); ("You", "Rooster"); ("Xu", "Dog"); ("Hai", "Pig")].

Definition mayan_day_signs : list (string * string * string) :=
  [("Imix", "Crocodile", "Primordial energy");
   ("Ik", "Wind", "Spirit, breath");
   ("Akbal", "Night", "Inner temple");
   ("Kan", "Seed", "Growth potential");
   ("Chicchan", "Serpent", "Life force");
   ("Cimi", "Death", "Transformation");
   ("Manik", "Deer", "Healing hands");
   ("Lamat", "Rabbit", "Star seed");
   ("Muluc", "Water", "Offering");
   ("Oc", "Dog", "Loyalty, guidance");
   ("Chuen", "Monkey", "Artistry");
   ("Eb", "Grass", "Human experience");
   ("Ben", "Reed", "Flowing waters");
   ("Ix", "Jaguar", "Magical powers");
   ("Men", "Eagle", "Planetary mind");
   ("Cib", "Owl", "Ancient wisdom");
   ("Caban", "Earth", "Sacred knowledge");
   ("Etznab", "Flint", "Mirror of truth");
   ("Cauac", "Storm", "Catalytic energy");
   ("Ahau", "Sun", "Enlightenment")].

Definition house_systems : list string :=
  ["Placidus"; "Koch"; "Whole Sign"; "Equal"; "Campanus"; "Regiomontanus"].

(** *** Planetary positions and their sidereal projection *)

(** [calculate_planetary_positions]: the divisors [36525], [300000] and
    [360] are non-zero constants. *)
Definition calculate_planetary_positions `{Libm} (jd : float)
  : option (gmap string float) :=
  let t := (jd ⊖ lit 2451545.0) ⊘ lit 36525 in
  let positions : gmap string float := ∅ in
  (* Sun *)
  let sun_l :=
    lit 280.4664567 ⊕ lit 360007.6982779 ⊗ t ⊕ lit 0.03032028 ⊗ t ⊗ t in
  let sun_m :=
    lit 357.52772333 ⊕ lit 35999.05034 ⊗ t ⊖ lit 0.0001603 ⊗ t ⊗ t
    ⊖ t ⊗ t ⊗ t ⊘ lit 300000 in
  s1 ← math_sin (math_radians sun_m);
  let sun_c :=
    (lit 1.914602 ⊖ lit 0.004817 ⊗ t ⊖ lit 0.000014 ⊗ t ⊗ t) ⊗ s1 in
  s2 ← math_sin (math_radians (lit 2 ⊗ sun_m));
  let sun_c := sun_c ⊕ (lit 0.019993 ⊖ lit 0.000101 ⊗ t) ⊗ s2 in
  s3 ← math_sin (math_radians (lit 3 ⊗ sun_m));
  let sun_c := sun_c ⊕ lit 0.000289 ⊗ s3 in
  let positions := <["Sun" := (sun_l ⊕ sun_c) %% lit 360]> positions in
  (* Moon *)
  let moon_l :=
    lit 218.3164477 ⊕ lit 481267.88123421 ⊗ t ⊖ lit 0.0015786 ⊗ t ⊗ t in
  let moon_d :=
    lit 297.8501921 ⊕ lit 445267.1114034 ⊗ t ⊖ lit 0.0018819 ⊗ t ⊗ t in
  let moon_m :=
    lit 134.9633964 ⊕ lit 477198.8675055 ⊗ t ⊕ lit 0.0087414 ⊗ t ⊗ t in
  let moon_f :=
    lit 93.272095 ⊕ lit 483202.0175233 ⊗ t ⊖ lit 0.0036539 ⊗ t ⊗ t in
  m1 ← math_sin (math_radians moon_m);
  let moon_longitude := moon_l ⊕ lit 6.288774 ⊗ m1 in
  m2 ← math_sin (math_radians (lit 2 ⊗ moon_d ⊖ moon_m));
  let moon_longitude := moon_longitude ⊕ lit 1.274027 ⊗ m2 in
  m3 ← math_sin (math_radians (lit 2 ⊗ moon_d));
  let moon_longitude := moon_longitude ⊕ lit 0.658314 ⊗ m3 in
  m4 ← math_sin (math_radians (lit 2 ⊗ moon_m));
  let moon_longitude := moon_longitude ⊕ lit 0.213618 ⊗ m4 in
  m5 ← math_sin (math_radians sun_m);
  let moon_longitude := moon_longitude ⊖ lit 0.185116 ⊗ m5 in
  let positions := <["Moon" := moon_longitude %% lit 360]> positions in
  (* Mercury *)
  let mercury_l :=
    lit 252.250906 ⊕ lit 149472.67411175 ⊗ t ⊕ lit 0.00030397 ⊗ t ⊗ t in
  let mercury_m := lit 174.7948 ⊕ lit 4092.677 ⊗ t in
  me ← math_sin (math_radians mercury_m);
  let mercury_c := lit 23.4400 ⊗ me in
  let positions :=
    <["Mercury" := (mercury_l ⊕ mercury_c) %% lit 360]> positions in
  (* Venus *)
  let venus_l :=
    lit 181.979801 ⊕ lit 58517.81539 ⊗ t ⊕ lit 0.00165 ⊗ t ⊗ t in
  let venus_m := lit 50.4161 ⊕ lit 1602.961 ⊗ t in
  ve ← math_sin (math_radians venus_m);
  let venus_c := lit 0.7758 ⊗ ve in
  let positions :=
    <["Venus" := (venus_l ⊕ venus_c) %% lit 360]> positions in
  (* Mars *)
  let mars_l :=
    lit 355.433 ⊕ lit 19140.2993313 ⊗ t ⊕ lit 0.00026 ⊗ t ⊗ t in
  let mars_m := lit 19.373 ⊕ lit 686.996 ⊗ t in
  ma ← math_sin (math_radians mars_m);
  let mars_c := lit 10.691 ⊗ ma in
  let positions := <["Mars" := (mars_l ⊕ mars_c) %% lit 360]> positions in
  (* Jupiter *)
  let jupiter_l :=
    lit 34.351484 ⊕ lit 3034.90567464 ⊗ t ⊖ lit 0.00008501 ⊗ t ⊗ t in
  let jupiter_m := lit 20.020 ⊕ lit 83.298 ⊗ t in
  ju ← math_sin (math_radians jupiter_m);
  let jupiter_c := lit 5.555 ⊗ ju in
  let positions :=
    <["Jupiter" := (jupiter_l ⊕ jupiter_c) %% lit 360]> positions in
  (* Saturn *)
  let saturn_l :=
    lit 50.077471 ⊕ lit 1222.11379404 ⊗ t ⊕ lit 0.00021004 ⊗ t ⊗ t in
  let saturn_m := lit 317.020 ⊕ lit 34.266 ⊗ t in
  sa ← math_sin (math_radians saturn_m);
  let saturn_c := lit 5.629 ⊗ sa in
  let positions :=
    <["Saturn" := (saturn_l ⊕ saturn_c) %% lit 360]> positions in
  Some positions.

(** [calculate_vedic_positions]: every entry of the tropical dict is
    shifted by the ayanamsa and reduced modulo [360]. *)
Definition calculate_vedic_positions (tropical_positions : gmap string float)
  (jd : float) : gmap string float * float :=
  let ayanamsa := calculate_lahiri_ayanamsa jd in
  ((fun position => (position ⊖ ayanamsa) %% lit 360) <$> tropical_positions,
   ayanamsa).

(** *** Houses *)

(** A value of the [houses] dict: the Whole Sign branch stores [int]s, the
    other branches store [float]s. *)
Inductive num :=
| Int (z : Z)
| Float (f : float).

(** [v + k] and [v % k] for an [int] constant [k] that is not zero. *)
Definition num_add_int (v : num) (k : Z) : num :=
  match v with
  | Int z => Int (z + k)
  | Float f => Float (f ⊕ of_Z k)
  end.

Definition num_mod_int (v : num) (k : Z) : num :=
  match v with
  | Int z => Int (z mod k)
  | Float f => Float (f %% of_Z k)
  end.

(** The cusp table of [calculate_houses], from the line [houses = {}] to
    the end of the branch on [house_system]. *)
Definition house_cusps (ascendant mc : float) (house_system : string)
  : option (gmap string num) :=
  if String.eqb house_system "Whole Sign" then
    asc_sign ← int_of_float (ascendant ⫽ lit 30);
    for_range 1 13 (fun i houses =>
      Some (<[str i := Int ((asc_sign * 30 + (i - 1) * 30) mod 360)]> houses))
      ∅
  else if String.eqb house_system "Equal" then
    for_range 1 13 (fun i houses =>
      Some (<[str i :=
               num_mod_int (num_add_int (Float ascendant) ((i - 1) * 30)) 360]>
              houses))
      ∅
  else
    let houses : gmap string num :=
      <["10" := Float mc]>
        (<["7" := num_mod_int (num_add_int (Float ascendant) 180) 360]>
           (<["4" := num_mod_int (num_add_int (Float mc) 180) 360]>
              (<["1" := Float ascendant]> ∅))) in
    (* Calculate intermediate houses (simplified) *)
    houses ← for_range 2 7 (fun i houses =>
      if i <=? 3 then
        let angle := (i - 1) * 30 in
        Some (<[str i :=
                 num_mod_int (num_add_int (Float ascendant) angle) 360]>
                houses)
      else
        let angle := (i - 1) * 30 in
        Some (<[str i :=
                 num_mod_int (num_add_int (Float ascendant) angle) 360]>
                houses))
      houses;
    (* Complete the wheel *)
    for_range 8 13 (fun i houses =>
      opposite ← houses !! str (i - 6);
      Some (<[str (if negb (i mod 12 =? 0) then i mod 12 else 12) :=
               num_mod_int (num_add_int opposite 180) 360]>
              houses))
      houses.

(** [calculate_houses]. *)
Definition calculate_houses `{Libm} (jd latitude longitude : float)
  (house_system : string) : option (gmap string num * float) :=
  let t := (jd ⊖ lit 2451545.0) ⊘ lit 36525 in
  (* Calculate Local Sidereal Time *)
  let gst :=
    lit 280.46061837 ⊕ lit 360.98564736629 ⊗ (jd ⊖ lit 2451545.0) in
  let lst := (gst ⊕ longitude) %% lit 360 in
  (* Calculate obliquity of ecliptic *)
  let obliquity :=
    lit 23.4392911 ⊖ lit 0.0130125 ⊗ t ⊖ lit 0.00000164 ⊗ t ⊗ t in
  let lat_rad := math_radians latitude in
  let lst_rad := math_radians lst in
  let obl_rad := math_radians obliquity in
  (* Ascendant calculation *)
  y ← math_cos lst_rad;
  sin_lst ← math_sin lst_rad;
  cos_obl ← math_cos obl_rad;
  tan_lat ← math_tan lat_rad;
  sin_obl ← math_sin obl_rad;
  let x := opp sin_lst ⊗ cos_obl ⊖ tan_lat ⊗ sin_obl in
  angle ← math_atan2 y x;
  let ascendant := math_degrees angle %% lit 360 in
  (* Calculate MC (Medium Coeli) *)
  let mc := lst %% lit 360 in
  houses ← house_cusps ascendant mc house_system;
  Some (houses, ascendant).

(** *** Nakshatra *)

Record NakshatraReading := {
  nk_name : string;
  nk_lord : string;
  nk_meaning : string;
  nk_pada : Z;
  nk_degree_in_nakshatra : float
}.

(** [360 / 27] on two [int]s. *)
Definition nakshatra_span : float := round_quot 360 27.

Definition nakshatra_index_of (moon_longitude : float) : option Z :=
  int_of_float (moon_longitude ⫽ nakshatra_span).

Definition pada_of (moon_longitude : float) : option Z :=
  let nakshatra_remainder := moon_longitude %% nakshatra_span in
  q ← int_of_float (nakshatra_remainder ⫽ (nakshatra_span ⊘ lit 4));
  Some (q + 1).

(** [get_nakshatra_details]. *)
Definition get_nakshatra_details (moon_longitude : float)
  : option NakshatraReading :=
  nakshatra_index ← nakshatra_index_of moon_longitude;
  let nakshatra_remainder := moon_longitude %% nakshatra_span in
  pada ← pada_of moon_longitude;
  nakshatra_info ← list_getitem nakshatras nakshatra_index;
  Some {| nk_name := nakshatra_info.1.1;
          nk_lord := nakshatra_info.1.2;
          nk_meaning := nakshatra_info.2;
          nk_pada := pada;
          nk_degree_in_nakshatra := nakshatra_remainder |}.

(** *** Civil dates *)

(** A naive [datetime]: [replace(tzinfo=None)] keeps exactly these fields. *)
Record datetime := {
  dt_year : Z;
  dt_month : Z;
  dt_day : Z;
  dt_hour : Z;
  dt_minute : Z;
  dt_second : Z;
  dt_microsecond : Z
}.

Definition is_leap (year : Z) : bool :=
  (year mod 4 =? 0) && (negb (year mod 100 =? 0) || (year mod 400 =? 0)).

Definition days_in_month (year month : Z) : Z :=
  if (month =? 2) && is_leap year then 29
  else nth (Z.to_nat month) [0; 31; 28; 31; 30; 31; 30; 31; 31; 30; 31; 30; 31] 0.

(** The values a [datetime] object can hold. *)
Definition valid_datetime (d : datetime) : bool :=
  (1 <=? dt_year d) && (dt_year d <=? 9999) &&
  (1 <=? dt_month d) && (dt_month d <=? 12) &&
  (1 <=? dt_day d) && (dt_day d <=? days_in_month (dt_year d) (dt_month d)) &&
  (0 <=? dt_hour d) && (dt_hour d <=? 23) &&
  (0 <=? dt_minute d) && (dt_minute d <=? 59) &&
  (0 <=? dt_second d) && (dt_second d <=? 59) &&
  (0 <=? dt_microsecond d) && (dt_microsecond d <=? 999999).

Definition days_before_year (year : Z) : Z :=
  let y := year - 1 in y * 365 + y / 4 - y / 100 + y / 400.

Definition days_before_month (year month : Z) : Z :=
  nth (Z.to_nat month) [0; 0; 31; 59; 90; 120; 151; 181; 212; 243; 273; 304; 334] 0
  + (if (2 <? month) && is_leap year then 1 else 0).

(** [date.toordinal]: the proleptic Gregorian ordinal, 0001-01-01 being 1. *)
Definition toordinal (d : datetime) : Z :=
  days_before_year (dt_year d) + days_before_month (dt_year d) (dt_month d)
  + dt_day d.

(** [(a - b).days] for two naive datetimes: the difference is normalised so
    that its seconds and microseconds are not negative. *)
Definition sub_days (a b : datetime) : Z :=
  let secs d := dt_second d + dt_minute d * 60 + dt_hour d * 3600 in
  let micros :=
    (secs a - secs b) * 1000000 + (dt_microsecond a - dt_microsecond b) in
  toordinal a - toordinal b + micros / 86400000000.

(** *** Chinese Four Pillars *)

Record FourPillars := {
  fp_year : (string * string) * (string * string);
  fp_month : (string * string) * (string * string);
  fp_day : (string * string) * (string * string);
  fp_hour : (string * string) * (string * string)
}.

(** [calculate_four_pillars]. *)
Definition calculate_four_pillars (birth_datetime : datetime)
  : option FourPillars :=
  let year := dt_year birth_datetime in
  let month := dt_month birth_datetime in
  let day := dt_day birth_datetime in
  let hour := dt_hour birth_datetime in
  (* Adjust for Chinese New Year (simplified) *)
  let chinese_new_year_adjustment := 35 in
  let year :=
    if (month =? 1) || ((month =? 2) && (day <? chinese_new_year_adjustment))
    then year - 1 else year in
  let year_stem := (year - 4) mod 10 in
  let year_branch := (year - 4) mod 12 in
  (* Month pillar calculation *)
  let month_stem := ((year mod 5) * 2 + month) mod 10 in
  let month_branch := (month + 1) mod 12 in
  (* Day pillar (requires Julian Day conversion) *)
  jd ← calculate_julian_day year month day 0 0;
  jd_int ← int_of_float jd;
  let day_offset := jd_int mod 60 in
  let day_stem := day_offset mod 10 in
  let day_branch := day_offset mod 12 in
  (* Hour pillar *)
  let hour_branch := ((hour + 1) / 2) mod 12 in
  let hour_stem := (day_stem * 2 + hour_branch) mod 10 in
  ys ← list_getitem heavenly_stems year_stem;
  yb ← list_getitem earthly_branches year_branch;
  ms ← list_getitem heavenly_stems month_stem;
  mb ← list_getitem earthly_branches month_branch;
  ds ← list_getitem heavenly_stems day_stem;
  db ← list_getitem earthly_branches day_branch;
  hs ← list_getitem heavenly_stems hour_stem;
  hb ← list_getitem earthly_branches hour_branch;
  Some {| fp_year := (ys, yb); fp_month := (ms, mb);
          fp_day := (ds, db); fp_hour := (hs, hb) |}.

(** *** Mayan Tzolkin *)

Record TzolkinReading := {
  tz_kin : Z;
  tz_day_sign : string;
  tz_glyph : string;
  tz_meaning : string;
  tz_galactic_tone : Z
}.

Definition epoch : datetime :=
  {| dt_year := 1900; dt_month := 1; dt_day := 1; dt_hour := 0;
     dt_minute := 0; dt_second := 0; dt_microsecond := 0 |}.

(** [calculate_mayan_tzolkin]. *)
Definition calculate_mayan_tzolkin (birth_datetime : datetime)
  : option TzolkinReading :=
  (* GMT correlation constant (most accepted) *)
  let correlation_constant := 584283 in
  (* Calculate days since Western epoch *)
  let days_since_epoch := sub_days birth_datetime epoch in
  (* Calculate Tzolkin position *)
  let total_days := days_since_epoch + correlation_constant in
  let kin := total_days mod 260 in
  let day_sign_index := kin mod 20 in
  let galactic_tone := (kin mod 13) + 1 in
  day_sign_info ← list_getitem mayan_day_signs day_sign_index;
  Some {| tz_kin := kin + 1;
          tz_day_sign := day_sign_info.1.1;
          tz_glyph := day_sign_info.1.2;
          tz_meaning := day_sign_info.2;
          tz_galactic_tone := galactic_tone |}.

(** The reading's day sign as an entry of [mayan_day_signs]. *)
Definition tz_sign_info (r : TzolkinReading) : string * string * string :=
  (tz_day_sign r, tz_glyph r, tz_meaning r).

(** A civil date at midnight. *)
Definition civil_date (y m d : Z) : datetime :=
  {| dt_year := y; dt_month := m; dt_day := d; dt_hour := 0;
     dt_minute := 0; dt_second := 0; dt_microsecond := 0 |}.

(** The relation between the parts of a reading that the specification
    calls internal consistency, for a choice [kin_of] of the kin value:
    the day sign is entry [kin mod 20] of the table and the tone is
    [kin mod 13 + 1]. *)
Definition reading_consistent (kin_of : TzolkinReading -> Z)
  (r : TzolkinReading) : Prop :=
  list_getitem mayan_day_signs (kin_of r mod 20) = Some (tz_sign_info r) /\
  kin_of r mod 13 + 1 = tz_galactic_tone r.

(** The day pillar as the specification describes it: stem and branch of
    [floor(JD) mod 60] for the Julian Day of the date itself at 00:00. *)
Definition spec_day_pillar (year month day : Z)
  : option ((string * string) * (string * string)) :=
  jd ← calculate_julian_day year month day 0 0;
  jd_int ← math_floor jd;
  let day_offset := jd_int mod 60 in
  ds ← list_getitem heavenly_stems (day_offset mod 10);
  db ← list_getitem earthly_branches (day_offset mod 12);
  Some (ds, db).

(** The standard Gregorian-to-Julian-Day formula in exact arithmetic, as
    the specification words it: January and February are months 13 and 14
    of the preceding year. *)
Definition standard_julian_day (year month day hour minute : Z) : Q :=
  let '(y, m) :=
    if month <=? 2 then (year - 1, month + 12) else (year, month) in
  let a := y / 100 in
  let b := 2 - a + a / 4 in
  (inject_Z (Qfloor (365.25 * inject_Z (y + 4716)))
   + inject_Z (Qfloor (30.6001 * inject_Z (m + 1)))
   + inject_Z day + inject_Z b - 1524.5
   + (inject_Z hour + inject_Z minute / 60) / 24)%Q.

(** The house systems that take the last branch of [calculate_houses]. *)
Definition quadrant_system (house_system : string) : Prop :=
  house_system <> "Whole Sign" /\ house_system <> "Equal".

(** ** Rounding, described on exact values

    Every finite binary64 value is an integer number of units of [2^emin]
    ([ticks]).  The definitions below describe the rounding of
    [binary_normalize] on such integers; the section on rounding proves
    that they agree with the Standard Library's operations. *)

(** A float that is a proper binary64 value: its mantissa and exponent are
    in canonical form. *)
Definition valid_float (x : float) : bool := valid_binary prec emax x.

(** A valid, finite, positive float. *)
Definition pos_finite (x : float) : bool :=
  match x with
  | S754_finite false m e => bounded prec emax m e
  | _ => false
  end.

Definition fexp64 (e : Z) : Z := fexp prec emax e.

(** The state after [k >= 1] right shifts of the mantissa [n]: the
    quotient, the last bit shifted out and whether any bit before it was
    set. *)
Definition shr_rec (n k : Z) : shr_record :=
  {| shr_m := n / 2 ^ k;
     shr_r := Z.odd (n / 2 ^ (k - 1));
     shr_s := negb (n mod 2 ^ (k - 1) =? 0) |}.

(** The first step of [binary_round]: the mantissa is aligned on the
    exponent [fexp64 (digits + e)], shifted left when it is short, shifted
    right with a round and a sticky bit when it is long. *)
Definition stage1 (p : positive) (e : Z) : shr_record * Z :=
  let '(mz, ez) := shl_align p e (fexp64 (Zpos (digits2_pos p) + e)) in
  shr_fexp prec emax (Zpos mz) ez loc_Exact.

(** The second step of [binary_round]: round to nearest even, renormalise
    when the mantissa carries into a new bit, and check for overflow. *)
Definition finish (s : bool) (st : shr_record * Z) : float :=
  let '(mrs', e') := st in
  let '(mrs'', e'') :=
    shr_fexp prec emax
      (round_nearest_even (shr_m mrs') (loc_of_shr_record mrs')) e' loc_Exact in
  match shr_m mrs'' with
  | Z0 => S754_zero s
  | Zpos m =>
      if e'' <=? emax - prec then S754_finite s m e'' else S754_infinity s
  | Zneg _ => S754_nan
  end.

(** The first step on a value given as a count of units of [2^emin]. *)
Definition stage_ticks (n : Z) : shr_record * Z :=
  let f := fexp64 (Zdigits2 n + emin) in
  (if f - emin <=? 0 then Build_shr_record n false false
   else shr_rec n (f - emin), f).

(** The float of a positive count of units, with sign [s]. *)
Definition round_to_float (s : bool) (n : Z) : float :=
  finish s (stage_ticks n).

(** The float nearest to [n] units of [2^emin]. *)
Definition of_ticks (n : Z) : float :=
  if n =? 0 then S754_zero false else round_to_float (n <? 0) (Z.abs n).

(** Round to nearest, ties to even, of [n / 2^k]. *)
Definition rne (n k : Z) : Z :=
  if k <=? 0 then n
  else
    let mrs := shr_rec n k in
    round_nearest_even (shr_m mrs) (loc_of_shr_record mrs).

(** The number of bits the rounding of [n] drops, and the rounded value. *)
Definition dropped_bits (n : Z) : Z := Z.max (Zdigits2 n - 53) 0.

Definition round_ticks (n : Z) : Z :=
  rne n (dropped_bits n) * 2 ^ dropped_bits n.

(** The result of [x // y] for positive [x] and [y], as a function of the
    integer quotient [q] of their exact values: [x - fmod(x, y)] is the
    rounding of [q * y]. *)
Definition floordiv_of_quot (y : float) (q : Z) : float :=
  let div := of_ticks (q * ticks y) ⊘ y in
  if negb (eqb div zero) then
    let f := floor div in
    if ltb (lit 0.5) (div ⊖ f) then f ⊕ lit 1 else f
  else S754_zero false.

(** [nakshatra_span / 4], the length of a pada. *)
Definition nakshatra_quarter : float := nakshatra_span ⊘ lit 4.

(** Equality of representations, to look a float up in a table. *)
Definition same_float (x y : float) : bool :=
  match x, y with
  | S754_zero a, S754_zero b => Bool.eqb a b
  | S754_infinity a, S754_infinity b => Bool.eqb a b
  | S754_nan, S754_nan => true
  | S754_finite a m e, S754_finite b m' e' =>
      Bool.eqb a b && Pos.eqb m m' && Z.eqb e e'
  | _, _ => false
  end.

(** A function given by finitely many of its values, NaN elsewhere. *)
Definition tabulated (table : list (float * float)) (x : float) : float :=
  match find (fun entry => same_float entry.1 x) table with
  | Some entry => entry.2
  | None => S754_nan
  end.

(** The values that the C library behind CPython 3.11 (glibc 2.36, x86-64)
    returns at the arguments that
    [calculate_houses(2451545.0, 51.5074, -0.1278, _)] passes to it:
    London at the epoch J2000.  Each number is the [repr] of the Python
    float, which denotes that float exactly. *)
Definition libm_london : Libm :=
  {| libm_sin :=
       tabulated [(lit 4.892730681951744, lit (-0.9837824606667482));
                  (lit 0.4090928040284034, lit 0.39777715575399053)];
     libm_cos :=
       tabulated [(lit 4.892730681951744, lit 0.17936574389910145);
                  (lit 0.4090928040284034, lit 0.917482062146321)];
     libm_tan :=
       tabulated [(lit 0.8989737191417272, lit 1.2575056335817467)];
     libm_atan2 := fun y x =>
       if same_float y (lit 0.17936574389910145)
          && same_float x (lit 0.4023957464451431)
       then lit 0.41930952908728136 else S754_nan |}.

(** A cusp and the Ascendant of the result of [calculate_houses]. *)
Definition cusp_of (result : option (gmap string num * float))
  (house : string) : option num :=
  result ≫= fun r => r.1 !! house.

Definition ascendant_of (result : option (gmap string num * float))
  : option float :=
  snd <$> result.

(** *** Signed values *)

(** The value of the float nearest to [n] units, for any sign. *)
Definition rnd (n : Z) : Z := Z.sgn n * round_ticks (Z.abs n).

(** An integer with at most 53 significant bits. *)
Definition representable (n : Z) : Prop :=
  exists a j, n = a * 2 ^ j /\ 0 < a < 2 ^ 53 /\ 0 <= j.

(** A float that denotes a real number: a valid binary64 value that is
    neither an infinity nor a NaN. *)
Definition real_float (x : float) : bool := valid_float x && is_finite x.

(** The real number a finite float denotes. *)
Definition value (x : float) : Q := ticks x # 2 ^ 1074.

(** [x % 360], the normalisation of a longitude. *)
Definition normalize (x : float) : float := x %% lit 360.

(** [f] holds on the [n] integers from [lo] on. *)
Fixpoint all_from (n : nat) (lo : Z) (f : Z -> bool) : bool :=
  match n with
  | O => true
  | S n => f lo && all_from n (lo + 1) f
  end.

(** A pillar: the stem and the branch at two indices of the tables. *)
Definition pillar (stem branch : Z)
  : option ((string * string) * (string * string)) :=
  s ← list_getitem heavenly_stems stem;
  b ← list_getitem earthly_branches branch;
  Some (s, b).

(** The year whose pillar [calculate_four_pillars] reports. *)
Definition pillar_year (d : datetime) : Z :=
  if dt_month d <=? 2 then dt_year d - 1 else dt_year d.

(** * Properties *)

(** ** Binary64 rounding *)

Section Rounding.

Lemma digits2_pos_bounds (p : positive) :
  2 ^ (Zpos (digits2_pos p) - 1) <= Zpos p < 2 ^ Zpos (digits2_pos p).
Proof.
  induction p as [p IH | p IH |]; cbn [digits2_pos].
  - rewrite Pos2Z.inj_succ.
    replace (Z.succ (Zpos (digits2_pos p)) - 1) with (Z.succ (Zpos (digits2_pos p) - 1)) by lia.
    rewrite !Z.pow_succ_r by lia. lia.
  - rewrite Pos2Z.inj_succ.
    replace (Z.succ (Zpos (digits2_pos p)) - 1) with (Z.succ (Zpos (digits2_pos p) - 1)) by lia.
    rewrite !Z.pow_succ_r by lia. lia.
  - cbn. lia.
Qed.

Lemma digits2_pos_unique (p : positive) (d : Z) :
  2 ^ (d - 1) <= Zpos p < 2 ^ d -> Zpos (digits2_pos p) = d.
Proof.
  intros [Hlo Hhi]. pose proof (digits2_pos_bounds p) as [Hlo' Hhi'].
  assert (Hd : 0 < d).
  { destruct (Z.lt_ge_cases 0 d) as [|Hle]; [assumption|]. exfalso.
    destruct (Z.eq_dec d 0) as [-> | Hne].
    - change (2 ^ 0) with 1 in Hhi. lia.
    - rewrite Z.pow_neg_r in Hhi by lia. lia. }
  destruct (Z.lt_trichotomy (Zpos (digits2_pos p)) d) as [Hlt | [Heq | Hgt]].
  - exfalso.
    assert (2 ^ Zpos (digits2_pos p) <= 2 ^ (d - 1)) by (apply Z.pow_le_mono_r; lia).
    lia.
  - assumption.
  - exfalso.
    assert (2 ^ d <= 2 ^ (Zpos (digits2_pos p) - 1)) by (apply Z.pow_le_mono_r; lia).
    lia.
Qed.

(** Digits of a shifted mantissa. *)
Lemma digits2_pos_shift (p : positive) (j : Z) :
  0 <= j ->
  Zdigits2 (Zpos p * 2 ^ j) = Zpos (digits2_pos p) + j.
Proof.
  intros Hj. pose proof (digits2_pos_bounds p) as [Hlo Hhi].
  assert (Hpow : 0 < 2 ^ j) by (apply Z.pow_pos_nonneg; lia).
  destruct (Zpos p * 2 ^ j) as [|q|q] eqn:Hq; [lia | | lia].
  cbn [Zdigits2]. apply digits2_pos_unique. rewrite <- Hq.
  replace (Zpos (digits2_pos p) + j - 1) with (Zpos (digits2_pos p) - 1 + j) by lia.
  rewrite !Z.pow_add_r by lia. split.
  - apply Z.mul_le_mono_nonneg_r; lia.
  - apply Z.mul_lt_mono_pos_r; lia.
Qed.

Lemma shr_1_nonneg (m : Z) (r s : bool) :
  0 <= m ->
  shr_1 (Build_shr_record m r s) = Build_shr_record (m / 2) (Z.odd m) (r || s).
Proof.
  intros Hm. destruct m as [|p|p]; [reflexivity | | lia].
  destruct p as [p|p|]; cbn [shr_1 Z.odd].
  - f_equal. rewrite Pos2Z.inj_xI. apply Z.div_unique with (r := 1); lia.
  - f_equal. rewrite Pos2Z.inj_xO. apply Z.div_unique with (r := 0); lia.
  - reflexivity.
Qed.

Lemma iter_pos_nat {A} (f : A -> A) (p : positive) (x : A) :
  SpecFloat.iter_pos f p x = @Nat.iter (Pos.to_nat p) A f x.
Proof.
  revert x. induction p as [p IH | p IH |]; intros x; cbn [SpecFloat.iter_pos].
  - rewrite !IH, Pos2Nat.inj_xI.
    replace (S (2 * Pos.to_nat p))%nat with (Pos.to_nat p + (Pos.to_nat p + 1))%nat by lia.
    rewrite !Nat.iter_add. reflexivity.
  - rewrite !IH, Pos2Nat.inj_xO.
    replace (2 * Pos.to_nat p)%nat with (Pos.to_nat p + Pos.to_nat p)%nat by lia.
    rewrite Nat.iter_add. reflexivity.
  - reflexivity.
Qed.

Lemma mod_pow2_succ (n k : Z) :
  0 <= k ->
  n mod 2 ^ (k + 1) = n mod 2 ^ k + 2 ^ k * ((n / 2 ^ k) mod 2).
Proof.
  intros Hk. rewrite Z.pow_add_r, Z.pow_1_r by lia.
  apply Z.rem_mul_r; [|lia].
  assert (0 < 2 ^ k) by (apply Z.pow_pos_nonneg; lia). lia.
Qed.

Lemma odd_mod2 (a : Z) : a mod 2 = Z.b2z (Z.odd a).
Proof. rewrite <- Z.bit0_odd. symmetry. apply Z.bit0_mod. Qed.

Lemma nat_iter_shr_1 (n : Z) (j : nat) :
  0 <= n ->
  @Nat.iter (S j) shr_record shr_1 (Build_shr_record n false false)
  = shr_rec n (Z.of_nat (S j)).
Proof.
  intros Hn. induction j as [|j IH].
  - cbn [Nat.iter]. rewrite shr_1_nonneg by assumption. unfold shr_rec.
    change (Z.of_nat 1) with 1. change (1 - 1) with 0.
    rewrite Z.pow_1_r, Z.pow_0_r, Z.div_1_r, Z.mod_1_r. reflexivity.
  - change (@Nat.iter (S (S j)) shr_record shr_1 ?x)
      with (shr_1 (@Nat.iter (S j) shr_record shr_1 x)).
    rewrite IH. unfold shr_rec.
    assert (Hpos : 0 < 2 ^ Z.of_nat (S j)) by (apply Z.pow_pos_nonneg; lia).
    rewrite shr_1_nonneg by (apply Z.div_pos; lia).
    replace (Z.of_nat (S (S j))) with (Z.of_nat (S j) + 1) by lia.
    replace (Z.of_nat (S j) + 1 - 1) with (Z.of_nat (S j)) by lia.
    f_equal.
    + rewrite Z.pow_add_r, Z.pow_1_r by lia. apply Z.div_div; lia.
    + replace (Z.of_nat (S j)) with (Z.of_nat (S j) - 1 + 1) at 3 by lia.
      rewrite mod_pow2_succ by lia.
      assert (Hm : 0 <= n mod 2 ^ (Z.of_nat (S j) - 1)).
      { apply Z.mod_pos_bound. apply Z.pow_pos_nonneg; lia. }
      assert (Hp : 0 < 2 ^ (Z.of_nat (S j) - 1)) by (apply Z.pow_pos_nonneg; lia).
      pose proof (odd_mod2 (n / 2 ^ (Z.of_nat (S j) - 1))) as Ho.
      destruct (Z.odd (n / 2 ^ (Z.of_nat (S j) - 1))); cbn [Z.b2z] in Ho;
        rewrite Ho; cbn [orb].
      * symmetry. apply negb_true_iff, Z.eqb_neq. nia.
      * rewrite Z.mul_0_r, Z.add_0_r. reflexivity.
Qed.

Lemma shr_exact (n e k : Z) :
  0 <= n ->
  shr (Build_shr_record n false false) e k
  = if 0 <? k then (shr_rec n k, e + k) else (Build_shr_record n false false, e).
Proof.
  intros Hn. destruct k as [|p|p]; try reflexivity.
  cbn [shr Z.ltb Z.compare]. rewrite iter_pos_nat.
  destruct (Pos2Nat.is_succ p) as [j Hj]. rewrite Hj, nat_iter_shr_1 by assumption.
  rewrite <- Hj, positive_nat_Z. reflexivity.
Qed.

(** *** The first rounding step *)

Lemma fexp64_eq (e : Z) : fexp64 e = Z.max (e - 53) (-1074).
Proof. reflexivity. Qed.

Lemma binary_round_stages (s : bool) (p : positive) (e : Z) :
  binary_round prec emax s p e = finish s (stage1 p e).
Proof.
  unfold binary_round, stage1, finish, fexp64.
  destruct (shl_align p e _) as [mz ez].
  unfold binary_round_aux.
  destruct (shr_fexp prec emax (Zpos mz) ez loc_Exact) as [mrs' e'].
  reflexivity.
Qed.

Lemma pos_iter_xO (p d : positive) :
  Zpos (Pos.iter xO p d) = Zpos p * 2 ^ Zpos d.
Proof.
  induction d as [|d IH] using Pos.peano_ind.
  - cbn [Pos.iter]. rewrite Pos2Z.inj_xO, Z.pow_1_r. lia.
  - rewrite Pos.iter_succ, Pos2Z.inj_xO, IH, Pos2Z.inj_succ, Z.pow_succ_r by lia.
    lia.
Qed.

Lemma stage1_spec (p : positive) (e : Z) :
  let f := fexp64 (Zpos (digits2_pos p) + e) in
  stage1 p e =
    (if f <=? e then Build_shr_record (Zpos p * 2 ^ (e - f)) false false
     else shr_rec (Zpos p) (f - e), f).
Proof.
  intros f. unfold stage1. fold f. unfold shl_align.
  destruct (f - e) as [|k|k] eqn:Hk.
  - (* f = e *)
    unfold shr_fexp. cbn [Zdigits2]. fold (fexp64 (Zpos (digits2_pos p) + e)). fold f.
    rewrite Hk. cbn [shr shr_record_of_loc].
    destruct (f <=? e) eqn:Hle; [|apply Z.leb_gt in Hle; lia].
    replace (e - f) with 0 by lia. rewrite Z.pow_0_r, Z.mul_1_r.
    f_equal. lia.
  - (* f > e *)
    unfold shr_fexp. cbn [Zdigits2]. fold (fexp64 (Zpos (digits2_pos p) + e)). fold f.
    rewrite Hk. cbn [shr_record_of_loc]. rewrite shr_exact by lia.
    destruct (f <=? e) eqn:Hle; [apply Z.leb_le in Hle; lia|].
    cbn [Z.ltb Z.compare]. f_equal. lia.
  - (* f < e *)
    assert (He : e = f + Zpos k) by (rewrite <- Pos2Z.opp_pos in Hk; lia).
    unfold shr_fexp.
    assert (Hd : Zdigits2 (Zpos (Pos.iter xO p k)) = Zpos (digits2_pos p) + Zpos k).
    { rewrite pos_iter_xO. apply digits2_pos_shift. lia. }
    rewrite Hd.
    replace (Zpos (digits2_pos p) + Zpos k + f) with (Zpos (digits2_pos p) + e) by lia.
    fold (fexp64 (Zpos (digits2_pos p) + e)). fold f.
    rewrite Z.sub_diag. cbn [shr shr_record_of_loc].
    destruct (f <=? e) eqn:Hle; [|apply Z.leb_gt in Hle; lia].
    rewrite pos_iter_xO. replace (e - f) with (Zpos k) by lia. reflexivity.
Qed.

(** *** Rounding in units of [2^emin] *)

Lemma pow2_pos (k : Z) : 0 <= k -> 0 < 2 ^ k.
Proof. intros Hk. apply Z.pow_pos_nonneg; lia. Qed.

Lemma pow2_split (a b : Z) : 0 <= b <= a -> 2 ^ a = 2 ^ (a - b) * 2 ^ b.
Proof.
  intros H. rewrite <- Z.pow_add_r by lia. f_equal. lia.
Qed.

Lemma shr_rec_shift (n j k : Z) :
  0 <= j -> 0 < k ->
  shr_rec (n * 2 ^ j) (k + j) = shr_rec n k.
Proof.
  intros Hj Hk. unfold shr_rec.
  pose proof (pow2_pos j Hj) as Hpj.
  pose proof (pow2_pos k ltac:(lia)) as Hpk.
  pose proof (pow2_pos (k - 1) ltac:(lia)) as Hpk1.
  f_equal.
  - rewrite Z.pow_add_r by lia. apply Z.div_mul_cancel_r; lia.
  - f_equal. replace (k + j - 1) with (k - 1 + j) by lia.
    rewrite Z.pow_add_r by lia. apply Z.div_mul_cancel_r; lia.
  - f_equal. replace (k + j - 1) with (k - 1 + j) by lia.
    rewrite Z.pow_add_r by lia. rewrite Z.mul_mod_distr_r by lia.
    destruct (n mod 2 ^ (k - 1) =? 0) eqn:H0.
    + apply Z.eqb_eq in H0. rewrite H0. reflexivity.
    + apply Z.eqb_neq in H0. apply Z.eqb_neq. nia.
Qed.

Lemma shr_rec_exact (n j k : Z) :
  0 < k <= j ->
  shr_rec (n * 2 ^ j) k = Build_shr_record (n * 2 ^ (j - k)) false false.
Proof.
  intros Hk. unfold shr_rec.
  pose proof (pow2_pos k ltac:(lia)) as Hpk.
  pose proof (pow2_pos (k - 1) ltac:(lia)) as Hpk1.
  f_equal.
  - rewrite (pow2_split j k) by lia. rewrite Z.mul_assoc. apply Z.div_mul. lia.
  - rewrite (pow2_split j (k - 1)) by lia. rewrite Z.mul_assoc, Z.div_mul by lia.
    replace (j - (k - 1)) with (Z.succ (j - k)) by lia.
    rewrite Z.pow_succ_r by lia.
    replace (n * (2 * 2 ^ (j - k))) with (2 * (n * 2 ^ (j - k))) by lia.
    apply Z.odd_even.
  - rewrite (pow2_split j (k - 1)) by lia. rewrite Z.mul_assoc, Z.mod_mul by lia.
    reflexivity.
Qed.

Lemma stage1_ticks (p : positive) (e : Z) :
  emin <= e ->
  stage1 p e = stage_ticks (Zpos p * 2 ^ (e - emin)).
Proof.
  intros He. rewrite stage1_spec. cbv zeta. unfold stage_ticks.
  rewrite digits2_pos_shift by lia.
  replace (Zpos (digits2_pos p) + (e - emin) + emin)
    with (Zpos (digits2_pos p) + e) by lia.
  set (f := fexp64 (Zpos (digits2_pos p) + e)).
  assert (Hf : emin <= f) by (subst f; rewrite fexp64_eq; unfold emin; lia).
  f_equal.
  destruct (f <=? e) eqn:Hfe; [apply Z.leb_le in Hfe | apply Z.leb_gt in Hfe].
  - destruct (f - emin <=? 0) eqn:Hk;
      [apply Z.leb_le in Hk | apply Z.leb_gt in Hk].
    + replace f with emin by lia. reflexivity.
    + rewrite shr_rec_exact by lia. do 3 f_equal. lia.
  - destruct (f - emin <=? 0) eqn:Hk;
      [apply Z.leb_le in Hk; lia | apply Z.leb_gt in Hk].
    replace (f - emin) with (f - e + (e - emin)) by lia.
    rewrite shr_rec_shift by lia. reflexivity.
Qed.

Lemma rne_spec (n k : Z) :
  0 <= n -> 0 < k ->
  n / 2 ^ k <= rne n k <= n / 2 ^ k + 1 /\
  (n mod 2 ^ k = 0 -> rne n k = n / 2 ^ k) /\
  2 * Z.abs (rne n k * 2 ^ k - n) <= 2 ^ k.
Proof.
  intros Hn Hk. unfold rne.
  destruct (k <=? 0) eqn:Hk0; [apply Z.leb_le in Hk0; lia|].
  cbv zeta. unfold shr_rec. cbn [shr_m loc_of_shr_record].
  pose proof (pow2_pos (k - 1) ltac:(lia)) as Hp1.
  assert (Hpk : 2 ^ k = 2 * 2 ^ (k - 1)).
  { replace k with (Z.succ (k - 1)) at 1 by lia. apply Z.pow_succ_r. lia. }
  pose proof (mod_pow2_succ n (k - 1) ltac:(lia)) as Hmod.
  replace (k - 1 + 1) with k in Hmod by lia.
  pose proof (odd_mod2 (n / 2 ^ (k - 1))) as Ho.
  pose proof (Z.mod_pos_bound n (2 ^ (k - 1)) Hp1) as Hlow.
  pose proof (Z.div_mod n (2 ^ k) ltac:(lia)) as Hdm.
  set (q := n / 2 ^ k) in *. set (lo := n mod 2 ^ (k - 1)) in *.
  destruct (Z.odd (n / 2 ^ (k - 1))); cbn [Z.b2z] in Ho; rewrite Ho in Hmod;
    destruct (lo =? 0) eqn:Hlo;
    [apply Z.eqb_eq in Hlo | apply Z.eqb_neq in Hlo
    | apply Z.eqb_eq in Hlo | apply Z.eqb_neq in Hlo];
    cbn [negb round_nearest_even].
  - destruct (Z.even q); repeat split; try lia.
  - repeat split; try lia.
  - repeat split; try lia.
  - repeat split; try lia.
Qed.

Lemma Zdigits2_bounds (n : Z) :
  0 < n -> 2 ^ (Zdigits2 n - 1) <= n < 2 ^ Zdigits2 n.
Proof.
  intros Hn. destruct n as [|p|p]; try lia. apply digits2_pos_bounds.
Qed.

Lemma Zdigits2_unique (n d : Z) :
  2 ^ (d - 1) <= n < 2 ^ d -> 0 < n -> Zdigits2 n = d.
Proof.
  intros H Hn. destruct n as [|p|p]; try lia. apply digits2_pos_unique, H.
Qed.

Lemma Zdigits2_pos (n : Z) : 0 < n -> 0 < Zdigits2 n.
Proof. intros Hn. destruct n as [|p|p]; try lia. cbn. lia. Qed.

Lemma shr_fexp_exact_noshift (m e : Z) :
  0 <= m -> fexp64 (Zdigits2 m + e) <= e ->
  shr_fexp prec emax m e loc_Exact = (Build_shr_record m false false, e).
Proof.
  intros Hm Hf. unfold shr_fexp. fold (fexp64 (Zdigits2 m + e)).
  cbn [shr_record_of_loc]. rewrite shr_exact by assumption.
  destruct (0 <? fexp64 (Zdigits2 m + e) - e) eqn:H; [apply Z.ltb_lt in H; lia|].
  reflexivity.
Qed.

Lemma round_to_float_spec (s : bool) (n : Z) :
  0 < n < 2 ^ 2097 ->
  exists m e,
    round_to_float s n = S754_finite s m e /\
    bounded prec emax m e = true /\
    Zpos m * 2 ^ (e - emin) = round_ticks n.
Proof.
  intros [Hn Hmax].
  pose proof (Zdigits2_bounds n Hn) as [Hdlo Hdhi].
  pose proof (Zdigits2_pos n Hn) as Hdpos.
  assert (Hd : Zdigits2 n <= 2097).
  { destruct (Z.le_gt_cases (Zdigits2 n) 2097) as [|Hgt]; [assumption|].
    assert (2 ^ 2097 <= 2 ^ (Zdigits2 n - 1)) by (apply Z.pow_le_mono_r; lia).
    lia. }
  unfold round_to_float, stage_ticks, round_ticks, dropped_bits, finish.
  rewrite fexp64_eq. unfold emin.
  set (d := Zdigits2 n) in *.
  destruct (Z.max (d + -1074 - 53) (-1074) - -1074 <=? 0) eqn:Hk;
    [apply Z.leb_le in Hk | apply Z.leb_gt in Hk].
  - (* no bit is dropped *)
    assert (Hd53 : d <= 53) by lia.
    replace (Z.max (d - 53) 0) with 0 by lia.
    replace (Z.max (d + -1074 - 53) (-1074)) with (-1074) by lia.
    cbn [shr_m loc_of_shr_record round_nearest_even].
    rewrite shr_fexp_exact_noshift
      by (try lia; fold d; rewrite fexp64_eq; lia).
    cbn [shr_m]. destruct n as [|p|p]; try lia.
    exists p, (-1074). split; [reflexivity|]. split.
    + unfold bounded, canonical_mantissa.
      change (Zpos (digits2_pos p)) with d.
      fold (fexp64 (d + -1074)). rewrite fexp64_eq.
      apply andb_true_iff. split; [apply Z.eqb_eq; lia | reflexivity].
    + unfold rne. cbn. lia.
  - (* [k] bits are dropped *)
    assert (Hd53 : 53 < d) by lia.
    set (k := d - 53) in *.
    replace (Z.max k 0) with k by lia.
    replace (Z.max (d + -1074 - 53) (-1074)) with (-1074 + k) by lia.
    replace (-1074 + k - -1074) with k by lia.
    pose proof (rne_spec n k ltac:(lia) ltac:(lia)) as (HR & _ & _).
    assert (Hrne : round_nearest_even (shr_m (shr_rec n k))
                     (loc_of_shr_record (shr_rec n k)) = rne n k).
    { unfold rne. destruct (k <=? 0) eqn:H0; [apply Z.leb_le in H0; lia|].
      reflexivity. }
    rewrite Hrne. set (R := rne n k) in *.
    pose proof (pow2_pos k ltac:(lia)) as Hpk.
    assert (Hq : 2 ^ 52 <= n / 2 ^ k < 2 ^ 53).
    { split.
      - apply Z.div_le_lower_bound; [lia|].
        rewrite <- Z.pow_add_r by lia. replace (k + 52) with (d - 1) by lia.
        assumption.
      - apply Z.div_lt_upper_bound; [lia|].
        rewrite <- Z.pow_add_r by lia. replace (k + 53) with d by lia.
        assumption. }
    destruct (Z.eq_dec R (2 ^ 53)) as [Hcarry | Hnocarry].
    + (* the mantissa is rounded up to [2^53] *)
      rewrite Hcarry. unfold shr_fexp.
      replace (Zdigits2 (2 ^ 53)) with 54 by reflexivity.
      fold (fexp64 (54 + (-1074 + k))). rewrite fexp64_eq.
      replace (Z.max (54 + (-1074 + k) - 53) (-1074) - (-1074 + k)) with 1 by lia.
      cbn [shr_record_of_loc]. rewrite shr_exact by lia.
      cbn [Z.ltb Z.compare]. unfold shr_rec. cbn [shr_m].
      change (2 ^ 53 / 2 ^ 1) with (Zpos (2 ^ 52)).
      destruct (-1074 + k + 1 <=? emax - prec) eqn:He;
        [|apply Z.leb_gt in He; unfold emax, prec in He; lia].
      exists (2 ^ 52)%positive, (-1074 + k + 1).
      split; [reflexivity|]. split.
      * unfold bounded, canonical_mantissa.
        change (Zpos (digits2_pos (2 ^ 52))) with 53.
        fold (fexp64 (53 + (-1074 + k + 1))). rewrite fexp64_eq.
        apply andb_true_iff. split; [apply Z.eqb_eq; lia | assumption].
      * replace (-1074 + k + 1 - -1074) with (k + 1) by lia.
        rewrite Z.pow_add_r by lia. change (Zpos (2 ^ 52)) with (2 ^ 52).
        change (2 ^ 53) with (2 ^ 52 * 2 ^ 1). lia.
    + (* no carry *)
      assert (HR53 : 2 ^ 52 <= R < 2 ^ 53) by lia.
      assert (HdR : Zdigits2 R = 53).
      { apply Zdigits2_unique; [exact HR53 | lia]. }
      rewrite shr_fexp_exact_noshift
        by (try lia; rewrite HdR, fexp64_eq; lia).
      cbn [shr_m]. destruct R as [|r|r] eqn:HRr; try lia.
      destruct (-1074 + k <=? emax - prec) eqn:He;
        [|apply Z.leb_gt in He; unfold emax, prec in He; lia].
      exists r, (-1074 + k). split; [reflexivity|]. split.
      * unfold bounded, canonical_mantissa.
        change (Zpos (digits2_pos r)) with (Zdigits2 (Zpos r)). rewrite HdR.
        fold (fexp64 (53 + (-1074 + k))). rewrite fexp64_eq.
        apply andb_true_iff. split; [apply Z.eqb_eq; lia | assumption].
      * replace (-1074 + k - -1074) with k by lia. reflexivity.
Qed.

(** *** Valid floats and their exact value *)

Lemma bounded_inv (m : positive) (e : Z) :
  bounded prec emax m e = true ->
  fexp64 (Zpos (digits2_pos m) + e) = e /\ emin <= e <= 971 /\
  Zpos (digits2_pos m) <= 53 /\ (emin < e -> Zpos (digits2_pos m) = 53).
Proof.
  unfold bounded, canonical_mantissa. rewrite andb_true_iff, Z.eqb_eq, Z.leb_le.
  fold (fexp64 (Zpos (digits2_pos m) + e)). rewrite fexp64_eq.
  unfold emin, emax, prec. lia.
Qed.

Lemma binary_round_ticks (s : bool) (p : positive) (e : Z) :
  emin <= e ->
  binary_round prec emax s p e = round_to_float s (Zpos p * 2 ^ (e - emin)).
Proof.
  intros He. unfold round_to_float.
  rewrite binary_round_stages, stage1_ticks by assumption.
  reflexivity.
Qed.

Lemma binary_round_canonical (s : bool) (m : positive) (e : Z) :
  bounded prec emax m e = true ->
  binary_round prec emax s m e = S754_finite s m e.
Proof.
  intros Hb. destruct (bounded_inv m e Hb) as (Hf & He & _ & _).
  rewrite binary_round_stages, stage1_spec. cbv zeta. rewrite Hf.
  rewrite Z.leb_refl, Z.sub_diag, Z.pow_0_r, Z.mul_1_r.
  unfold finish. cbn [shr_m loc_of_shr_record round_nearest_even].
  rewrite shr_fexp_exact_noshift by (cbn [Zdigits2]; lia).
  cbn [shr_m].
  destruct (e <=? emax - prec) eqn:Hle; [reflexivity|].
  apply Z.leb_gt in Hle. unfold emax, prec in Hle. lia.
Qed.

(** A valid finite float is the rounding of its own value. *)
Lemma finite_round_to_float (s : bool) (m : positive) (e : Z) :
  bounded prec emax m e = true ->
  S754_finite s m e = round_to_float s (Zpos m * 2 ^ (e - emin)).
Proof.
  intros Hb. destruct (bounded_inv m e Hb) as (_ & He & _ & _).
  rewrite <- binary_round_ticks by lia. symmetry.
  apply binary_round_canonical, Hb.
Qed.

Lemma binary_normalize_ticks (z e : Z) :
  emin <= e ->
  binary_normalize prec emax z e false = of_ticks (z * 2 ^ (e - emin)).
Proof.
  intros He. pose proof (pow2_pos (e - emin) ltac:(lia)) as Hp.
  unfold of_ticks. destruct z as [|p|p]; cbn [binary_normalize].
  - reflexivity.
  - destruct (Zpos p * 2 ^ (e - emin) =? 0) eqn:H0; [apply Z.eqb_eq in H0; lia|].
    destruct (Zpos p * 2 ^ (e - emin) <? 0) eqn:Hneg; [apply Z.ltb_lt in Hneg; lia|].
    rewrite Z.abs_eq by lia. apply binary_round_ticks, He.
  - destruct (Zneg p * 2 ^ (e - emin) =? 0) eqn:H0; [apply Z.eqb_eq in H0; lia|].
    destruct (Zneg p * 2 ^ (e - emin) <? 0) eqn:Hneg; [|apply Z.ltb_ge in Hneg; lia].
    replace (Z.abs (Zneg p * 2 ^ (e - emin))) with (Zpos p * 2 ^ (e - emin)) by lia.
    apply binary_round_ticks, He.
Qed.

Lemma shl_align_min (m : positive) (e ez : Z) :
  ez <= e -> Zpos (fst (shl_align m e ez)) = Zpos m * 2 ^ (e - ez).
Proof.
  intros He. unfold shl_align. destruct (ez - e) as [|d|d] eqn:Hd.
  - cbn [fst]. replace (e - ez) with 0 by lia. lia.
  - lia.
  - cbn [fst]. rewrite pos_iter_xO.
    replace (e - ez) with (Zpos d) by (rewrite <- Pos2Z.opp_pos in Hd; lia).
    reflexivity.
Qed.

Lemma ticks_finite (s : bool) (m : positive) (e : Z) :
  ticks (S754_finite s m e) = cond_Zopp s (Zpos m) * 2 ^ (e - emin).
Proof. reflexivity. Qed.

Lemma cond_Zopp_mul (s : bool) (a b : Z) :
  cond_Zopp s a * b = cond_Zopp s (a * b).
Proof. destruct s; cbn [cond_Zopp]; lia. Qed.

Lemma aligned_ticks (s : bool) (m : positive) (e ez : Z) :
  emin <= ez <= e ->
  cond_Zopp s (Zpos (fst (shl_align m e ez))) * 2 ^ (ez - emin)
  = ticks (S754_finite s m e).
Proof.
  intros He. rewrite shl_align_min, ticks_finite by lia.
  rewrite !cond_Zopp_mul. f_equal.
  rewrite (pow2_split (e - emin) (ez - emin)) by lia.
  replace (e - emin - (ez - emin)) with (e - ez) by lia. lia.
Qed.

(** Addition and subtraction of valid finite floats round the exact
    result. *)
Lemma sub_finite (sx sy : bool) (mx my : positive) (ex ey : Z) :
  bounded prec emax mx ex = true -> bounded prec emax my ey = true ->
  sub (S754_finite sx mx ex) (S754_finite sy my ey)
  = of_ticks (ticks (S754_finite sx mx ex) - ticks (S754_finite sy my ey)).
Proof.
  intros Hx Hy.
  destruct (bounded_inv _ _ Hx) as (_ & Hex & _ & _).
  destruct (bounded_inv _ _ Hy) as (_ & Hey & _ & _).
  unfold sub. cbn [SFsub]. rewrite binary_normalize_ticks by lia.
  f_equal. rewrite Z.mul_sub_distr_r, !aligned_ticks by lia. reflexivity.
Qed.

Lemma add_finite (sx sy : bool) (mx my : positive) (ex ey : Z) :
  bounded prec emax mx ex = true -> bounded prec emax my ey = true ->
  add (S754_finite sx mx ex) (S754_finite sy my ey)
  = of_ticks (ticks (S754_finite sx mx ex) + ticks (S754_finite sy my ey)).
Proof.
  intros Hx Hy.
  destruct (bounded_inv _ _ Hx) as (_ & Hex & _ & _).
  destruct (bounded_inv _ _ Hy) as (_ & Hey & _ & _).
  unfold add. cbn [SFadd]. rewrite binary_normalize_ticks by lia.
  f_equal. rewrite Z.mul_add_distr_r, !aligned_ticks by lia. reflexivity.
Qed.

(** A valid finite float is determined by its value. *)
Lemma of_ticks_ticks (x : float) :
  valid_float x = true -> is_finite x = true -> is_zero x = false ->
  of_ticks (ticks x) = x.
Proof.
  destruct x as [s|s| |s m e]; try discriminate.
  intros Hv _ _. cbn [valid_float valid_binary] in Hv.
  destruct (bounded_inv _ _ Hv) as (_ & He & _ & _).
  rewrite ticks_finite, (finite_round_to_float s m e Hv).
  pose proof (pow2_pos (e - emin) ltac:(lia)) as Hp.
  unfold of_ticks.
  destruct s; cbn [cond_Zopp].
  - destruct (- Zpos m * 2 ^ (e - emin) =? 0) eqn:H0; [apply Z.eqb_eq in H0; lia|].
    destruct (- Zpos m * 2 ^ (e - emin) <? 0) eqn:Hneg; [|apply Z.ltb_ge in Hneg; lia].
    f_equal. lia.
  - destruct (Zpos m * 2 ^ (e - emin) =? 0) eqn:H0; [apply Z.eqb_eq in H0; lia|].
    destruct (Zpos m * 2 ^ (e - emin) <? 0) eqn:Hneg; [apply Z.ltb_lt in Hneg; lia|].
    f_equal. lia.
Qed.

Lemma of_ticks_pos (n : Z) :
  0 < n < 2 ^ 2097 ->
  exists m e,
    of_ticks n = S754_finite false m e /\
    bounded prec emax m e = true /\
    ticks (of_ticks n) = round_ticks n.
Proof.
  intros Hn. unfold of_ticks.
  destruct (n =? 0) eqn:H0; [apply Z.eqb_eq in H0; lia|].
  destruct (n <? 0) eqn:Hneg; [apply Z.ltb_lt in Hneg; lia|].
  rewrite Z.abs_eq by lia.
  destruct (round_to_float_spec false n Hn) as (m & e & Hr & Hb & Ht).
  exists m, e. rewrite Hr. repeat split; try assumption.
Qed.

Lemma round_ticks_exact (a j : Z) :
  0 < a < 2 ^ 53 -> 0 <= j -> round_ticks (a * 2 ^ j) = a * 2 ^ j.
Proof.
  intros Ha Hj. unfold round_ticks, dropped_bits.
  pose proof (pow2_pos j Hj) as Hpj.
  destruct a as [|p|p]; try lia.
  rewrite digits2_pos_shift by lia.
  pose proof (digits2_pos_bounds p) as [Hlo _].
  assert (Hd : Zpos (digits2_pos p) <= 53).
  { destruct (Z.le_gt_cases (Zpos (digits2_pos p)) 53) as [|Hgt]; [assumption|].
    assert (2 ^ 53 <= 2 ^ (Zpos (digits2_pos p) - 1)) by (apply Z.pow_le_mono_r; lia).
    lia. }
  set (k := Z.max (Zpos (digits2_pos p) + j - 53) 0).
  assert (Hk : 0 <= k <= j) by lia.
  destruct (Z.eq_dec k 0) as [-> | Hk0].
  - unfold rne. cbn. lia.
  - pose proof (pow2_pos k ltac:(lia)) as Hpk.
    assert (Hmod : (Zpos p * 2 ^ j) mod 2 ^ k = 0).
    { rewrite (pow2_split j k) by lia. rewrite Z.mul_assoc. apply Z.mod_mul. lia. }
    destruct (rne_spec (Zpos p * 2 ^ j) k ltac:(lia) ltac:(lia)) as (_ & Hex & _).
    rewrite (Hex Hmod).
    pose proof (Z.div_mod (Zpos p * 2 ^ j) (2 ^ k) ltac:(lia)). lia.
Qed.

(** *** Comparison *)

Lemma bounded_lt_exp (m1 m2 : positive) (e1 e2 : Z) :
  bounded prec emax m1 e1 = true -> bounded prec emax m2 e2 = true ->
  e1 < e2 ->
  Zpos m1 * 2 ^ (e1 - emin) < Zpos m2 * 2 ^ (e2 - emin).
Proof.
  intros H1 H2 He.
  destruct (bounded_inv _ _ H1) as (_ & He1 & Hd1 & _).
  destruct (bounded_inv _ _ H2) as (_ & He2 & _ & Hd2).
  specialize (Hd2 ltac:(lia)).
  pose proof (digits2_pos_bounds m1) as [_ Hhi1].
  pose proof (digits2_pos_bounds m2) as [Hlo2 _].
  rewrite Hd2 in Hlo2. change (2 ^ (53 - 1)) with (2 ^ 52) in Hlo2.
  assert (Hm1 : Zpos m1 < 2 ^ 53).
  { eapply Z.lt_le_trans; [exact Hhi1|]. apply Z.pow_le_mono_r; lia. }
  pose proof (pow2_pos (e1 - emin) ltac:(lia)) as Hp1.
  rewrite (pow2_split (e2 - emin) (e1 - emin)) by lia.
  replace (e2 - emin - (e1 - emin)) with (e2 - e1) by lia.
  assert (Hp21 : 2 <= 2 ^ (e2 - e1)).
  { change 2 with (2 ^ 1) at 1. apply Z.pow_le_mono_r; lia. }
  change (2 ^ 53) with (2 * 2 ^ 52) in Hm1.
  set (c := 2 ^ 52) in *. set (t := 2 ^ (e2 - e1)) in *.
  set (u := 2 ^ (e1 - emin)) in *.
  assert (H1' : Zpos m1 * u < 2 * c * u) by (apply Z.mul_lt_mono_pos_r; lia).
  assert (H2' : 2 * c <= Zpos m2 * t) by nia.
  assert (H3' : 2 * c * u <= Zpos m2 * t * u)
    by (apply Z.mul_le_mono_nonneg_r; lia).
  lia.
Qed.

Lemma SFcompare_ticks (x y : float) :
  valid_float x = true -> valid_float y = true ->
  is_finite x = true -> is_finite y = true ->
  SFcompare x y = Some (ticks x ?= ticks y).
Proof.
  destruct x as [sx|sx| |sx mx ex]; try discriminate;
    destruct y as [sy|sy| |sy my ey]; try discriminate;
    intros Hx Hy _ _; cbn [valid_float valid_binary] in Hx, Hy.
  - reflexivity.
  - destruct (bounded_inv _ _ Hy) as (_ & He & _).
    pose proof (pow2_pos (ey - emin) ltac:(lia)).
    cbn [SFcompare]. rewrite ticks_finite. cbn [ticks]. f_equal. symmetry.
    destruct sy; cbn [cond_Zopp];
      [apply Z.compare_gt_iff | apply Z.compare_lt_iff]; lia.
  - destruct (bounded_inv _ _ Hx) as (_ & He & _).
    pose proof (pow2_pos (ex - emin) ltac:(lia)).
    cbn [SFcompare]. rewrite ticks_finite. cbn [ticks]. f_equal. symmetry.
    destruct sx; cbn [cond_Zopp];
      [apply Z.compare_lt_iff | apply Z.compare_gt_iff]; lia.
  - destruct (bounded_inv _ _ Hx) as (_ & Hex & _).
    destruct (bounded_inv _ _ Hy) as (_ & Hey & _).
    pose proof (pow2_pos (ex - emin) ltac:(lia)) as Hpx.
    pose proof (pow2_pos (ey - emin) ltac:(lia)) as Hpy.
    cbn [SFcompare]. rewrite !ticks_finite. f_equal. symmetry.
    destruct sx, sy; cbn [cond_Zopp].
    + (* both negative *)
      rewrite !Z.mul_opp_l, Z.compare_opp.
      destruct (ex ?= ey) eqn:Hc.
      * apply Z.compare_eq in Hc. subst ey.
        change (Pos.compare_cont Eq mx my) with (Zpos mx ?= Zpos my).
        rewrite <- (Zmult_compare_compat_r (Zpos my) (Zpos mx)) by lia.
        rewrite (Z.compare_antisym (Zpos mx) (Zpos my)). reflexivity.
      * apply Z.compare_lt_iff in Hc.
        pose proof (bounded_lt_exp _ _ _ _ Hx Hy Hc).
        cbn [CompOpp]. apply Z.compare_gt_iff. lia.
      * apply Z.compare_gt_iff in Hc.
        pose proof (bounded_lt_exp _ _ _ _ Hy Hx Hc).
        cbn [CompOpp]. apply Z.compare_lt_iff. lia.
    + apply Z.compare_lt_iff. lia.
    + apply Z.compare_gt_iff. lia.
    + (* both positive *)
      destruct (ex ?= ey) eqn:Hc.
      * apply Z.compare_eq in Hc. subst ey.
        change (Pos.compare_cont Eq mx my) with (Zpos mx ?= Zpos my).
        symmetry. apply Zmult_compare_compat_r. lia.
      * apply Z.compare_lt_iff in Hc.
        pose proof (bounded_lt_exp _ _ _ _ Hx Hy Hc).
        apply Z.compare_lt_iff. lia.
      * apply Z.compare_gt_iff in Hc.
        pose proof (bounded_lt_exp _ _ _ _ Hy Hx Hc).
        apply Z.compare_gt_iff. lia.
Qed.

Lemma ltb_ticks (x y : float) :
  valid_float x = true -> valid_float y = true ->
  is_finite x = true -> is_finite y = true ->
  ltb x y = (ticks x <? ticks y).
Proof.
  intros. unfold ltb, SFltb. rewrite SFcompare_ticks by assumption.
  unfold Z.ltb. destruct (ticks x ?= ticks y); reflexivity.
Qed.

Lemma leb_ticks (x y : float) :
  valid_float x = true -> valid_float y = true ->
  is_finite x = true -> is_finite y = true ->
  leb x y = (ticks x <=? ticks y).
Proof.
  intros. unfold leb, SFleb. rewrite SFcompare_ticks by assumption.
  unfold Z.leb. destruct (ticks x ?= ticks y); reflexivity.
Qed.

Lemma eqb_ticks (x y : float) :
  valid_float x = true -> valid_float y = true ->
  is_finite x = true -> is_finite y = true ->
  eqb x y = (ticks x =? ticks y).
Proof.
  intros. unfold eqb, SFeqb. rewrite SFcompare_ticks by assumption.
  destruct (ticks x ?= ticks y) eqn:Hc; symmetry.
  - apply Z.eqb_eq, Z.compare_eq, Hc.
  - apply Z.eqb_neq. rewrite Z.compare_lt_iff in Hc. lia.
  - apply Z.eqb_neq. rewrite Z.compare_gt_iff in Hc. lia.
Qed.

(** *** Remainder and floor division of positive floats *)

Lemma pos_finite_inv (x : float) :
  pos_finite x = true ->
  exists m e, x = S754_finite false m e /\ bounded prec emax m e = true.
Proof.
  destruct x as [s|s| |[|] m e]; try discriminate. intros H. eauto.
Qed.

Lemma pos_finite_ticks (x : float) : pos_finite x = true -> 0 < ticks x.
Proof.
  intros H. destruct (pos_finite_inv x H) as (m & e & -> & Hb).
  destruct (bounded_inv _ _ Hb) as (_ & He & _).
  pose proof (pow2_pos (e - emin) ltac:(lia)).
  rewrite ticks_finite. cbn [cond_Zopp]. lia.
Qed.

Lemma of_ticks_exact (a j : Z) :
  0 < a < 2 ^ 53 -> 0 <= j -> a * 2 ^ j < 2 ^ 2097 ->
  pos_finite (of_ticks (a * 2 ^ j)) = true /\
  ticks (of_ticks (a * 2 ^ j)) = a * 2 ^ j.
Proof.
  intros Ha Hj Hmax. pose proof (pow2_pos j Hj).
  destruct (of_ticks_pos (a * 2 ^ j) ltac:(split; [nia | assumption]))
    as (m & e & Hr & Hb & Ht).
  rewrite Ht, round_ticks_exact by assumption.
  split; [|reflexivity]. rewrite Hr. exact Hb.
Qed.

Lemma fmod_pos (x y : float) :
  pos_finite x = true -> pos_finite y = true -> ticks x < 2 ^ 2097 ->
  fmod x y = of_ticks (ticks x mod ticks y) /\
  (ticks x mod ticks y <> 0 ->
   pos_finite (fmod x y) = true /\ ticks (fmod x y) = ticks x mod ticks y).
Proof.
  intros Hx Hy Hmax.
  pose proof (pos_finite_ticks x Hx) as Htx.
  pose proof (pos_finite_ticks y Hy) as Hty.
  destruct (pos_finite_inv x Hx) as (mx & ex & -> & Hbx).
  destruct (pos_finite_inv y Hy) as (my & ey & -> & Hby).
  destruct (bounded_inv _ _ Hbx) as (_ & Hex & Hdx & _).
  destruct (bounded_inv _ _ Hby) as (_ & Hey & Hdy & _).
  set (e := Z.min ex ey).
  pose proof (pow2_pos (e - emin) ltac:(lia)) as Hp.
  pose proof (pow2_pos (ex - e) ltac:(lia)) as Hpx.
  pose proof (pow2_pos (ey - e) ltac:(lia)) as Hpy.
  set (X := Zpos mx * 2 ^ (ex - e)). set (Y := Zpos my * 2 ^ (ey - e)).
  assert (HX : X * 2 ^ (e - emin) = ticks (S754_finite false mx ex)).
  { rewrite ticks_finite. cbn [cond_Zopp]. unfold X.
    rewrite (pow2_split (ex - emin) (e - emin)) by lia.
    replace (ex - emin - (e - emin)) with (ex - e) by lia. lia. }
  assert (HY : Y * 2 ^ (e - emin) = ticks (S754_finite false my ey)).
  { rewrite ticks_finite. cbn [cond_Zopp]. unfold Y.
    rewrite (pow2_split (ey - emin) (e - emin)) by lia.
    replace (ey - emin - (e - emin)) with (ey - e) by lia. lia. }
  assert (Hfm : fmod (S754_finite false mx ex) (S754_finite false my ey)
                = of_ticks (X mod Y * 2 ^ (e - emin))).
  { cbn [fmod]. fold e. fold X. fold Y. cbn [cond_Zopp].
    rewrite binary_normalize_ticks by lia.
    rewrite Z.rem_mod_nonneg by lia. reflexivity. }
  assert (Hmod : X mod Y * 2 ^ (e - emin)
                 = ticks (S754_finite false mx ex)
                   mod ticks (S754_finite false my ey)).
  { rewrite <- HX, <- HY. symmetry. apply Z.mul_mod_distr_r; lia. }
  rewrite Hfm, Hmod. split; [reflexivity|].
  intros Hnz. rewrite <- Hmod in Hnz |- *.
  assert (Hr : 0 < X mod Y < 2 ^ 53).
  { pose proof (Z.mod_pos_bound X Y ltac:(lia)) as Hb.
    split; [nia|].
    pose proof (digits2_pos_bounds mx) as [_ Hhx].
    pose proof (digits2_pos_bounds my) as [_ Hhy].
    assert (Hmx : Zpos mx < 2 ^ 53).
    { eapply Z.lt_le_trans; [exact Hhx|]. apply Z.pow_le_mono_r; lia. }
    assert (Hmy : Zpos my < 2 ^ 53).
    { eapply Z.lt_le_trans; [exact Hhy|]. apply Z.pow_le_mono_r; lia. }
    destruct (Z.le_gt_cases ex ey) as [Hle | Hgt].
    - assert (HXe : X = Zpos mx).
      { unfold X. replace (ex - e) with 0 by lia. lia. }
      pose proof (Z.mod_le X Y ltac:(lia) ltac:(lia)). lia.
    - assert (HYe : Y = Zpos my).
      { unfold Y. replace (ey - e) with 0 by lia. lia. }
      lia. }
  apply of_ticks_exact; try lia.
  rewrite Hmod.
  pose proof (Z.mod_le (ticks (S754_finite false mx ex))
                (ticks (S754_finite false my ey)) ltac:(lia) ltac:(lia)).
  lia.
Qed.

Lemma sub_fmod_pos (x y : float) :
  pos_finite x = true -> pos_finite y = true -> ticks x < 2 ^ 2097 ->
  sub x (fmod x y) = of_ticks (ticks x / ticks y * ticks y).
Proof.
  intros Hx Hy Hmax.
  pose proof (pos_finite_ticks y Hy) as Hty.
  destruct (fmod_pos x y Hx Hy Hmax) as [Hfm Hnz].
  pose proof (Z.div_mod (ticks x) (ticks y) ltac:(lia)) as Hdm.
  destruct (Z.eq_dec (ticks x mod ticks y) 0) as [H0 | Hne].
  - rewrite Hfm, H0. change (of_ticks 0) with (S754_zero false).
    destruct (pos_finite_inv x Hx) as (mx & ex & -> & Hbx).
    cbn [sub SFsub].
    rewrite <- (of_ticks_ticks (S754_finite false mx ex)) at 1
      by (try reflexivity; exact Hbx).
    f_equal. lia.
  - destruct (Hnz Hne) as [Hpf Ht].
    destruct (pos_finite_inv x Hx) as (mx & ex & Ex & Hbx).
    destruct (pos_finite_inv _ Hpf) as (mr & er & Er & Hbr).
    rewrite Er in Ht |- *. rewrite Ex in Hdm, Ht |- *.
    rewrite sub_finite by assumption. f_equal. lia.
Qed.

Lemma signbit_binary_round_aux (m e : Z) (l : location) :
  signbit (binary_round_aux prec emax false m e l) = false.
Proof.
  unfold binary_round_aux.
  destruct (shr_fexp prec emax m e l) as [mrs' e'].
  destruct (shr_fexp prec emax _ e' loc_Exact) as [mrs'' e''].
  destruct (shr_m mrs''); [reflexivity | | reflexivity].
  destruct (e'' <=? emax - prec); reflexivity.
Qed.

Lemma signbit_div_pos (x y : float) :
  pos_finite x = true -> pos_finite y = true -> signbit (div x y) = false.
Proof.
  intros Hx Hy.
  destruct (pos_finite_inv x Hx) as (mx & ex & -> & _).
  destruct (pos_finite_inv y Hy) as (my & ey & -> & _).
  unfold div. cbn [SFdiv xorb].
  destruct (SFdiv_core_binary prec emax (Zpos mx) ex (Zpos my) ey) as [[mz ez] lz].
  apply signbit_binary_round_aux.
Qed.

Lemma float_floor_div_pos (x y : float) :
  pos_finite x = true -> pos_finite y = true -> ticks x < 2 ^ 2097 ->
  float_floor_div_nz x y = floordiv_of_quot y (ticks x / ticks y).
Proof.
  intros Hx Hy Hmax.
  unfold float_floor_div_nz, float_div_mod, floordiv_of_quot.
  rewrite (sub_fmod_pos x y Hx Hy Hmax).
  rewrite (signbit_div_pos x y Hx Hy).
  set (div0 := of_ticks (ticks x / ticks y * ticks y) ⊘ y).
  destruct (fmod_pos x y Hx Hy Hmax) as [Hfm Hnz].
  destruct (pos_finite_inv y Hy) as (my & ey & Ey & _).
  destruct (Z.eq_dec (ticks x mod ticks y) 0) as [H0 | Hne].
  - rewrite Hfm, H0. change (of_ticks 0) with (S754_zero false).
    cbn [eqb SFeqb SFcompare zero negb fst]. reflexivity.
  - destruct (Hnz Hne) as [Hpf _].
    destruct (pos_finite_inv _ Hpf) as (mr & er & Er & _).
    rewrite Er, Ey.
    cbn [eqb SFeqb ltb SFltb SFcompare zero negb xorb fst]. reflexivity.
Qed.

Lemma float_rem_pos (x y : float) :
  pos_finite x = true -> pos_finite y = true -> ticks x < 2 ^ 2097 ->
  float_rem_nz x y = of_ticks (ticks x mod ticks y).
Proof.
  intros Hx Hy Hmax. unfold float_rem_nz.
  destruct (fmod_pos x y Hx Hy Hmax) as [Hfm Hnz].
  destruct (pos_finite_inv y Hy) as (my & ey & Ey & _).
  destruct (Z.eq_dec (ticks x mod ticks y) 0) as [H0 | Hne].
  - rewrite Hfm, H0, Ey. reflexivity.
  - destruct (Hnz Hne) as [Hpf _]. rewrite <- Hfm.
    destruct (pos_finite_inv _ Hpf) as (mr & er & Er & _).
    rewrite Er, Ey.
    cbn [eqb SFeqb ltb SFltb SFcompare zero negb xorb]. reflexivity.
Qed.

(** *** Error and bounds of the rounding *)

Lemma Zdigits2_le (n D : Z) : 0 < n < 2 ^ D -> 0 <= D -> Zdigits2 n <= D.
Proof.
  intros [Hn Hlt] HD. pose proof (Zdigits2_bounds n Hn) as [Hlo _].
  destruct (Z.le_gt_cases (Zdigits2 n) D) as [|Hgt]; [assumption|].
  assert (2 ^ D <= 2 ^ (Zdigits2 n - 1)) by (apply Z.pow_le_mono_r; lia).
  lia.
Qed.

Lemma round_ticks_error (n D : Z) :
  0 < n < 2 ^ D -> 53 <= D ->
  2 * Z.abs (round_ticks n - n) <= 2 ^ (D - 53).
Proof.
  intros Hn HD. pose proof (Zdigits2_le n D Hn ltac:(lia)) as Hd.
  pose proof (pow2_pos (D - 53) ltac:(lia)) as Hp.
  unfold round_ticks, dropped_bits.
  destruct (Z.le_gt_cases (Zdigits2 n) 53) as [Hle | Hgt].
  - replace (Z.max (Zdigits2 n - 53) 0) with 0 by lia.
    unfold rne. cbn [Z.leb Z.compare]. rewrite Z.pow_0_r, Z.mul_1_r, Z.sub_diag.
    cbn [Z.abs]. lia.
  - replace (Z.max (Zdigits2 n - 53) 0) with (Zdigits2 n - 53) by lia.
    destruct (rne_spec n (Zdigits2 n - 53) ltac:(lia) ltac:(lia)) as (_ & _ & He).
    assert (2 ^ (Zdigits2 n - 53) <= 2 ^ (D - 53)) by (apply Z.pow_le_mono_r; lia).
    lia.
Qed.

Lemma round_ticks_positive (n : Z) : 0 < n -> 0 < round_ticks n.
Proof.
  intros Hn. unfold round_ticks, dropped_bits.
  destruct (Z.le_gt_cases (Zdigits2 n) 53) as [Hle | Hgt].
  - replace (Z.max (Zdigits2 n - 53) 0) with 0 by lia.
    unfold rne. cbn [Z.leb Z.compare]. lia.
  - replace (Z.max (Zdigits2 n - 53) 0) with (Zdigits2 n - 53) by lia.
    set (k := Zdigits2 n - 53).
    destruct (rne_spec n k ltac:(lia) ltac:(lia)) as (Hr & _ & _).
    pose proof (pow2_pos k ltac:(lia)) as Hp.
    pose proof (Zdigits2_bounds n Hn) as [Hlo _].
    assert (Hq : 2 ^ 52 <= n / 2 ^ k).
    { apply Z.div_le_lower_bound; [lia|].
      rewrite <- Z.pow_add_r by lia. replace (k + 52) with (Zdigits2 n - 1) by lia.
      assumption. }
    assert (0 < 2 ^ 52) by reflexivity. nia.
Qed.

Lemma representable_digits (a j : Z) :
  0 < a < 2 ^ 53 -> 0 <= j -> Zdigits2 (a * 2 ^ j) - 53 <= j.
Proof.
  intros Ha Hj. destruct a as [|p|p]; try lia.
  rewrite digits2_pos_shift by lia.
  pose proof (Zdigits2_le (Zpos p) 53 Ha ltac:(lia)). cbn [Zdigits2] in H. lia.
Qed.

Lemma round_ticks_le (n B : Z) :
  0 < n <= B -> representable B -> round_ticks n <= B.
Proof.
  intros Hn (a & j & -> & Ha & Hj).
  pose proof (pow2_pos j Hj) as Hpj.
  unfold round_ticks, dropped_bits.
  destruct (Z.le_gt_cases (Zdigits2 n) 53) as [Hle | Hgt].
  - replace (Z.max (Zdigits2 n - 53) 0) with 0 by lia.
    unfold rne. cbn [Z.leb Z.compare]. lia.
  - replace (Z.max (Zdigits2 n - 53) 0) with (Zdigits2 n - 53) by lia.
    set (k := Zdigits2 n - 53).
    assert (Hk : 0 < k <= j).
    { split; [lia|].
      pose proof (representable_digits a j Ha Hj) as HB.
      assert (Zdigits2 n <= Zdigits2 (a * 2 ^ j)); [|lia].
      apply Zdigits2_le; [|pose proof (Zdigits2_pos (a * 2 ^ j)); nia].
      split; [lia|].
      pose proof (Zdigits2_bounds (a * 2 ^ j) ltac:(nia)) as [_ Hhi]. lia. }
    pose proof (pow2_pos k ltac:(lia)) as Hpk.
    destruct (rne_spec n k ltac:(lia) ltac:(lia)) as (Hr & Hex & _).
    pose proof (Z.div_mod n (2 ^ k) ltac:(lia)) as Hdm.
    pose proof (Z.mod_pos_bound n (2 ^ k) Hpk) as Hmod.
    assert (HB : a * 2 ^ j = a * 2 ^ (j - k) * 2 ^ k).
    { rewrite (pow2_split j k) by lia. lia. }
    set (b := a * 2 ^ (j - k)) in *.
    destruct (Z.eq_dec (n mod 2 ^ k) 0) as [H0 | Hne].
    + rewrite (Hex H0). rewrite HB. nia.
    + assert (n / 2 ^ k < b) by nia. rewrite HB. nia.
Qed.

Lemma round_ticks_repr (n : Z) :
  representable n -> round_ticks n = n.
Proof.
  intros (a & j & -> & Ha & Hj). apply round_ticks_exact; assumption.
Qed.

(** *** Signed values *)

Lemma rnd_0 : rnd 0 = 0.
Proof. reflexivity. Qed.

Lemma rnd_pos (n : Z) : 0 < n -> rnd n = round_ticks n.
Proof.
  intros Hn. unfold rnd. rewrite Z.sgn_pos, Z.abs_eq by lia. lia.
Qed.

Lemma rnd_neg (n : Z) : n < 0 -> rnd n = - round_ticks (- n).
Proof.
  intros Hn. unfold rnd. rewrite Z.sgn_neg, Z.abs_neq by lia. lia.
Qed.

Lemma rnd_error (n D : Z) :
  Z.abs n < 2 ^ D -> 53 <= D -> 2 * Z.abs (rnd n - n) <= 2 ^ (D - 53).
Proof.
  intros Hn HD. pose proof (pow2_pos (D - 53) ltac:(lia)) as Hp.
  destruct (Z.lt_trichotomy n 0) as [Hneg | [-> | Hpos]].
  - rewrite rnd_neg by assumption.
    pose proof (round_ticks_error (- n) D ltac:(lia) HD). lia.
  - rewrite rnd_0. cbn. lia.
  - rewrite rnd_pos by assumption.
    pose proof (round_ticks_error n D ltac:(lia) HD). lia.
Qed.

Lemma rnd_bounds_pos (n B : Z) :
  0 < n <= B -> representable B -> 0 < rnd n <= B.
Proof.
  intros Hn HB. rewrite rnd_pos by lia. split.
  - apply round_ticks_positive. lia.
  - apply round_ticks_le; assumption.
Qed.

Lemma rnd_bounds_neg (n B : Z) :
  - B <= n < 0 -> representable B -> - B <= rnd n < 0.
Proof.
  intros Hn HB. rewrite rnd_neg by lia.
  pose proof (round_ticks_positive (- n) ltac:(lia)).
  pose proof (round_ticks_le (- n) B ltac:(lia) HB). lia.
Qed.

Lemma rnd_repr (n : Z) : representable (Z.abs n) -> rnd n = n.
Proof.
  intros Hr. unfold rnd. rewrite round_ticks_repr by assumption.
  destruct n; cbn; lia.
Qed.

(** *** Every operation returns a valid float *)

Lemma shr_1_m (mrs : shr_record) :
  0 <= shr_m mrs -> shr_m (shr_1 mrs) = shr_m mrs / 2.
Proof.
  destruct mrs as [m r s]. cbn [shr_m]. intros Hm.
  rewrite shr_1_nonneg by assumption. reflexivity.
Qed.

Lemma nat_iter_shr_m (mrs : shr_record) (j : nat) :
  0 <= shr_m mrs ->
  shr_m (@Nat.iter j shr_record shr_1 mrs) = shr_m mrs / 2 ^ Z.of_nat j.
Proof.
  intros Hm. induction j as [|j IH].
  - cbn [Nat.iter]. change (2 ^ Z.of_nat 0) with 1. rewrite Z.div_1_r. reflexivity.
  - change (@Nat.iter (S j) shr_record shr_1 mrs)
      with (shr_1 (@Nat.iter j shr_record shr_1 mrs)).
    pose proof (pow2_pos (Z.of_nat j) ltac:(lia)) as Hp.
    rewrite shr_1_m by (rewrite IH; apply Z.div_pos; lia).
    rewrite IH, Nat2Z.inj_succ, Z.pow_succ_r by lia.
    rewrite Z.div_div by lia. f_equal. lia.
Qed.

Lemma shr_m_shr (mrs : shr_record) (e k : Z) :
  0 <= shr_m mrs -> 0 <= k ->
  shr_m (fst (shr mrs e k)) = shr_m mrs / 2 ^ k /\ snd (shr mrs e k) = e + k.
Proof.
  intros Hm Hk. destruct k as [|p|p]; [| |lia].
  - cbn [shr fst snd]. rewrite Z.pow_0_r, Z.div_1_r. lia.
  - cbn [shr fst snd]. rewrite iter_pos_nat, nat_iter_shr_m by assumption.
    rewrite positive_nat_Z. split; reflexivity.
Qed.

Lemma Zdigits2_div_pow2 (m k : Z) :
  0 < m -> 0 <= k -> Zdigits2 (m / 2 ^ k) = Z.max (Zdigits2 m - k) 0.
Proof.
  intros Hm Hk. pose proof (Zdigits2_bounds m Hm) as [Hlo Hhi].
  pose proof (Zdigits2_pos m Hm) as Hd. pose proof (pow2_pos k Hk) as Hp.
  destruct (Z.le_gt_cases (Zdigits2 m) k) as [Hle | Hgt].
  - assert (2 ^ Zdigits2 m <= 2 ^ k) by (apply Z.pow_le_mono_r; lia).
    rewrite Z.div_small by lia. cbn [Zdigits2]. lia.
  - replace (Z.max (Zdigits2 m - k) 0) with (Zdigits2 m - k) by lia.
    assert (Hq : 2 ^ (Zdigits2 m - k - 1) <= m / 2 ^ k < 2 ^ (Zdigits2 m - k)).
    { split.
      - apply Z.div_le_lower_bound; [lia|].
        rewrite <- Z.pow_add_r by lia.
        replace (k + (Zdigits2 m - k - 1)) with (Zdigits2 m - 1) by lia. assumption.
      - apply Z.div_lt_upper_bound; [lia|].
        rewrite <- Z.pow_add_r by lia.
        replace (k + (Zdigits2 m - k)) with (Zdigits2 m) by lia. assumption. }
    apply Zdigits2_unique; [exact Hq|].
    pose proof (pow2_pos (Zdigits2 m - k - 1) ltac:(lia)). lia.
Qed.

Lemma shr_m_of_loc (m : Z) (l : location) : shr_m (shr_record_of_loc m l) = m.
Proof. destruct l as [|[]]; reflexivity. Qed.

(** The first rounding step leaves a mantissa in canonical position,
    whatever the bits it has shifted out. *)
Lemma shr_fexp_canonical (m e : Z) (l : location) :
  0 <= m -> e <= fexp64 (Zdigits2 m + e) ->
  0 <= shr_m (fst (shr_fexp prec emax m e l)) /\
  fexp64 (Zdigits2 (shr_m (fst (shr_fexp prec emax m e l)))
          + snd (shr_fexp prec emax m e l))
  = snd (shr_fexp prec emax m e l).
Proof.
  intros Hm He. unfold shr_fexp. fold (fexp64 (Zdigits2 m + e)).
  set (f := fexp64 (Zdigits2 m + e)) in *.
  destruct (shr_m_shr (shr_record_of_loc m l) e (f - e)) as [Hsm Hse];
    [rewrite shr_m_of_loc; lia | lia |].
  rewrite Hsm, Hse, shr_m_of_loc.
  pose proof (pow2_pos (f - e) ltac:(lia)) as Hp.
  split; [apply Z.div_pos; lia|].
  replace (e + (f - e)) with f by lia.
  destruct (Z.eq_dec m 0) as [-> | Hne].
  - rewrite Z.div_0_l by lia. subst f. cbn [Zdigits2] in *.
    rewrite !fexp64_eq in *. lia.
  - rewrite Zdigits2_div_pow2 by lia. subst f.
    rewrite !fexp64_eq in *. lia.
Qed.

Lemma Zdigits2_mono (a b : Z) : 0 <= a <= b -> Zdigits2 a <= Zdigits2 b.
Proof.
  intros H. destruct (Z.eq_dec a 0) as [-> | Hne].
  - destruct b; cbn; lia.
  - pose proof (Zdigits2_bounds b ltac:(lia)) as [_ Hhi].
    apply Zdigits2_le; [lia|]. pose proof (Zdigits2_pos b ltac:(lia)). lia.
Qed.

Lemma round_nearest_even_cases (m : Z) (l : location) :
  round_nearest_even m l = m \/ round_nearest_even m l = m + 1.
Proof.
  destruct l as [|[]]; cbn [round_nearest_even]; try (left; reflexivity);
    try (right; reflexivity).
  destruct (Z.even m); [left | right]; reflexivity.
Qed.

Lemma finish_result_valid (s : bool) (m : positive) (e : Z) :
  fexp64 (Zpos (digits2_pos m) + e) = e ->
  valid_float (if e <=? emax - prec then S754_finite s m e else S754_infinity s)
  = true.
Proof.
  intros Hc. destruct (e <=? emax - prec) eqn:He; [|reflexivity].
  cbn [valid_float valid_binary]. unfold bounded, canonical_mantissa.
  fold (fexp64 (Zpos (digits2_pos m) + e)). rewrite Hc, Z.eqb_refl, He.
  reflexivity.
Qed.

Lemma finish_valid (s : bool) (mrs : shr_record) (e : Z) :
  0 <= shr_m mrs -> fexp64 (Zdigits2 (shr_m mrs) + e) = e ->
  valid_float (finish s (mrs, e)) = true.
Proof.
  intros Hm Hc. unfold finish.
  set (R := round_nearest_even (shr_m mrs) (loc_of_shr_record mrs)).
  assert (HR : R = shr_m mrs \/ R = shr_m mrs + 1)
    by apply round_nearest_even_cases.
  set (m := shr_m mrs) in *.
  assert (Hd : Zdigits2 m <= 53 /\ -1074 <= e) by (rewrite fexp64_eq in Hc; lia).
  assert (Hm53 : m < 2 ^ 53).
  { destruct (Z.eq_dec m 0) as [-> | Hne]; [reflexivity|].
    pose proof (Zdigits2_bounds m ltac:(lia)) as [_ Hhi].
    assert (2 ^ Zdigits2 m <= 2 ^ 53) by (apply Z.pow_le_mono_r; lia). lia. }
  destruct (Z.eq_dec R (2 ^ 53)) as [Hcarry | Hno].
  - rewrite Hcarry. unfold shr_fexp.
    replace (Zdigits2 (2 ^ 53)) with 54 by reflexivity.
    fold (fexp64 (54 + e)). rewrite fexp64_eq.
    replace (Z.max (54 + e - 53) (-1074) - e) with 1 by lia.
    cbn [shr_record_of_loc]. rewrite shr_exact by lia.
    cbn [Z.ltb Z.compare]. unfold shr_rec. cbn [shr_m].
    change (2 ^ 53 / 2 ^ 1) with (Zpos (2 ^ 52)).
    apply finish_result_valid. change (Zpos (digits2_pos (2 ^ 52))) with 53.
    rewrite fexp64_eq. lia.
  - assert (HR53 : 0 <= R < 2 ^ 53) by lia.
    assert (HdR : fexp64 (Zdigits2 R + e) = e).
    { assert (Zdigits2 m <= Zdigits2 R) by (apply Zdigits2_mono; lia).
      assert (Zdigits2 R <= 53).
      { destruct (Z.eq_dec R 0) as [-> | Hne]; [cbn; lia|].
        apply Zdigits2_le; lia. }
      rewrite fexp64_eq in *. lia. }
    rewrite shr_fexp_exact_noshift by lia.
    cbn [shr_m]. destruct R as [|r|r]; [reflexivity | | lia].
    apply finish_result_valid. exact HdR.
Qed.

Lemma binary_round_aux_finish (s : bool) (m e : Z) (l : location) :
  binary_round_aux prec emax s m e l = finish s (shr_fexp prec emax m e l).
Proof.
  unfold binary_round_aux, finish.
  destruct (shr_fexp prec emax m e l) as [mrs' e']. reflexivity.
Qed.

Lemma binary_round_aux_valid (s : bool) (m e : Z) (l : location) :
  0 <= m -> e <= fexp64 (Zdigits2 m + e) ->
  valid_float (binary_round_aux prec emax s m e l) = true.
Proof.
  intros Hm He. rewrite binary_round_aux_finish.
  destruct (shr_fexp_canonical m e l Hm He) as [H0 Hc].
  destruct (shr_fexp prec emax m e l) as [mrs e']. cbn [fst snd] in *.
  apply finish_valid; assumption.
Qed.

Lemma binary_round_valid (s : bool) (p : positive) (e : Z) :
  valid_float (binary_round prec emax s p e) = true.
Proof.
  rewrite binary_round_stages, stage1_spec. cbv zeta.
  set (f := fexp64 (Zpos (digits2_pos p) + e)).
  assert (Hf : f = Z.max (Zpos (digits2_pos p) + e - 53) (-1074))
    by (subst f; apply fexp64_eq).
  destruct (f <=? e) eqn:Hfe; [apply Z.leb_le in Hfe | apply Z.leb_gt in Hfe].
  - pose proof (pow2_pos (e - f) ltac:(lia)) as Hp.
    apply finish_valid; cbn [shr_m]; [lia|].
    rewrite digits2_pos_shift by lia.
    replace (Zpos (digits2_pos p) + (e - f) + f) with (Zpos (digits2_pos p) + e) by lia.
    reflexivity.
  - pose proof (pow2_pos (f - e) ltac:(lia)) as Hp.
    apply finish_valid; unfold shr_rec; cbn [shr_m]; [apply Z.div_pos; lia|].
    rewrite Zdigits2_div_pow2 by lia. cbn [Zdigits2].
    rewrite fexp64_eq. lia.
Qed.

Lemma binary_normalize_valid (m e : Z) (s : bool) :
  valid_float (binary_normalize prec emax m e s) = true.
Proof.
  destruct m; cbn [binary_normalize]; [reflexivity | |]; apply binary_round_valid.
Qed.

Lemma add_valid (x y : float) :
  valid_float x = true -> valid_float y = true -> valid_float (x ⊕ y) = true.
Proof.
  intros Hx Hy. unfold add.
  destruct x as [sx|sx| |sx mx ex], y as [sy|sy| |sy my ey]; cbn [SFadd];
    try reflexivity; try assumption;
    try (destruct sx, sy; reflexivity).
  apply binary_normalize_valid.
Qed.

Lemma sub_valid (x y : float) :
  valid_float x = true -> valid_float y = true -> valid_float (x ⊖ y) = true.
Proof.
  intros Hx Hy. unfold sub.
  destruct x as [sx|sx| |sx mx ex], y as [sy|sy| |sy my ey]; cbn [SFsub];
    try reflexivity; try assumption;
    try (destruct sx, sy; reflexivity).
  apply binary_normalize_valid.
Qed.

Lemma Zdigits2_mul (a b : positive) :
  Zpos (digits2_pos a) + Zpos (digits2_pos b) - 1 <= Zdigits2 (Zpos (a * b)).
Proof.
  pose proof (digits2_pos_bounds a) as [Ha _].
  pose proof (digits2_pos_bounds b) as [Hb _].
  pose proof (Zdigits2_bounds (Zpos (a * b)) ltac:(lia)) as [_ Hhi].
  set (da := Zpos (digits2_pos a)) in *. set (db := Zpos (digits2_pos b)) in *.
  assert (0 < da /\ 0 < db) as [Hda Hdb] by (subst da db; lia).
  destruct (Z.le_gt_cases (da + db - 1) (Zdigits2 (Zpos (a * b)))) as [|Hgt];
    [assumption|exfalso].
  assert (2 ^ Zdigits2 (Zpos (a * b)) <= 2 ^ (da + db - 2))
    by (apply Z.pow_le_mono_r; lia).
  replace (da + db - 2) with ((da - 1) + (db - 1)) in H by lia.
  rewrite Z.pow_add_r in H by lia.
  pose proof (pow2_pos (da - 1) ltac:(lia)). pose proof (pow2_pos (db - 1) ltac:(lia)).
  set (D := Zdigits2 (Zpos (a * b))) in *.
  rewrite Pos2Z.inj_mul in Hhi. nia.
Qed.

Lemma mul_valid (x y : float) :
  valid_float x = true -> valid_float y = true -> valid_float (x ⊗ y) = true.
Proof.
  intros Hx Hy. unfold mul.
  destruct x as [sx|sx| |sx mx ex], y as [sy|sy| |sy my ey]; cbn [SFmul];
    try reflexivity.
  cbn [valid_float valid_binary] in Hx, Hy.
  destruct (bounded_inv _ _ Hx) as (Hfx & Hex & Hdx & Hnx).
  destruct (bounded_inv _ _ Hy) as (Hfy & Hey & Hdy & Hny).
  apply binary_round_aux_valid; [lia|].
  pose proof (Zdigits2_mul mx my) as Hd.
  rewrite fexp64_eq in *. unfold emin in *. lia.
Qed.

Lemma div_core_canonical (mx my : positive) (ex ey : Z) :
  let r := SFdiv_core_binary prec emax (Zpos mx) ex (Zpos my) ey in
  0 <= r.1.1 /\ r.1.2 <= fexp64 (Zdigits2 r.1.1 + r.1.2).
Proof.
  unfold SFdiv_core_binary. cbn [Zdigits2].
  set (d1 := Zpos (digits2_pos mx)). set (d2 := Zpos (digits2_pos my)).
  fold (fexp64 (d1 + ex - (d2 + ey))).
  set (e' := Z.min (fexp64 (d1 + ex - (d2 + ey))) (ex - ey)).
  set (s := ex - ey - e').
  assert (Hs : 0 <= s) by (subst s e'; lia).
  set (m' := match s with 0 => Zpos mx | Zpos _ => Z.shiftl (Zpos mx) s | Zneg _ => 0 end).
  assert (Hm' : m' = Zpos mx * 2 ^ s).
  { subst m'. destruct s as [|p|p]; [lia | | lia].
    apply Z.shiftl_mul_pow2. lia. }
  pose proof (pow2_pos s Hs) as Hps.
  assert (Hq : fst (Z.div_eucl m' (Zpos my)) = m' / Zpos my) by reflexivity.
  destruct (Z.div_eucl m' (Zpos my)) as [q r]. cbn [fst snd] in *. subst q.
  cbv zeta. cbn [fst snd]. split; [apply Z.div_pos; lia|].
  rewrite fexp64_eq.
  destruct (Z.le_gt_cases e' (-1074)) as [Hle | Hgt]; [lia|].
  assert (He' : e' <= d1 + ex - (d2 + ey) - 53).
  { subst e'. rewrite fexp64_eq in *. lia. }
  assert (Hsd : 53 + d2 - d1 <= s) by (subst s; lia).
  pose proof (digits2_pos_bounds mx) as [Hlo1 _]. fold d1 in Hlo1.
  pose proof (digits2_pos_bounds my) as [_ Hhi2]. fold d2 in Hhi2.
  assert (Hd1 : 0 < d1) by (subst d1; lia).
  assert (Hd2 : 0 < d2) by (subst d2; lia).
  assert (H52 : 2 ^ 52 <= m' / Zpos my).
  { apply Z.div_le_lower_bound; [lia|]. rewrite Hm'.
    assert (2 ^ (52 + d2) <= 2 ^ (d1 - 1 + s)) by (apply Z.pow_le_mono_r; lia).
    rewrite !Z.pow_add_r in H by lia.
    pose proof (pow2_pos (d1 - 1) ltac:(lia)). nia. }
  assert (53 <= Zdigits2 (m' / Zpos my)).
  { change 53 with (Zdigits2 (2 ^ 52)). apply Zdigits2_mono. lia. }
  lia.
Qed.

Lemma div_valid (x y : float) :
  valid_float x = true -> valid_float y = true -> valid_float (x ⊘ y) = true.
Proof.
  intros Hx Hy. unfold div.
  destruct x as [sx|sx| |sx mx ex], y as [sy|sy| |sy my ey]; cbn [SFdiv];
    try reflexivity.
  pose proof (div_core_canonical mx my ex ey) as Hc. cbv zeta in Hc.
  destruct (SFdiv_core_binary prec emax (Zpos mx) ex (Zpos my) ey) as [[q e'] l].
  cbn [fst snd] in Hc. apply binary_round_aux_valid; apply Hc.
Qed.

Lemma calculate_lahiri_ayanamsa_valid (jd : float) :
  valid_float jd = true -> valid_float (calculate_lahiri_ayanamsa jd) = true.
Proof.
  intros Hjd. unfold calculate_lahiri_ayanamsa.
  assert (Ht : valid_float ((jd ⊖ lit 2451545.0) ⊘ lit 36525) = true).
  { apply div_valid; [apply sub_valid; [assumption|]|]; vm_compute; reflexivity. }
  cbv zeta. set (t := (jd ⊖ lit 2451545.0) ⊘ lit 36525) in *.
  apply sub_valid.
  - apply add_valid; [vm_compute; reflexivity|].
    apply div_valid; [|vm_compute; reflexivity].
    apply mul_valid; [vm_compute; reflexivity | exact Ht].
  - apply mul_valid; [|exact Ht].
    apply mul_valid; [vm_compute; reflexivity | exact Ht].
Qed.

(** *** Signed values: the operations on valid finite floats *)

Lemma real_float_inv (x : float) :
  real_float x = true ->
  (exists s, x = S754_zero s) \/
  (exists s m e, x = S754_finite s m e /\ bounded prec emax m e = true).
Proof.
  unfold real_float. destruct x as [s|s| |s m e]; cbn; try discriminate.
  - intros _. left. exists s. reflexivity.
  - rewrite andb_true_r. intros Hb. right. exists s, m, e. split; [reflexivity | exact Hb].
Qed.

Lemma real_float_finite (s : bool) (m : positive) (e : Z) :
  bounded prec emax m e = true -> real_float (S754_finite s m e) = true.
Proof. intros Hb. unfold real_float. cbn. rewrite Hb. reflexivity. Qed.

Lemma bounded_representable (m : positive) (e : Z) :
  bounded prec emax m e = true -> representable (Zpos m * 2 ^ (e - emin)).
Proof.
  intros Hb. destruct (bounded_inv _ _ Hb) as (_ & He & Hd & _).
  exists (Zpos m), (e - emin). split; [reflexivity|]. split; [|lia].
  split; [lia|]. pose proof (digits2_pos_bounds m) as [_ Hhi].
  assert (2 ^ Zpos (digits2_pos m) <= 2 ^ 53) by (apply Z.pow_le_mono_r; lia). lia.
Qed.

Lemma rnd_ticks (x : float) : real_float x = true -> rnd (ticks x) = ticks x.
Proof.
  intros Hx. destruct (real_float_inv x Hx) as [[s ->] | (s & m & e & -> & Hb)].
  - reflexivity.
  - apply rnd_repr. rewrite ticks_finite.
    destruct (bounded_inv _ _ Hb) as (_ & He & _ & _).
    pose proof (pow2_pos (e - emin) ltac:(lia)) as Hp.
    replace (Z.abs (cond_Zopp s (Zpos m) * 2 ^ (e - emin)))
      with (Zpos m * 2 ^ (e - emin)) by (destruct s; cbn [cond_Zopp]; lia).
    apply bounded_representable, Hb.
Qed.

Lemma ticks_bound (x : float) : real_float x = true -> Z.abs (ticks x) < 2 ^ 2098.
Proof.
  intros Hx. destruct (real_float_inv x Hx) as [[s ->] | (s & m & e & -> & Hb)].
  - reflexivity.
  - rewrite ticks_finite. destruct (bounded_inv _ _ Hb) as (_ & He & Hd & _).
    pose proof (pow2_pos (e - emin) ltac:(lia)) as Hp.
    replace (Z.abs (cond_Zopp s (Zpos m) * 2 ^ (e - emin)))
      with (Zpos m * 2 ^ (e - emin)) by (destruct s; cbn [cond_Zopp]; lia).
    pose proof (digits2_pos_bounds m) as [_ Hhi].
    assert (H53 : 2 ^ Zpos (digits2_pos m) <= 2 ^ 53)
      by (apply Z.pow_le_mono_r; lia).
    assert (H2045 : 2 ^ (e - emin) <= 2 ^ 2045)
      by (apply Z.pow_le_mono_r; unfold emin in *; lia).
    change (2 ^ 2098) with (2 ^ 53 * 2 ^ 2045).
    apply Z.lt_le_trans with (2 ^ 53 * 2 ^ (e - emin)).
    + apply Z.mul_lt_mono_pos_r; [exact Hp|].
      exact (Z.lt_le_trans _ _ _ Hhi H53).
    + apply Z.mul_le_mono_nonneg_l; [discriminate | exact H2045].
Qed.

(** The float nearest to a count of units. *)
Lemma of_ticks_spec (n : Z) :
  Z.abs n < 2 ^ 2097 ->
  real_float (of_ticks n) = true /\ ticks (of_ticks n) = rnd n.
Proof.
  intros Hn. destruct (Z.lt_trichotomy n 0) as [Hneg | [-> | Hpos]].
  - unfold of_ticks.
    destruct (n =? 0) eqn:H0; [apply Z.eqb_eq in H0; clear -H0 Hneg; lia|].
    destruct (n <? 0) eqn:Hlt; [|apply Z.ltb_ge in Hlt; clear -Hlt Hneg; lia].
    assert (Hapos : 0 < Z.abs n) by (clear -Hneg; lia).
    destruct (round_to_float_spec true (Z.abs n) (conj Hapos Hn))
      as (m & e & Hr & Hb & Ht).
    clear Hn.
    rewrite Hr. split; [apply real_float_finite, Hb|].
    rewrite ticks_finite, rnd_neg by assumption. cbn [cond_Zopp].
    rewrite Z.abs_neq in Ht by lia. lia.
  - split; reflexivity.
  - rewrite (Z.abs_eq n (Z.lt_le_incl _ _ Hpos)) in Hn.
    destruct (of_ticks_pos n (conj Hpos Hn)) as (m & e & Hr & Hb & Ht).
    rewrite Ht, rnd_pos by assumption. rewrite Hr.
    split; [apply real_float_finite, Hb | reflexivity].
Qed.

Lemma sub_spec (x y : float) :
  real_float x = true -> real_float y = true -> Z.abs (ticks x - ticks y) < 2 ^ 2097 ->
  real_float (x ⊖ y) = true /\ ticks (x ⊖ y) = rnd (ticks x - ticks y).
Proof.
  intros Hx Hy Hn.
  destruct (real_float_inv x Hx) as [[sx ->] | (sx & mx & ex & -> & Hbx)];
    destruct (real_float_inv y Hy) as [[sy ->] | (sy & my & ey & -> & Hby)].
  - destruct sx, sy; split; reflexivity.
  - unfold sub. cbn [SFsub]. split; [apply real_float_finite, Hby|].
    pose proof (rnd_ticks (S754_finite (negb sy) my ey) (real_float_finite _ _ _ Hby)) as Hr.
    replace (ticks (S754_zero sx) - ticks (S754_finite sy my ey))
      with (ticks (S754_finite (negb sy) my ey)); [symmetry; exact Hr|].
    rewrite !ticks_finite. cbn [ticks]. destruct sy; cbn [negb cond_Zopp]; lia.
  - unfold sub. cbn [SFsub]. split; [exact Hx|].
    cbn [ticks]. rewrite Z.sub_0_r. symmetry. apply (rnd_ticks _ Hx).
  - rewrite sub_finite by assumption. apply of_ticks_spec, Hn.
Qed.

Lemma add_spec (x y : float) :
  real_float x = true -> real_float y = true -> Z.abs (ticks x + ticks y) < 2 ^ 2097 ->
  real_float (x ⊕ y) = true /\ ticks (x ⊕ y) = rnd (ticks x + ticks y).
Proof.
  intros Hx Hy Hn.
  destruct (real_float_inv x Hx) as [[sx ->] | (sx & mx & ex & -> & Hbx)];
    destruct (real_float_inv y Hy) as [[sy ->] | (sy & my & ey & -> & Hby)].
  - destruct sx, sy; split; reflexivity.
  - unfold add. cbn [SFadd]. split; [exact Hy|].
    cbn [ticks]. rewrite Z.add_0_l. symmetry. apply (rnd_ticks _ Hy).
  - unfold add. cbn [SFadd]. split; [exact Hx|].
    cbn [ticks]. rewrite Z.add_0_r. symmetry. apply (rnd_ticks _ Hx).
  - rewrite add_finite by assumption. apply of_ticks_spec, Hn.
Qed.

Lemma pos_finite_real (y : float) : pos_finite y = true -> real_float y = true.
Proof.
  intros Hy. destruct (pos_finite_inv y Hy) as (m & e & -> & Hb).
  apply real_float_finite, Hb.
Qed.

(** [fmod] leaves a value smaller than the divisor unchanged. *)
Lemma fmod_small (x y : float) :
  real_float x = true -> pos_finite y = true -> Z.abs (ticks x) < ticks y ->
  fmod x y = x.
Proof.
  intros Hx Hy Hlt.
  destruct (pos_finite_inv y Hy) as (my & ey & -> & Hby).
  destruct (real_float_inv x Hx) as [[sx ->] | (sx & mx & ex & -> & Hbx)];
    [reflexivity|].
  destruct (bounded_inv _ _ Hbx) as (_ & Hex & _ & _).
  destruct (bounded_inv _ _ Hby) as (_ & Hey & _ & _).
  cbn [fmod]. set (e := Z.min ex ey).
  pose proof (pow2_pos (ex - e) ltac:(lia)) as Hpx.
  pose proof (pow2_pos (ey - e) ltac:(lia)) as Hpy.
  pose proof (pow2_pos (e - emin) ltac:(lia)) as Hpe.
  rewrite !ticks_finite in Hlt. cbn [cond_Zopp] in Hlt.
  rewrite (pow2_split (ex - emin) (e - emin)) in Hlt by lia.
  rewrite (pow2_split (ey - emin) (e - emin)) in Hlt by lia.
  replace (ex - emin - (e - emin)) with (ex - e) in Hlt by lia.
  replace (ey - emin - (e - emin)) with (ey - e) in Hlt by lia.
  assert (Hsm : Zpos mx * 2 ^ (ex - e) < Zpos my * 2 ^ (ey - e)).
  { destruct sx; cbn [cond_Zopp] in Hlt; nia. }
  rewrite Z.rem_small by lia.
  assert (Hbn : binary_normalize prec emax
                  (cond_Zopp sx (Zpos mx * 2 ^ (ex - e))) e sx
                = binary_round prec emax sx mx ex).
  { destruct (Zpos mx * 2 ^ (ex - e)) as [|q|q] eqn:Hq; [lia | | lia].
    assert (Hqe : binary_round prec emax sx q e = binary_round prec emax sx mx ex).
    { rewrite !binary_round_ticks by lia. f_equal. rewrite <- Hq.
      rewrite (pow2_split (ex - emin) (e - emin)) by lia.
      replace (ex - emin - (e - emin)) with (ex - e) by lia. lia. }
    destruct sx; cbn [cond_Zopp Z.opp binary_normalize]; exact Hqe. }
  rewrite Hbn. apply binary_round_canonical, Hbx.
Qed.

(** [x % y] for a positive [y] and [|x| < y]: a negative [x] is shifted by
    [y], with one rounding. *)
Lemma float_rem_nz_small (x y : float) :
  real_float x = true -> pos_finite y = true -> ticks y < 2 ^ 2096 ->
  Z.abs (ticks x) < ticks y ->
  real_float (x %% y) = true /\
  ticks (x %% y) = if ticks x <? 0 then rnd (ticks x + ticks y) else ticks x.
Proof.
  intros Hx Hy Hmax Hlt. pose proof (pos_finite_real y Hy) as Hfy.
  pose proof (pos_finite_ticks y Hy) as Hty.
  unfold float_rem_nz. rewrite (fmod_small x y Hx Hy Hlt).
  assert (Hvx : valid_float x = true /\ is_finite x = true)
    by (apply andb_true_iff; exact Hx).
  assert (Hvy : valid_float y = true /\ is_finite y = true)
    by (apply andb_true_iff; exact Hfy).
  destruct Hvx as [Hvx Hix]. destruct Hvy as [Hvy Hiy].
  rewrite (eqb_ticks x zero), (ltb_ticks y zero), (ltb_ticks x zero)
    by (try assumption; reflexivity).
  change (ticks zero) with 0.
  destruct (ticks x =? 0) eqn:H0; cbn [negb].
  - apply Z.eqb_eq in H0. rewrite H0. cbn [Z.ltb Z.compare].
    destruct (pos_finite_inv y Hy) as (my & ey & -> & _). split; reflexivity.
  - apply Z.eqb_neq in H0.
    destruct (ticks y <? 0) eqn:Hy0;
      [apply Z.ltb_lt in Hy0; clear -Hy0 Hty; lia|].
    cbn [xorb]. destruct (ticks x <? 0) eqn:Hx0.
    + apply add_spec; try assumption. apply Z.ltb_lt in Hx0.
      clear -Hmax Hlt Hx0 Hty. change (2 ^ 2097) with (2 * 2 ^ 2096).
      set (B := 2 ^ 2096) in *. clearbody B. lia.
    + split; [exact Hx | reflexivity].
Qed.

End Rounding.

(** ** Tzolkin *)

Section Tzolkin.

Local Open Scope Z_scope.

Lemma list_getitem_lookup {A} (l : list A) (i : Z) :
  0 <= i < Z.of_nat (length l) ->
  list_getitem l i = l !! Z.to_nat i.
Proof.
  intros Hi. unfold list_getitem.
  destruct (0 <=? i) eqn:H0; [|lia].
  destruct (i <? Z.of_nat (length l)) eqn:H1; [reflexivity|lia].
Qed.

Lemma list_getitem_is_Some {A} (l : list A) (i : Z) :
  0 <= i < Z.of_nat (length l) -> is_Some (list_getitem l i).
Proof.
  intros Hi. rewrite list_getitem_lookup by assumption.
  apply lookup_lt_is_Some. lia.
Qed.

(** Seconds and microseconds of a valid time of day never reach a day. *)
Lemma sub_days_epoch (d : datetime) :
  valid_datetime d = true -> sub_days d epoch = toordinal d - 693596.
Proof.
  unfold valid_datetime. rewrite !andb_true_iff, !Z.leb_le.
  intros Hv. unfold sub_days.
  change (toordinal epoch) with 693596. cbn [epoch dt_second dt_minute dt_hour dt_microsecond].
  assert (H : ((dt_second d + dt_minute d * 60 + dt_hour d * 3600
                - (0 + 0 * 60 + 0 * 3600)) * 1000000
               + (dt_microsecond d - 0)) / 86400000000 = 0).
  { apply Z.div_small. lia. }
  rewrite H. lia.
Qed.

(** The reading in terms of the cycle position [k = total_days mod 260]. *)
Lemma calculate_mayan_tzolkin_spec (d : datetime) :
  let k := (sub_days d epoch + 584283) mod 260 in
  exists info,
    mayan_day_signs !! Z.to_nat (k mod 20) = Some info /\
    calculate_mayan_tzolkin d =
      Some {| tz_kin := k + 1; tz_day_sign := info.1.1;
              tz_glyph := info.1.2; tz_meaning := info.2;
              tz_galactic_tone := k mod 13 + 1 |}.
Proof.
  intros k.
  assert (Hk : 0 <= k mod 20 < Z.of_nat (length mayan_day_signs)).
  { change (Z.of_nat (length mayan_day_signs)) with 20.
    apply Z.mod_pos_bound. lia. }
  destruct (list_getitem_is_Some mayan_day_signs (k mod 20) Hk) as [info Hinfo].
  exists info. split.
  - rewrite <- list_getitem_lookup; assumption.
  - unfold calculate_mayan_tzolkin. fold k. rewrite Hinfo. reflexivity.
Qed.

End Tzolkin.

(** C6. For every datetime the Tzolkin reading exists, its kin number is in
    [1,260], its galactic tone in [1,13] and its day sign is the entry of
    the 20-entry table at an index in [0,19]; and two valid civil dates
    whose ordinals are 260 days apart get the same reading. *)
Theorem tzolkin_ranges_and_period (d : datetime) :
  (exists r i,
     calculate_mayan_tzolkin d = Some r /\
     1 <= tz_kin r <= 260 /\
     1 <= tz_galactic_tone r <= 13 /\
     0 <= i <= 19 /\
     list_getitem mayan_day_signs i = Some (tz_sign_info r)) /\
  (forall d', valid_datetime d = true -> valid_datetime d' = true ->
     toordinal d' = toordinal d + 260 ->
     calculate_mayan_tzolkin d' = calculate_mayan_tzolkin d).
Proof.
  split.
  - destruct (calculate_mayan_tzolkin_spec d) as [info [Hinfo Hr]].
    cbv zeta in Hinfo, Hr.
    set (k := (sub_days d epoch + 584283) mod 260) in *.
    assert (Hk : 0 <= k < 260) by (apply Z.mod_pos_bound; lia).
    assert (Hi : 0 <= k mod 20 < 20) by (apply Z.mod_pos_bound; lia).
    assert (Ht : 0 <= k mod 13 < 13) by (apply Z.mod_pos_bound; lia).
    eexists; exists (k mod 20). split; [exact Hr|].
    cbn [tz_kin tz_galactic_tone tz_sign_info tz_day_sign tz_glyph tz_meaning].
    repeat split; try lia.
    rewrite list_getitem_lookup by (change (Z.of_nat (length mayan_day_signs)) with 20; lia).
    rewrite Hinfo. destruct info as [[? ?] ?]. reflexivity.
  - intros d' Hd Hd' Hord.
    unfold calculate_mayan_tzolkin.
    rewrite (sub_days_epoch d Hd), (sub_days_epoch d' Hd'), Hord.
    replace (toordinal d + 260 - 693596 + 584283)
      with (toordinal d - 693596 + 584283 + 1 * 260) by lia.
    rewrite Z.mod_add by lia. reflexivity.
Qed.

Lemma tzolkin_ranges_and_period_witness :
  calculate_mayan_tzolkin (civil_date 1994 10 25)
  = calculate_mayan_tzolkin (civil_date 1994 2 7).
Proof.
  apply (proj2 (tzolkin_ranges_and_period (civil_date 1994 2 7))
           (civil_date 1994 10 25)); reflexivity.
Defined.

(** A date before 1900: the day count is negative and the reading is still
    in range. *)
Example tzolkin_before_epoch :
  sub_days (civil_date 1850 3 9) epoch = -18195 /\
  calculate_mayan_tzolkin (civil_date 1850 3 9)
  = Some {| tz_kin := 69; tz_day_sign := "Muluc"; tz_glyph := "Water";
            tz_meaning := "Offering"; tz_galactic_tone := 4 |}.
Proof. split; reflexivity. Qed.

(** C7, as stated: on 1900-01-01 the reported kin number is 64, the day
    sign is entry 3 of the table and the tone is 12, so neither
    [kin mod 20 = daySignIndex] nor [(kin mod 13) + 1 = tone] holds for the
    kin number of the reading. *)
Lemma tzolkin_kin_number_inconsistent :
  exists r,
    calculate_mayan_tzolkin (civil_date 1900 1 1) = Some r /\
    tz_kin r = 64 /\
    list_getitem mayan_day_signs 3 = Some (tz_sign_info r) /\
    tz_galactic_tone r = 12 /\
    tz_kin r mod 20 <> 3 /\
    tz_kin r mod 13 + 1 <> tz_galactic_tone r /\
    ~ reading_consistent tz_kin r.
Proof.
  eexists. split; [reflexivity|].
  do 3 (split; [reflexivity|]).
  do 2 (split; [vm_compute; congruence|]).
  intros [H _]. vm_compute in H. discriminate H.
Qed.

(** C7, amended: for every datetime the reading exists and is consistent
    for the zero-based cycle position, the reported kin number minus one:
    the day sign is entry [(kin - 1) mod 20] of the table and the tone is
    [((kin - 1) mod 13) + 1]. *)
Theorem tzolkin_reading_consistent (d : datetime) :
  exists r,
    calculate_mayan_tzolkin d = Some r /\
    reading_consistent (fun r => tz_kin r - 1) r.
Proof.
  destruct (calculate_mayan_tzolkin_spec d) as [info [Hinfo Hr]].
  cbv zeta in Hinfo, Hr.
  set (k := (sub_days d epoch + 584283) mod 260) in *.
  eexists. split; [exact Hr|].
  unfold reading_consistent.
  cbn [tz_kin tz_galactic_tone tz_sign_info tz_day_sign tz_glyph tz_meaning].
  replace (k + 1 - 1) with k by lia.
  split; [|reflexivity].
  rewrite list_getitem_lookup.
  - rewrite Hinfo. destruct info as [[? ?] ?]. reflexivity.
  - change (Z.of_nat (length mayan_day_signs)) with 20.
    apply Z.mod_pos_bound. lia.
Qed.

(** ** Four Pillars *)

(** C2. The day pillar of 2000-01-15 is computed from the Julian Day of
    1999-01-15: the year decremented for the Chinese New Year is the one
    passed to [calculate_julian_day].  The code returns stem 3 and
    branch 1 (offset 13), the unadjusted date has stem 8 and branch 6
    (offset 18). *)
Theorem four_pillars_day_pillar_uses_adjusted_year :
  fp_day <$> calculate_four_pillars (civil_date 2000 1 15)
  = spec_day_pillar 1999 1 15 /\
  spec_day_pillar 1999 1 15 = Some (("Ding", "Yin Fire"), ("Chou", "Ox")) /\
  spec_day_pillar 2000 1 15 = Some (("Ren", "Yang Water"), ("Wu", "Horse")).
Proof. repeat split; vm_compute; reflexivity. Qed.

(** ** Julian Day and ayanamsa of 1994-02-07 20:00 *)

(** C9, as stated: the ayanamsa of that Julian Day is not within
    23.9 and 24.0 degrees. *)
Lemma ayanamsa_1994_outside_band :
  exists jd,
    calculate_julian_day 1994 2 7 20 0 = Some jd /\
    ~ (leb (lit 23.9) (calculate_lahiri_ayanamsa jd) = true /\
       leb (calculate_lahiri_ayanamsa jd) (lit 24.0) = true).
Proof.
  eexists. split; [vm_compute; reflexivity|].
  intros [H _]. vm_compute in H. discriminate H.
Qed.

(** C9, amended: the Julian Day of 1994-02-07 20:00 is the float nearest
    to the value of the standard formula, 2449391 + 1/3 (February counted
    as month 14 of 1993), and its ayanamsa lies between 23.849 and 23.850
    degrees. *)
Theorem julian_day_and_ayanamsa_1994 :
  (standard_julian_day 1994 2 7 20 0 == 7348174 # 3)%Q /\
  standard_julian_day 1994 2 7 20 0 = standard_julian_day 1993 14 7 20 0 /\
  calculate_julian_day 1994 2 7 20 0
  = Some (lit (standard_julian_day 1994 2 7 20 0)) /\
  exists jd,
    calculate_julian_day 1994 2 7 20 0 = Some jd /\
    ltb (lit 23.849) (calculate_lahiri_ayanamsa jd) = true /\
    ltb (calculate_lahiri_ayanamsa jd) (lit 23.850) = true.
Proof.
  split; [vm_compute; reflexivity|].
  split; [vm_compute; reflexivity|].
  split; [vm_compute; reflexivity|].
  eexists. split; [vm_compute; reflexivity|].
  split; vm_compute; reflexivity.
Qed.

(** ** Houses *)

Section Houses.

Lemma not_quadrant_eqb (house_system : string) :
  quadrant_system house_system ->
  String.eqb house_system "Whole Sign" = false /\
  String.eqb house_system "Equal" = false.
Proof.
  intros [H1 H2]. split; apply String.eqb_neq; assumption.
Qed.

(** The cusp table of the last branch, cusp by cusp: the two loops write
    houses 2 to 6 and 8 to 12, the keys ["4"] and ["10"] of the initial
    dict included. *)
Lemma house_cusps_quadrant (ascendant mc : float) (house_system : string) :
  quadrant_system house_system ->
  let cusp k := num_mod_int (num_add_int (Float ascendant) k) 360 in
  let opp v := num_mod_int (num_add_int v 180) 360 in
  house_cusps ascendant mc house_system =
    Some (list_to_map
            [("1", Float ascendant); ("2", cusp 30); ("3", cusp 60);
             ("4", cusp 90); ("5", cusp 120); ("6", cusp 150);
             ("7", cusp 180); ("8", opp (cusp 30)); ("9", opp (cusp 60));
             ("10", opp (cusp 90)); ("11", opp (cusp 120));
             ("12", opp (cusp 150))]).
Proof.
  intros Hq cusp opp.
  destruct (not_quadrant_eqb _ Hq) as [Hws Heq].
  unfold house_cusps. rewrite Hws, Heq. reflexivity.
Qed.

Lemma option_bind_Some {A B} (m : option A) (f : A -> option B) (b : B) :
  m ≫= f = Some b -> exists a, m = Some a /\ f a = Some b.
Proof. destruct m as [a|]; [eauto | discriminate]. Qed.

(** [calculate_houses] returns the table of [house_cusps] for the
    Ascendant it returns. *)
Lemma calculate_houses_cusps `{Libm} (jd latitude longitude : float)
  (house_system : string) (houses : gmap string num) (ascendant : float) :
  calculate_houses jd latitude longitude house_system
  = Some (houses, ascendant) ->
  exists mc, house_cusps ascendant mc house_system = Some houses.
Proof.
  unfold calculate_houses. intros Hc.
  do 6 (apply option_bind_Some in Hc; destruct Hc as [? [_ Hc]]).
  apply option_bind_Some in Hc. destruct Hc as [h [Hh Hc]].
  injection Hc as <- <-. eexists. exact Hh.
Qed.

Lemma house_cusps_equal (ascendant mc : float) :
  let cusp k := num_mod_int (num_add_int (Float ascendant) k) 360 in
  house_cusps ascendant mc "Equal" =
    Some (list_to_map
            [("1", cusp 0); ("2", cusp 30); ("3", cusp 60);
             ("4", cusp 90); ("5", cusp 120); ("6", cusp 150);
             ("7", cusp 180); ("8", cusp 210); ("9", cusp 240);
             ("10", cusp 270); ("11", cusp 300); ("12", cusp 330)]).
Proof. reflexivity. Qed.

Lemma calculate_houses_split `{Libm} (jd latitude longitude : float)
  (house_system : string) (houses : gmap string num) (ascendant : float) :
  calculate_houses jd latitude longitude house_system
  = Some (houses, ascendant) ->
  exists mc,
    house_cusps ascendant mc house_system = Some houses /\
    forall system,
      calculate_houses jd latitude longitude system
      = house_cusps ascendant mc system ≫= fun h => Some (h, ascendant).
Proof.
  unfold calculate_houses. intros Hc.
  repeat match type of Hc with
         | mbind _ ?m = Some _ =>
             destruct m eqn:?; cbn [mbind option_bind] in Hc;
             [|discriminate Hc]
         end.
  injection Hc as <- <-. eexists. split; [eassumption|].
  intros system. cbn [mbind option_bind].
  match goal with E : math_atan2 _ _ = Some _ |- _ => rewrite E end.
  reflexivity.
Qed.

End Houses.

(** C1. For a quadrant-family system, house 1 is the Ascendant, house 7 is
    (Ascendant + 180) mod 360 and house n+6 is (house n + 180) mod 360 for
    n in 2..6; but house 4 is (Ascendant + 90) mod 360 and house 10 is
    (house 4 + 180) mod 360: the loops over [range(2, 7)] and
    [range(8, 13)] overwrite the IC and the Midheaven of the initial
    dict, and no cusp depends on the Midheaven. *)
Theorem calculate_houses_quadrant `{Libm} (jd latitude longitude : float)
  (house_system : string) (houses : gmap string num) (ascendant : float) :
  quadrant_system house_system ->
  calculate_houses jd latitude longitude house_system
  = Some (houses, ascendant) ->
  houses !! "1" = Some (Float ascendant) /\
  houses !! "7" = Some (Float ((ascendant ⊕ of_Z 180) %% of_Z 360)) /\
  houses !! "4" = Some (Float ((ascendant ⊕ of_Z 90) %% of_Z 360)) /\
  houses !! "10"
  = Some (Float (((ascendant ⊕ of_Z 90) %% of_Z 360 ⊕ of_Z 180)
                 %% of_Z 360)) /\
  forall n, 2 <= n <= 6 ->
    exists v, houses !! str n = Some v /\
              houses !! str (n + 6)
              = Some (num_mod_int (num_add_int v 180) 360).
Proof.
  intros Hq Hc.
  destruct (calculate_houses_cusps _ _ _ _ _ _ Hc) as [mc Hh].
  rewrite (house_cusps_quadrant _ _ _ Hq) in Hh.
  injection Hh as <-.
  do 4 (split; [reflexivity|]).
  intros n Hn.
  assert (Hcases : n = 2 \/ n = 3 \/ n = 4 \/ n = 5 \/ n = 6) by lia.
  destruct Hcases as [-> | [-> | [-> | [-> | ->]]]];
    eexists; split; reflexivity.
Qed.

Lemma calculate_houses_quadrant_witness :
  exists houses,
    @calculate_houses libm_london (lit 2451545.0) (lit 51.5074)
      (lit (-0.1278)) "Placidus"
    = Some (houses, lit 24.024666326319252) /\
    houses !! "4"
    = Some (Float ((lit 24.024666326319252 ⊕ of_Z 90) %% of_Z 360)).
Proof.
  assert (Hq : quadrant_system "Placidus") by (split; discriminate).
  assert (Hc : exists houses,
             @calculate_houses libm_london (lit 2451545.0) (lit 51.5074)
               (lit (-0.1278)) "Placidus"
             = Some (houses, lit 24.024666326319252))
    by (eexists; vm_compute; reflexivity).
  destruct Hc as [houses Hc]. exists houses. split; [exact Hc|].
  exact (proj1 (proj2 (proj2
           (@calculate_houses_quadrant libm_london _ _ _ _ _ _ Hq Hc)))).
Defined.

(** London at J2000, with the values of the C library.  The Midheaven is
    280.33281837000004 and the IC 100.33281837000004, but house 4 is
    114.02466632631925 and house 10 is 294.0246663263192. *)
Example calculate_houses_london :
  let result :=
    @calculate_houses libm_london (lit 2451545.0) (lit 51.5074)
      (lit (-0.1278)) "Placidus" in
  ascendant_of result = Some (lit 24.024666326319252) /\
  (lit 280.46061837 ⊕ lit (-0.1278)) %% lit 360 = lit 280.33281837000004 /\
  (lit 280.33281837000004 ⊕ of_Z 180) %% of_Z 360
  = lit 100.33281837000004 /\
  cusp_of result "4" = Some (Float (lit 114.02466632631925)) /\
  cusp_of result "10" = Some (Float (lit 294.0246663263192)).
Proof. repeat split; vm_compute; reflexivity. Qed.

(** C10, as stated: for London at J2000 the Placidus cusps 9 to 12 differ
    from the Equal cusps in the last place. *)
Lemma quadrant_differs_from_equal_london :
  let placidus :=
    @calculate_houses libm_london (lit 2451545.0) (lit 51.5074)
      (lit (-0.1278)) "Placidus" in
  let equal :=
    @calculate_houses libm_london (lit 2451545.0) (lit 51.5074)
      (lit (-0.1278)) "Equal" in
  ascendant_of placidus = Some (lit 24.024666326319252) /\
  ascendant_of equal = Some (lit 24.024666326319252) /\
  cusp_of placidus "9" = Some (Float (lit 264.0246663263192)) /\
  cusp_of equal "9" = Some (Float (lit 264.0246663263193)) /\
  B64.eqb (lit 264.0246663263192) (lit 264.0246663263193) = false.
Proof. repeat split; vm_compute; reflexivity. Qed.

(** C10, amended: a quadrant-family system returns the Ascendant as cusp 1
    and the cusps 2 to 7 of the Equal variant,
    (Ascendant + 30 (n - 1)) mod 360; its cusps 8 to 12 are
    (cusp (n - 6) + 180) mod 360 of the Equal cusps 2 to 6. *)
Theorem quadrant_cusps_versus_equal `{Libm} (jd latitude longitude : float)
  (house_system : string) (houses : gmap string num) (ascendant : float) :
  quadrant_system house_system ->
  calculate_houses jd latitude longitude house_system
  = Some (houses, ascendant) ->
  exists equal,
    calculate_houses jd latitude longitude "Equal"
    = Some (equal, ascendant) /\
    houses !! "1" = Some (Float ascendant) /\
    (forall n, 2 <= n <= 7 ->
       houses !! str n = equal !! str n /\
       equal !! str n
       = Some (num_mod_int (num_add_int (Float ascendant) ((n - 1) * 30))
                 360)) /\
    (forall n, 8 <= n <= 12 ->
       exists v,
         equal !! str (n - 6) = Some v /\
         houses !! str n = Some (num_mod_int (num_add_int v 180) 360)).
Proof.
  intros Hq Hc.
  destruct (calculate_houses_split _ _ _ _ _ _ Hc) as (mc & Hh & Hsys).
  rewrite (house_cusps_quadrant _ _ _ Hq) in Hh. injection Hh as <-.
  eexists. split.
  { rewrite Hsys, house_cusps_equal. reflexivity. }
  split; [reflexivity|]. split.
  - intros n Hn.
    assert (Hcases : n = 2 \/ n = 3 \/ n = 4 \/ n = 5 \/ n = 6 \/ n = 7)
      by lia.
    destruct Hcases as [-> | [-> | [-> | [-> | [-> | ->]]]]];
      split; reflexivity.
  - intros n Hn.
    assert (Hcases : n = 8 \/ n = 9 \/ n = 10 \/ n = 11 \/ n = 12) by lia.
    destruct Hcases as [-> | [-> | [-> | [-> | ->]]]];
      eexists; split; reflexivity.
Qed.

Lemma quadrant_cusps_versus_equal_witness :
  exists houses equal,
    @calculate_houses libm_london (lit 2451545.0) (lit 51.5074)
      (lit (-0.1278)) "Koch"
    = Some (houses, lit 24.024666326319252) /\
    @calculate_houses libm_london (lit 2451545.0) (lit 51.5074)
      (lit (-0.1278)) "Equal"
    = Some (equal, lit 24.024666326319252) /\
    houses !! "1" = Some (Float (lit 24.024666326319252)).
Proof.
  assert (Hq : quadrant_system "Koch") by (split; discriminate).
  assert (Hc : exists houses,
             @calculate_houses libm_london (lit 2451545.0) (lit 51.5074)
               (lit (-0.1278)) "Koch"
             = Some (houses, lit 24.024666326319252))
    by (eexists; vm_compute; reflexivity).
  destruct Hc as [houses Hc].
  destruct (@quadrant_cusps_versus_equal libm_london _ _ _ _ _ _ Hq Hc)
    as (equal & He & H1 & _).
  exists houses, equal. split; [exact Hc|]. split; [exact He | exact H1].
Defined.


(** ** Sidereal longitudes *)

(** C3. A tropical longitude one unit in the last place below the ayanamsa
    is a legal longitude, in [0,360); its sidereal longitude is exactly
    360.0: the difference is a tiny negative number, [fmod] returns it
    unchanged, and adding 360 rounds to 360. *)
Theorem vedic_longitude_reaches_360 :
  let tropical : gmap string float := {["Sun" := lit 23.849999999999998]} in
  let jd := lit 2451545.0 in
  B64.leb zero (lit 23.849999999999998) = true /\
  B64.ltb (lit 23.849999999999998) (lit 360) = true /\
  (calculate_vedic_positions tropical jd).2 = lit 23.85 /\
  lit 23.849999999999998 ⊖ lit 23.85 = opp (lit 3.552713678800501e-15) /\
  (calculate_vedic_positions tropical jd).1 !! "Sun" = Some (lit 360) /\
  B64.ltb (lit 360) (lit 360) = false.
Proof. repeat split; vm_compute; reflexivity. Qed.

(** ** Nakshatra *)

Lemma lit_360 : lit 360 = S754_finite false 6333186975989760 (-44).
Proof. vm_compute. reflexivity. Qed.

Lemma valid_nonneg_cases (x : float) :
  valid_float x = true -> leb zero x = true -> ltb x (lit 360) = true ->
  is_zero x = true \/ (pos_finite x = true /\ ticks x < ticks (lit 360)).
Proof.
  intros Hv H0 H360.
  assert (Hlt : ticks x < ticks (lit 360) \/ is_finite x = false).
  { destruct (is_finite x) eqn:Hf; [left | right; reflexivity].
    rewrite ltb_ticks in H360
      by (try assumption; rewrite lit_360; reflexivity).
    apply Z.ltb_lt, H360. }
  rewrite lit_360 in H360. unfold zero in H0.
  destruct x as [s|s| |s m e].
  - left. reflexivity.
  - destruct s; cbn in H0, H360; discriminate.
  - cbn in H0. discriminate.
  - destruct s; [cbn in H0; discriminate|].
    right. split; [exact Hv|].
    destruct Hlt as [Hlt | Hf]; [exact Hlt | discriminate Hf].
Qed.

Lemma index_of_quot (q : Z) :
  0 <= q <= 26 ->
  int_of_float (floordiv_of_quot nakshatra_span q) = Some q.
Proof.
  intros Hq.
  assert (H : q = 0 \/ q = 1 \/ q = 2 \/ q = 3 \/ q = 4 \/ q = 5 \/ q = 6 \/
              q = 7 \/ q = 8 \/ q = 9 \/ q = 10 \/ q = 11 \/ q = 12 \/
              q = 13 \/ q = 14 \/ q = 15 \/ q = 16 \/ q = 17 \/ q = 18 \/
              q = 19 \/ q = 20 \/ q = 21 \/ q = 22 \/ q = 23 \/ q = 24 \/
              q = 25 \/ q = 26) by lia.
  repeat (destruct H as [-> | H]; [vm_compute; reflexivity|]).
  subst q. vm_compute. reflexivity.
Qed.

Lemma pada_of_quot (q : Z) :
  0 <= q <= 3 ->
  int_of_float (floordiv_of_quot nakshatra_quarter q) = Some q.
Proof.
  intros Hq.
  assert (H : q = 0 \/ q = 1 \/ q = 2 \/ q = 3) by lia.
  repeat (destruct H as [-> | H]; [vm_compute; reflexivity|]).
  subst q. vm_compute. reflexivity.
Qed.

Lemma nakshatra_constants :
  pos_finite nakshatra_span = true /\
  pos_finite nakshatra_quarter = true /\
  ticks nakshatra_span = 4 * ticks nakshatra_quarter /\
  ticks (lit 360) <= 27 * ticks nakshatra_span /\
  ticks (lit 360) < 2 ^ 2097.
Proof.
  repeat split; try (vm_compute; reflexivity).
  - vm_compute. discriminate.
Qed.






(** ** The sidereal round trip *)

(** *** Longitudes: values below [512], in units of [2^1073] *)

(** Rounding a value below [512] moves it by at most [2^-45]. *)
Lemma rnd_error_512 (n : Z) :
  Z.abs n < 1024 * 2 ^ 1073 ->
  17592186044416 * Z.abs (rnd n - n) <= 2 ^ 1073.
Proof.
  intros Hn. pose proof (rnd_error n 1083 Hn ltac:(lia)) as H.
  change (2 ^ (1083 - 53)) with (2 * 2 ^ 1029) in H.
  change (2 ^ 1073) with (17592186044416 * 2 ^ 1029). lia.
Qed.

Lemma sub_spec_512 (x y : float) :
  real_float x = true -> real_float y = true ->
  Z.abs (ticks x - ticks y) < 1024 * 2 ^ 1073 ->
  real_float (x ⊖ y) = true /\ ticks (x ⊖ y) = rnd (ticks x - ticks y).
Proof.
  intros Hx Hy Hn. apply sub_spec; try assumption.
  assert (1024 * 2 ^ 1073 < 2 ^ 2097) by reflexivity. lia.
Qed.

Lemma representable_scaled (a j : Z) :
  0 < a < 2 ^ 53 -> 0 <= j -> representable (a * 2 ^ j).
Proof. intros Ha Hj. exists a, j. auto. Qed.

(** [x % 360] for [|x| < 360]. *)
Lemma float_rem_360 (x : float) :
  real_float x = true -> Z.abs (ticks x) < 720 * 2 ^ 1073 ->
  real_float (x %% lit 360) = true /\
  ticks (x %% lit 360)
  = if ticks x <? 0 then rnd (ticks x + 720 * 2 ^ 1073) else ticks x.
Proof.
  intros Hx Hlt.
  assert (H360 : pos_finite (lit 360) = true) by (vm_compute; reflexivity).
  assert (T360 : ticks (lit 360) = 720 * 2 ^ 1073) by (vm_compute; reflexivity).
  rewrite <- T360 in *.
  apply float_rem_nz_small; try assumption.
  rewrite T360. reflexivity.
Qed.

Lemma roundtrip_ticks (p a : float) :
  real_float p = true -> real_float a = true ->
  0 <= ticks p <= 360 * 2 ^ 1074 ->
  2 ^ 1074 <= ticks a <= 359 * 2 ^ 1074 ->
  real_float ((p ⊖ (p ⊖ a) %% lit 360) %% lit 360) = true /\
  Z.abs (ticks ((p ⊖ (p ⊖ a) %% lit 360) %% lit 360) - ticks a) <= 2 ^ 1031.
Proof.
  intros Hp Ha Hrp Hra.
  pose proof rnd_error_512 as Herr. pose proof sub_spec_512 as Hsub.
  pose proof float_rem_360 as Hrem.
  assert (R718 : representable (718 * 2 ^ 1073))
    by (apply representable_scaled; lia).
  assert (R719 : representable (719 * 2 ^ 1073))
    by (apply representable_scaled; lia).
  assert (R720 : representable (720 * 2 ^ 1073))
    by (apply representable_scaled; lia).
  assert (HU : 2 ^ 1074 = 2 * 2 ^ 1073) by reflexivity.
  assert (H31 : 2 ^ 1073 = 4398046511104 * 2 ^ 1031) by reflexivity.
  assert (HE : 0 < 2 ^ 1031) by reflexivity.
  rewrite HU in Hrp, Hra. set (E := 2 ^ 1031) in *.
  assert (Hgoal : forall z, 17592186044416 * z <= 4 * 2 ^ 1073 -> z <= E) by lia.
  clear HU. set (V := 2 ^ 1073) in *.
  assert (HV : 0 < V) by lia. clear H31 HE. clearbody V E.
  destruct (Hsub p a Hp Ha ltac:(lia)) as [Hd1 Td1].
  set (d1 := p ⊖ a) in *.
  pose proof (Herr (ticks p - ticks a) ltac:(lia)) as He1.
  destruct (Z.lt_trichotomy (ticks p) (ticks a)) as [Hlt | [Heq | Hgt]].
  - (* the difference is negative: two wrap-arounds *)
    pose proof (rnd_bounds_neg (ticks p - ticks a) (718 * V) ltac:(lia) R718) as Hb1.
    rewrite <- Td1 in Hb1, He1.
    destruct (Hrem d1 Hd1 ltac:(lia)) as [Hs Ts].
    set (s := d1 %% lit 360) in *.
    destruct (ticks d1 <? 0) eqn:Hneg; [|apply Z.ltb_ge in Hneg; lia].
    pose proof (Herr (ticks d1 + 720 * V) ltac:(lia)) as He2.
    pose proof (rnd_bounds_pos (ticks d1 + 720 * V) (720 * V) ltac:(lia) R720) as Hb2.
    rewrite <- Ts in He2, Hb2.
    destruct (Hsub p s Hp Hs ltac:(lia)) as [Hd2 Td2].
    set (d2 := p ⊖ s) in *.
    pose proof (Herr (ticks p - ticks s) ltac:(lia)) as He3.
    pose proof (rnd_bounds_neg (ticks p - ticks s) (719 * V) ltac:(lia) R719) as Hb3.
    rewrite <- Td2 in He3, Hb3.
    destruct (Hrem d2 Hd2 ltac:(lia)) as [Hr Tr].
    destruct (ticks d2 <? 0) eqn:Hneg2; [|apply Z.ltb_ge in Hneg2; lia].
    pose proof (Herr (ticks d2 + 720 * V) ltac:(lia)) as He4.
    rewrite <- Tr in He4.
    split; [exact Hr | apply Hgoal; lia].
  - (* the longitude equals the ayanamsa *)
    rewrite Heq, Z.sub_diag in Td1. change (rnd 0) with 0 in Td1.
    destruct (Hrem d1 Hd1 ltac:(lia)) as [Hs Ts].
    set (s := d1 %% lit 360) in *.
    rewrite Td1 in Ts. cbn [Z.ltb Z.compare] in Ts.
    destruct (Hsub p s Hp Hs ltac:(lia)) as [Hd2 Td2].
    set (d2 := p ⊖ s) in *.
    rewrite Ts, Z.sub_0_r, (rnd_ticks p Hp) in Td2.
    destruct (Hrem d2 Hd2 ltac:(lia)) as [Hr Tr].
    destruct (ticks d2 <? 0) eqn:Hneg2; [apply Z.ltb_lt in Hneg2; lia|].
    split; [exact Hr | apply Hgoal; lia].
  - (* the difference is positive: no wrap-around *)
    pose proof (rnd_bounds_pos (ticks p - ticks a) (718 * V) ltac:(lia) R718) as Hb1.
    rewrite <- Td1 in Hb1, He1.
    destruct (Hrem d1 Hd1 ltac:(lia)) as [Hs Ts].
    set (s := d1 %% lit 360) in *.
    destruct (ticks d1 <? 0) eqn:Hneg; [apply Z.ltb_lt in Hneg; lia|].
    destruct (Hsub p s Hp Hs ltac:(lia)) as [Hd2 Td2].
    set (d2 := p ⊖ s) in *.
    pose proof (Herr (ticks p - ticks s) ltac:(lia)) as He3.
    pose proof (rnd_bounds_pos (ticks p - ticks s) (719 * V) ltac:(lia) R719) as Hb3.
    rewrite <- Td2 in He3, Hb3.
    destruct (Hrem d2 Hd2 ltac:(lia)) as [Hr Tr].
    destruct (ticks d2 <? 0) eqn:Hneg2; [apply Z.ltb_lt in Hneg2; lia|].
    split; [exact Hr | apply Hgoal; lia].
Qed.

Lemma unit_den : Zpos (2 ^ 1074) = 2 ^ 1074.
Proof. reflexivity. Qed.

Lemma value_ge (n : Z) (x : float) :
  (inject_Z n <= value x)%Q <-> n * 2 ^ 1074 <= ticks x.
Proof.
  unfold value, Qle, inject_Z. cbn [Qnum Qden]. rewrite unit_den. lia.
Qed.

Lemma value_le (n : Z) (x : float) :
  (value x <= inject_Z n)%Q <-> ticks x <= n * 2 ^ 1074.
Proof.
  unfold value, Qle, inject_Z. cbn [Qnum Qden]. rewrite unit_den. lia.
Qed.

Lemma value_close (x y : float) :
  Z.abs (ticks x - ticks y) <= 2 ^ 1031 ->
  (Qabs (value x - value y) <= 1 # 2 ^ 43)%Q.
Proof.
  intros H. unfold value, Qminus, Qplus, Qopp, Qabs, Qle. cbn [Qnum Qden].
  rewrite Pos2Z.inj_mul, unit_den.
  change (Zpos (2 ^ 43)) with (2 ^ 43).
  assert (HU : 2 ^ 1074 = 2 ^ 43 * 2 ^ 1031) by reflexivity.
  assert (HE : 0 < 2 ^ 1031) by reflexivity.
  set (U := 2 ^ 1074) in *. set (E := 2 ^ 1031) in *.
  assert (HU0 : 0 < U) by lia. clearbody U E.
  replace (ticks x * U + - ticks y * U) with ((ticks x - ticks y) * U) by lia.
  rewrite Z.abs_mul, (Z.abs_eq U) by lia. nia.
Qed.

Lemma positive_value_finite (x : float) :
  (1 <= value x)%Q -> is_finite x = true.
Proof.
  intros H. apply (value_ge 1) in H.
  destruct x; cbn [ticks] in H; try reflexivity;
    exfalso; revert H; vm_compute; intros H; apply H; reflexivity.
Qed.

(** C4, as stated: for a Sun at 100 degrees on the epoch J2000 the
    ayanamsa is 23.85, the sidereal longitude is 76.15 and the normalised
    difference is 23.849999999999994: Python's [==] is false. *)
Lemma vedic_roundtrip_not_exact :
  let tropical : gmap string float := {[ "Sun" := lit 100 ]} in
  let result := calculate_vedic_positions tropical (lit 2451545.0) in
  result.2 = lit 23.85 /\
  result.1 !! "Sun" = Some (lit 76.15) /\
  normalize (lit 100 ⊖ lit 76.15) = lit 23.849999999999994 /\
  eqb (normalize (lit 100 ⊖ lit 76.15)) result.2 = false.
Proof. repeat split; vm_compute; reflexivity. Qed.

(** C4, amended: for every tropical longitude in [[0, 360]] and every
    Julian Day whose ayanamsa lies in [[1, 359]], the normalised difference
    (tropical - sidereal) mod 360 is within [2^-43] degree of the ayanamsa
    returned by [calculate_vedic_positions]. *)
Theorem vedic_roundtrip_within_rounding (tropical : gmap string float)
  (jd : float) (body : string) (p : float) :
  valid_float jd = true ->
  tropical !! body = Some p ->
  valid_float p = true -> is_finite p = true ->
  (0 <= value p <= 360)%Q ->
  (1 <= value (calculate_lahiri_ayanamsa jd) <= 359)%Q ->
  let result := calculate_vedic_positions tropical jd in
  result.2 = calculate_lahiri_ayanamsa jd /\
  exists s,
    result.1 !! body = Some s /\
    (Qabs (value (normalize (p ⊖ s)) - value result.2) <= 1 # 2 ^ 43)%Q.
Proof.
  intros Hjd Hbody Hvp Hfp [Hp0 Hp360] [Ha1 Ha359]. cbv zeta.
  unfold calculate_vedic_positions. cbn [fst snd].
  set (a := calculate_lahiri_ayanamsa jd) in *.
  split; [reflexivity|].
  exists ((p ⊖ a) %% lit 360). split.
  - rewrite lookup_fmap, Hbody. reflexivity.
  - assert (Hrp : real_float p = true)
      by (unfold real_float; rewrite Hvp, Hfp; reflexivity).
    assert (Hra : real_float a = true).
    { unfold real_float. subst a.
      rewrite calculate_lahiri_ayanamsa_valid by assumption.
      apply positive_value_finite, Ha1. }
    apply (value_ge 0) in Hp0. apply (value_le 360) in Hp360.
    apply (value_ge 1) in Ha1. apply (value_le 359) in Ha359.
    apply value_close, roundtrip_ticks; try assumption; lia.
Qed.

Lemma vedic_roundtrip_within_rounding_witness :
  let tropical : gmap string float := {[ "Sun" := lit 100 ]} in
  let result := calculate_vedic_positions tropical (lit 2451545.0) in
  result.2 = calculate_lahiri_ayanamsa (lit 2451545.0) /\
  exists s,
    result.1 !! "Sun" = Some s /\
    (Qabs (value (normalize (lit 100 ⊖ s)) - value result.2) <= 1 # 2 ^ 43)%Q.
Proof.
  apply (vedic_roundtrip_within_rounding {[ "Sun" := lit 100 ]}
           (lit 2451545.0) "Sun" (lit 100)).
  - vm_compute; reflexivity.
  - vm_compute; reflexivity.
  - vm_compute; reflexivity.
  - vm_compute; reflexivity.
  - split; apply Qle_bool_iff; vm_compute; reflexivity.
  - split; apply Qle_bool_iff; vm_compute; reflexivity.
Defined.

(** ** House systems *)

Lemma house_cusps_whole_sign (ascendant mc : float) (asc_sign : Z) :
  int_of_float (ascendant ⫽ lit 30) = Some asc_sign ->
  let cusp n := Int ((asc_sign * 30 + (n - 1) * 30) mod 360) in
  house_cusps ascendant mc "Whole Sign" =
    Some (list_to_map
            [("1", cusp 1); ("2", cusp 2); ("3", cusp 3); ("4", cusp 4);
             ("5", cusp 5); ("6", cusp 6); ("7", cusp 7); ("8", cusp 8);
             ("9", cusp 9); ("10", cusp 10); ("11", cusp 11);
             ("12", cusp 12)]).
Proof.
  intros Hk cusp. unfold house_cusps. cbn [String.eqb Ascii.eqb Bool.eqb].
  rewrite Hk. reflexivity.
Qed.

Lemma calculate_houses_unfold `{Libm} (jd latitude longitude : float)
  (s1 s2 : string) :
  (forall ascendant mc,
     house_cusps ascendant mc s1 = house_cusps ascendant mc s2) ->
  calculate_houses jd latitude longitude s1
  = calculate_houses jd latitude longitude s2.
Proof.
  intros Heq. unfold calculate_houses.
  repeat match goal with
         | |- mbind _ ?m = mbind _ ?m =>
             destruct m; cbn [mbind option_bind]; [|reflexivity]
         end.
  rewrite Heq. reflexivity.
Qed.

(** Every house system other than "Whole Sign" and "Equal" runs the same
    branch: Placidus, Koch, Campanus, Regiomontanus and any other name give
    the same result. *)
Theorem quadrant_systems_agree `{Libm} (jd latitude longitude : float)
  (s1 s2 : string) :
  quadrant_system s1 -> quadrant_system s2 ->
  calculate_houses jd latitude longitude s1
  = calculate_houses jd latitude longitude s2.
Proof.
  intros H1 H2. apply calculate_houses_unfold. intros ascendant mc.
  exact (eq_trans (house_cusps_quadrant ascendant mc s1 H1)
           (eq_sym (house_cusps_quadrant ascendant mc s2 H2))).
Qed.

Lemma quadrant_systems_agree_witness :
  @calculate_houses libm_london (lit 2451545.0) (lit 51.5074) (lit (-0.1278))
    "Placidus"
  = @calculate_houses libm_london (lit 2451545.0) (lit 51.5074)
      (lit (-0.1278)) "Regiomontanus".
Proof.
  apply (@quadrant_systems_agree libm_london); split; discriminate.
Defined.

(** The dict of cusps has exactly the keys "1" to "12", whatever the house
    system. *)
Theorem calculate_houses_keys `{Libm} (jd latitude longitude : float)
  (house_system : string) (houses : gmap string num) (ascendant : float) :
  calculate_houses jd latitude longitude house_system
  = Some (houses, ascendant) ->
  dom houses
  = ({[ "1"; "2"; "3"; "4"; "5"; "6"; "7"; "8"; "9"; "10"; "11"; "12" ]}
     : gset string).
Proof.
  intros Hc. destruct (calculate_houses_cusps _ _ _ _ _ _ Hc) as [mc Hh].
  destruct (String.eqb house_system "Whole Sign") eqn:Hws.
  - apply String.eqb_eq in Hws. subst house_system.
    assert (Hk : exists k, int_of_float (ascendant ⫽ lit 30) = Some k).
    { unfold house_cusps in Hh. cbn [String.eqb Ascii.eqb Bool.eqb] in Hh.
      destruct (int_of_float (ascendant ⫽ lit 30)) as [k|]; [eauto|discriminate]. }
    destruct Hk as [k Hk]. rewrite (house_cusps_whole_sign _ _ _ Hk) in Hh.
    injection Hh as <-. vm_compute. reflexivity.
  - destruct (String.eqb house_system "Equal") eqn:Heq.
    + apply String.eqb_eq in Heq. subst house_system.
      rewrite house_cusps_equal in Hh. injection Hh as <-.
      vm_compute. reflexivity.
    + apply String.eqb_neq in Hws, Heq.
      rewrite (house_cusps_quadrant _ _ _ (conj Hws Heq)) in Hh.
      injection Hh as <-. vm_compute. reflexivity.
Qed.

Lemma calculate_houses_keys_witness :
  exists houses,
    @calculate_houses libm_london (lit 2451545.0) (lit 51.5074)
      (lit (-0.1278)) "Whole Sign"
    = Some (houses, lit 24.024666326319252) /\
    dom houses
    = ({[ "1"; "2"; "3"; "4"; "5"; "6"; "7"; "8"; "9"; "10"; "11"; "12" ]}
       : gset string).
Proof.
  assert (Hc : exists houses,
             @calculate_houses libm_london (lit 2451545.0) (lit 51.5074)
               (lit (-0.1278)) "Whole Sign"
             = Some (houses, lit 24.024666326319252))
    by (eexists; vm_compute; reflexivity).
  destruct Hc as [houses Hc]. exists houses. split; [exact Hc|].
  exact (@calculate_houses_keys libm_london _ _ _ _ _ _ Hc).
Defined.

Lemma value_lt (x : float) (n : Z) :
  (value x < inject_Z n)%Q <-> ticks x < n * 2 ^ 1074.
Proof.
  unfold value, Qlt, inject_Z. cbn [Qnum Qden]. rewrite unit_den. lia.
Qed.

Lemma sign_of_quot (q : Z) :
  0 <= q <= 11 -> int_of_float (floordiv_of_quot (lit 30) q) = Some q.
Proof.
  intros Hq.
  assert (H : q = 0 \/ q = 1 \/ q = 2 \/ q = 3 \/ q = 4 \/ q = 5 \/ q = 6 \/
              q = 7 \/ q = 8 \/ q = 9 \/ q = 10 \/ q = 11) by lia.
  repeat (destruct H as [-> | H]; [vm_compute; reflexivity|]).
  subst q. vm_compute. reflexivity.
Qed.

(** [int(x // 30)] for a longitude in [[0, 360)] is the integer part of
    [x / 30]. *)
Lemma sign_index (x : float) :
  valid_float x = true -> leb zero x = true -> ltb x (lit 360) = true ->
  int_of_float (x ⫽ lit 30) = Some (ticks x / (30 * 2 ^ 1074)) /\
  0 <= ticks x / (30 * 2 ^ 1074) <= 11.
Proof.
  intros Hv H0 H360.
  assert (H30 : pos_finite (lit 30) = true) by (vm_compute; reflexivity).
  assert (T30 : ticks (lit 30) = 30 * 2 ^ 1074) by (vm_compute; reflexivity).
  assert (T360 : ticks (lit 360) = 360 * 2 ^ 1074) by (vm_compute; reflexivity).
  assert (Hmax : 360 * 2 ^ 1074 < 2 ^ 2097) by reflexivity.
  assert (HU : 0 < 2 ^ 1074) by reflexivity.
  destruct (valid_nonneg_cases x Hv H0 H360) as [Hz | [Hp Hlt]].
  - destruct x as [s|s| |s m e]; try discriminate.
    destruct s; split; try (vm_compute; reflexivity);
      cbn [ticks]; rewrite Z.div_0_l by lia; lia.
  - pose proof (pos_finite_ticks x Hp) as Hx. rewrite T360 in Hlt.
    rewrite float_floor_div_pos, T30 by (try assumption; lia).
    assert (Hq : 0 <= ticks x / (30 * 2 ^ 1074) <= 11).
    { split; [apply Z.div_pos; lia|].
      assert (ticks x / (30 * 2 ^ 1074) < 12); [|lia].
      apply Z.div_lt_upper_bound; lia. }
    split; [apply sign_of_quot, Hq | exact Hq].
Qed.

(** In the Whole Sign system, for an Ascendant in [[0, 360)], house 1 is the
    start [30 k] of the sign that holds the Ascendant and house [n] is
    [30 ((k + n - 1) mod 12)]: the cusps are [int]s, multiples of 30 between
    0 and 330. *)
Theorem whole_sign_cusps `{Libm} (jd latitude longitude : float)
  (houses : gmap string num) (ascendant : float) :
  calculate_houses jd latitude longitude "Whole Sign"
  = Some (houses, ascendant) ->
  valid_float ascendant = true -> leb zero ascendant = true ->
  ltb ascendant (lit 360) = true ->
  exists k,
    0 <= k <= 11 /\
    (inject_Z (30 * k) <= value ascendant)%Q /\
    (value ascendant < inject_Z (30 * (k + 1)))%Q /\
    forall n, 1 <= n <= 12 ->
      houses !! str n = Some (Int (30 * ((k + n - 1) mod 12))).
Proof.
  intros Hc Hv H0 H360.
  destruct (calculate_houses_cusps _ _ _ _ _ _ Hc) as [mc Hh].
  destruct (sign_index ascendant Hv H0 H360) as [Hk Hkr].
  assert (HU : 0 < 2 ^ 1074) by reflexivity.
  assert (Hx : 0 <= ticks ascendant).
  { destruct (valid_nonneg_cases ascendant Hv H0 H360) as [Hz | [Hp _]].
    - destruct ascendant; discriminate.
    - pose proof (pos_finite_ticks _ Hp). lia. }
  pose proof (Z.div_mod (ticks ascendant) (30 * 2 ^ 1074) ltac:(lia)) as Hdm.
  pose proof (Z.mod_pos_bound (ticks ascendant) (30 * 2 ^ 1074) ltac:(lia)) as Hm.
  set (k := ticks ascendant / (30 * 2 ^ 1074)) in *.
  exists k. split; [exact Hkr|].
  split; [apply value_ge; lia|]. split; [apply value_lt; lia|].
  rewrite (house_cusps_whole_sign _ _ _ Hk) in Hh. injection Hh as <-.
  intros n Hn.
  assert (Hmod : forall j, 0 <= j ->
            (k * 30 + j * 30) mod 360 = 30 * ((k + j) mod 12)).
  { intros j Hj. replace (k * 30 + j * 30) with ((k + j) * 30) by lia.
    change 360 with (12 * 30). rewrite Z.mul_mod_distr_r by lia. lia. }
  assert (Hcases : n = 1 \/ n = 2 \/ n = 3 \/ n = 4 \/ n = 5 \/ n = 6 \/
                   n = 7 \/ n = 8 \/ n = 9 \/ n = 10 \/ n = 11 \/ n = 12)
    by lia.
  clearbody k.
  assert (Hcusp : forall j, 1 <= j <= 12 ->
            Some (Int ((k * 30 + (j - 1) * 30) mod 360))
            = Some (Int (30 * ((k + j - 1) mod 12)))).
  { intros j Hj. rewrite Hmod by lia. do 4 f_equal. lia. }
  rewrite <- (Hcusp n Hn).
  repeat (destruct Hcases as [-> | Hcases]; [reflexivity|]).
  subst n. reflexivity.
Qed.

Lemma whole_sign_cusps_witness :
  exists houses k,
    @calculate_houses libm_london (lit 2451545.0) (lit 51.5074)
      (lit (-0.1278)) "Whole Sign"
    = Some (houses, lit 24.024666326319252) /\
    0 <= k <= 11 /\
    houses !! str 1 = Some (Int (30 * ((k + 1 - 1) mod 12))).
Proof.
  assert (Hc : exists houses,
             @calculate_houses libm_london (lit 2451545.0) (lit 51.5074)
               (lit (-0.1278)) "Whole Sign"
             = Some (houses, lit 24.024666326319252))
    by (eexists; vm_compute; reflexivity).
  destruct Hc as [houses Hc].
  destruct (@whole_sign_cusps libm_london _ _ _ _ _ Hc)
    as (k & Hk & _ & _ & Hn); try (vm_compute; reflexivity).
  exists houses, k. split; [exact Hc|]. split; [exact Hk|].
  apply Hn. lia.
Defined.

(** The Ascendant does not depend on the house system, and once one system
    returns, every system other than "Whole Sign" returns as well. *)
Theorem ascendant_independent_of_system `{Libm}
  (jd latitude longitude : float) (s1 : string) (houses : gmap string num)
  (ascendant : float) :
  calculate_houses jd latitude longitude s1 = Some (houses, ascendant) ->
  forall s2,
    (s2 <> "Whole Sign" ->
     exists h2,
       calculate_houses jd latitude longitude s2 = Some (h2, ascendant)) /\
    (forall h2 a2,
       calculate_houses jd latitude longitude s2 = Some (h2, a2) ->
       a2 = ascendant).
Proof.
  intros Hc s2. destruct (calculate_houses_split _ _ _ _ _ _ Hc) as (mc & _ & Hs).
  rewrite (Hs s2). split.
  - intros Hws. destruct (String.eqb s2 "Equal") eqn:Heq.
    + apply String.eqb_eq in Heq. subst s2. rewrite house_cusps_equal.
      eexists. reflexivity.
    + apply String.eqb_neq in Heq.
      rewrite (house_cusps_quadrant _ _ _ (conj Hws Heq)).
      eexists. reflexivity.
  - intros h2 a2 H2. destruct (house_cusps ascendant mc s2); [|discriminate].
    injection H2 as _ <-. reflexivity.
Qed.

Lemma ascendant_independent_of_system_witness :
  exists h2,
    @calculate_houses libm_london (lit 2451545.0) (lit 51.5074)
      (lit (-0.1278)) "Equal"
    = Some (h2, lit 24.024666326319252).
Proof.
  assert (Hc : exists houses,
             @calculate_houses libm_london (lit 2451545.0) (lit 51.5074)
               (lit (-0.1278)) "Whole Sign"
             = Some (houses, lit 24.024666326319252))
    by (eexists; vm_compute; reflexivity).
  destruct Hc as [houses Hc].
  apply (proj1 (@ascendant_independent_of_system libm_london _ _ _ _ _ _ Hc
                  "Equal")).
  discriminate.
Defined.

(** ** Tzolkin: dates and days *)

Lemma valid_datetime_date (d : datetime) :
  valid_datetime d = true ->
  valid_datetime (civil_date (dt_year d) (dt_month d) (dt_day d)) = true.
Proof.
  unfold valid_datetime, civil_date. cbn [dt_year dt_month dt_day dt_hour
    dt_minute dt_second dt_microsecond].
  rewrite !andb_true_iff. intros H. repeat split; try apply H; reflexivity.
Qed.

(** The reading depends on the calendar date only: the time of day is
    dropped by [(birth_datetime - epoch).days]. *)
Theorem tzolkin_depends_on_date_only (d : datetime) :
  valid_datetime d = true ->
  calculate_mayan_tzolkin d
  = calculate_mayan_tzolkin (civil_date (dt_year d) (dt_month d) (dt_day d)).
Proof.
  intros Hv. unfold calculate_mayan_tzolkin.
  rewrite (sub_days_epoch d Hv), (sub_days_epoch _ (valid_datetime_date d Hv)).
  reflexivity.
Qed.

Lemma tzolkin_depends_on_date_only_witness :
  calculate_mayan_tzolkin
    {| dt_year := 1994; dt_month := 2; dt_day := 7; dt_hour := 20;
       dt_minute := 15; dt_second := 30; dt_microsecond := 250000 |}
  = calculate_mayan_tzolkin (civil_date 1994 2 7).
Proof.
  apply (tzolkin_depends_on_date_only
           {| dt_year := 1994; dt_month := 2; dt_day := 7; dt_hour := 20;
              dt_minute := 15; dt_second := 30; dt_microsecond := 250000 |}).
  reflexivity.
Defined.

(** From one day to the next the kin number, the galactic tone and the day
    sign each advance by one step of their cycle: 260 is followed by 1,
    tone 13 by tone 1 and the twentieth sign by the first. *)
Theorem tzolkin_next_day (d d' : datetime) :
  valid_datetime d = true -> valid_datetime d' = true ->
  toordinal d' = toordinal d + 1 ->
  exists r r' i,
    calculate_mayan_tzolkin d = Some r /\
    calculate_mayan_tzolkin d' = Some r' /\
    tz_kin r' = tz_kin r mod 260 + 1 /\
    tz_galactic_tone r' = tz_galactic_tone r mod 13 + 1 /\
    0 <= i <= 19 /\
    list_getitem mayan_day_signs i = Some (tz_sign_info r) /\
    list_getitem mayan_day_signs ((i + 1) mod 20) = Some (tz_sign_info r').
Proof.
  intros Hv Hv' Hord.
  destruct (calculate_mayan_tzolkin_spec d) as (info & Hinfo & Hr).
  destruct (calculate_mayan_tzolkin_spec d') as (info' & Hinfo' & Hr').
  cbv zeta in *.
  rewrite (sub_days_epoch d Hv) in *. rewrite (sub_days_epoch d' Hv') in *.
  rewrite Hord in *.
  set (k := (toordinal d - 693596 + 584283) mod 260) in *.
  assert (Hk : 0 <= k < 260) by (subst k; apply Z.mod_pos_bound; lia).
  assert (Hk' : (toordinal d + 1 - 693596 + 584283) mod 260 = (k + 1) mod 260).
  { subst k. clear. Z.div_mod_to_equations. lia. }
  rewrite Hk' in *. clearbody k.
  eexists _, _, (k mod 20).
  split; [exact Hr|]. split; [exact Hr'|].
  cbn [tz_kin tz_galactic_tone]. unfold tz_sign_info.
  cbn [tz_day_sign tz_glyph tz_meaning].
  split; [clear -Hk; Z.div_mod_to_equations; lia|].
  split; [clear -Hk; Z.div_mod_to_equations; lia|].
  split; [clear -Hk; Z.div_mod_to_equations; lia|].
  assert (H20 : (k + 1) mod 260 mod 20 = (k mod 20 + 1) mod 20)
    by (clear -Hk; Z.div_mod_to_equations; lia).
  rewrite H20 in Hinfo'.
  assert (Hi : 0 <= k mod 20 < 20) by (apply Z.mod_pos_bound; lia).
  assert (Hi' : 0 <= (k mod 20 + 1) mod 20 < 20) by (apply Z.mod_pos_bound; lia).
  split.
  - rewrite list_getitem_lookup by exact Hi.
    rewrite Hinfo. destruct info as [[a b] c]. reflexivity.
  - rewrite list_getitem_lookup by exact Hi'.
    rewrite Hinfo'. destruct info' as [[a b] c]. reflexivity.
Qed.

Lemma tzolkin_next_day_witness :
  exists r r',
    calculate_mayan_tzolkin (civil_date 1999 12 31) = Some r /\
    calculate_mayan_tzolkin (civil_date 2000 1 1) = Some r' /\
    tz_kin r' = tz_kin r mod 260 + 1.
Proof.
  destruct (tzolkin_next_day (civil_date 1999 12 31) (civil_date 2000 1 1))
    as (r & r' & i & H1 & H2 & H3 & _); try reflexivity.
  exists r, r'. auto.
Defined.

Lemma mayan_day_sign_names_distinct (i j : nat) (a b : string * string * string) :
  mayan_day_signs !! i = Some a -> mayan_day_signs !! j = Some b ->
  a.1.1 = b.1.1 -> i = j.
Proof.
  intros Ha Hb Hab.
  assert (Hnd : NoDup ((fun x : string * string * string => x.1.1)
                         <$> mayan_day_signs)).
  { compute_done. }
  apply (NoDup_lookup _ i j (a.1.1) Hnd).
  - rewrite list_lookup_fmap, Ha. reflexivity.
  - rewrite list_lookup_fmap, Hb, Hab. reflexivity.
Qed.

(** The day sign and the galactic tone determine the whole reading: there
    is one kin number for each of the 260 pairs that occur. *)
Theorem tzolkin_sign_and_tone_determine_kin (d1 d2 : datetime)
  (r1 r2 : TzolkinReading) :
  calculate_mayan_tzolkin d1 = Some r1 ->
  calculate_mayan_tzolkin d2 = Some r2 ->
  tz_day_sign r1 = tz_day_sign r2 ->
  tz_galactic_tone r1 = tz_galactic_tone r2 ->
  r1 = r2.
Proof.
  intros H1 H2 Hs Ht.
  destruct (calculate_mayan_tzolkin_spec d1) as (info1 & Hi1 & Hr1).
  destruct (calculate_mayan_tzolkin_spec d2) as (info2 & Hi2 & Hr2).
  cbv zeta in *.
  set (k1 := (sub_days d1 epoch + 584283) mod 260) in *.
  set (k2 := (sub_days d2 epoch + 584283) mod 260) in *.
  assert (Hk1 : 0 <= k1 < 260) by (subst k1; apply Z.mod_pos_bound; lia).
  assert (Hk2 : 0 <= k2 < 260) by (subst k2; apply Z.mod_pos_bound; lia).
  clearbody k1 k2.
  rewrite Hr1 in H1. rewrite Hr2 in H2.
  injection H1 as <-. injection H2 as <-.
  cbn [tz_day_sign tz_galactic_tone] in Hs, Ht.
  pose proof (mayan_day_sign_names_distinct _ _ _ _ Hi1 Hi2 Hs) as Hidx.
  assert (H20 : k1 mod 20 = k2 mod 20).
  { apply Z2Nat.inj; [apply Z.mod_pos_bound; lia
                     | apply Z.mod_pos_bound; lia | exact Hidx]. }
  assert (k1 = k2) by (clear -Hk1 Hk2 H20 Ht; Z.div_mod_to_equations; lia).
  subst k2.
  rewrite Hi1 in Hi2. injection Hi2 as <-. reflexivity.
Qed.

Lemma tzolkin_sign_and_tone_determine_kin_witness :
  exists r1 r2,
    calculate_mayan_tzolkin (civil_date 1994 2 7) = Some r1 /\
    calculate_mayan_tzolkin (civil_date 1994 10 25) = Some r2 /\
    r1 = r2.
Proof.
  eexists _, _. split; [reflexivity|]. split; [reflexivity|].
  apply (tzolkin_sign_and_tone_determine_kin
           (civil_date 1994 2 7) (civil_date 1994 10 25)); reflexivity.
Defined.

(** ** The Julian Day at midnight *)

Section JulianDay.

Lemma all_from_nat (n : nat) (lo : Z) (f : Z -> bool) :
  all_from n lo f = true ->
  forall z, lo <= z < lo + Z.of_nat n -> f z = true.
Proof.
  revert lo. induction n as [|n IH]; intros lo Hall z Hz; [lia|].
  cbn [all_from] in Hall. apply andb_true_iff in Hall. destruct Hall as [H0 Hn].
  destruct (Z.eq_dec z lo) as [-> | Hne]; [exact H0|].
  apply (IH (lo + 1) Hn). lia.
Qed.

Lemma all_from_spec (len lo : Z) (f : Z -> bool) :
  all_from (Z.to_nat len) lo f = true ->
  forall z, lo <= z < lo + len -> f z = true.
Proof.
  intros Hall z Hz. apply (all_from_nat _ _ _ Hall). lia.
Qed.

(** The roundings of [calculate_julian_day] that depend on the year, on the
    century and on the month return the integer parts of the exact
    products and quotients. *)
Lemma year_roundings (y : Z) :
  -1 <= y <= 9999 ->
  int_true_divide y 100 ≫= math_floor = Some (y / 100) /\
  float_of_int (y + 4716) ≫= (fun fy => math_floor (lit 365.25 ⊗ fy))
  = Some (1461 * (y + 4716) / 4).
Proof.
  intros Hy.
  assert (Hall : all_from (Z.to_nat 10001) (-1) (fun y =>
            bool_decide (int_true_divide y 100 ≫= math_floor = Some (y / 100)) &&
            bool_decide
              (float_of_int (y + 4716)
                 ≫= (fun fy => math_floor (lit 365.25 ⊗ fy))
               = Some (1461 * (y + 4716) / 4))) = true)
    by (vm_compute; reflexivity).
  pose proof (all_from_spec _ _ _ Hall y ltac:(lia)) as H. cbv beta in H.
  apply andb_true_iff in H. destruct H as [H1 H2].
  split; [exact (bool_decide_eq_true_1 _ H1) | exact (bool_decide_eq_true_1 _ H2)].
Qed.

Lemma century_rounding (a : Z) :
  -1 <= a <= 99 -> int_true_divide a 4 ≫= math_floor = Some (a / 4).
Proof.
  intros Ha.
  assert (Hall : all_from (Z.to_nat 101) (-1) (fun a =>
            bool_decide (int_true_divide a 4 ≫= math_floor = Some (a / 4)))
          = true) by (vm_compute; reflexivity).
  pose proof (all_from_spec _ _ _ Hall a ltac:(lia)) as H.
  exact (bool_decide_eq_true_1 _ H).
Qed.

Lemma month_rounding (m : Z) :
  3 <= m <= 14 ->
  float_of_int (m + 1) ≫= (fun fm => math_floor (lit 30.6001 ⊗ fm))
  = Some (306001 * (m + 1) / 10000).
Proof.
  intros Hm.
  assert (Hall : all_from (Z.to_nat 12) 3 (fun m =>
            bool_decide
              (float_of_int (m + 1)
                 ≫= (fun fm => math_floor (lit 30.6001 ⊗ fm))
               = Some (306001 * (m + 1) / 10000))) = true)
    by (vm_compute; reflexivity).
  pose proof (all_from_spec _ _ _ Hall m ltac:(lia)) as H.
  exact (bool_decide_eq_true_1 _ H).
Qed.

(** The integer part of the formula is the proleptic Gregorian ordinal of
    [datetime], shifted by a constant: for every year, not only those of
    [datetime]. *)
Lemma formula_of_ordinal (y m d : Z) :
  1 <= m <= 12 ->
  let '(y', m') := if m <=? 2 then (y - 1, m + 12) else (y, m) in
  1461 * (y' + 4716) / 4 + 306001 * (m' + 1) / 10000 + d
  + (2 - y' / 100 + y' / 100 / 4)
  = toordinal (civil_date y m d) + 1722949.
Proof.
  intros Hm. unfold toordinal, civil_date, days_before_year, days_before_month.
  cbn [dt_year dt_month dt_day]. cbv zeta.
  assert (H1 : 1461 * (y - 1 + 4716) / 4 + (2 - (y - 1) / 100 + (y - 1) / 100 / 4)
               = (y - 1) * 365 + (y - 1) / 4 - (y - 1) / 100 + (y - 1) / 400
                 + 1722521).
  { rewrite (Z.div_div (y - 1) 100 4) by lia. change (100 * 4) with 400.
    Z.div_mod_to_equations. lia. }
  assert (H2 : 1461 * (y + 4716) / 4 + (2 - y / 100 + y / 100 / 4)
               = (y - 1) * 365 + (y - 1) / 4 - (y - 1) / 100 + (y - 1) / 400
                 + (if is_leap y then 1 else 0) + 1722886).
  { unfold is_leap. rewrite (Z.div_div y 100 4) by lia. change (100 * 4) with 400.
    destruct (y mod 4 =? 0) eqn:H4; destruct (y mod 100 =? 0) eqn:H100;
      destruct (y mod 400 =? 0) eqn:H400; cbn [andb orb negb];
      rewrite ?Z.eqb_eq, ?Z.eqb_neq in *; Z.div_mod_to_equations; lia. }
  set (leap := if is_leap y then 1 else 0) in *.
  destruct (m <=? 2) eqn:Hm2; [apply Z.leb_le in Hm2 | apply Z.leb_gt in Hm2].
  - replace (2 <? m) with false by (symmetry; apply Z.ltb_ge; lia).
    cbn [andb]. clearbody leap.
    assert (Hc : m = 1 \/ m = 2) by lia.
    destruct Hc as [-> | ->];
      set (c := 306001 * _ / 10000); vm_compute in c; subst c;
      set (t := nth _ _ 0); vm_compute in t; subst t; lia.
  - replace (2 <? m) with true by (symmetry; apply Z.ltb_lt; lia).
    cbn [andb]. fold leap. clearbody leap.
    assert (Hc : m = 3 \/ m = 4 \/ m = 5 \/ m = 6 \/ m = 7 \/ m = 8 \/
                 m = 9 \/ m = 10 \/ m = 11 \/ m = 12) by lia.
    repeat (destruct Hc as [-> | Hc];
            [set (c := 306001 * _ / 10000); vm_compute in c; subst c;
             set (t := nth _ _ 0); vm_compute in t; subst t; lia|]).
    subst m. set (c := 306001 * _ / 10000); vm_compute in c; subst c.
    set (t := nth _ _ 0); vm_compute in t; subst t. lia.
Qed.

Lemma bind_chain {A B C} (m : option A) (f : A -> option B)
  (g : B -> option C) (v : B) :
  m ≫= f = Some v -> m ≫= (fun q => f q ≫= g) = g v.
Proof.
  destruct m as [q|]; cbn [mbind option_bind]; [|discriminate].
  intros ->. reflexivity.
Qed.

(** An [int] below [2^53] converts to a float without rounding. *)
Lemma of_Z_exact (z : Z) :
  Z.abs z < 2 ^ 53 ->
  real_float (of_Z z) = true /\ ticks (of_Z z) = z * 2 ^ 1074.
Proof.
  intros Hz. unfold of_Z. rewrite binary_normalize_ticks by (unfold emin; lia).
  change (0 - emin) with 1074.
  assert (HU : 0 < 2 ^ 1074) by reflexivity.
  assert (Hmax : 2 ^ 53 * 2 ^ 1074 < 2 ^ 2097) by reflexivity.
  destruct (of_ticks_spec (z * 2 ^ 1074)) as [Hr Ht]; [nia|].
  split; [exact Hr|]. rewrite Ht.
  destruct (Z.eq_dec z 0) as [-> | Hne]; [reflexivity|].
  apply rnd_repr. rewrite Z.abs_mul, (Z.abs_eq (2 ^ 1074)) by lia.
  exists (Z.abs z), 1074. split; [reflexivity|]. lia.
Qed.

Lemma float_of_int_exact (z : Z) :
  Z.abs z < 2 ^ 53 -> float_of_int z = Some (of_Z z).
Proof.
  intros Hz. destruct (of_Z_exact z Hz) as [Hr _].
  unfold float_of_int. unfold real_float in Hr.
  apply andb_true_iff in Hr. destruct Hr as [_ ->]. reflexivity.
Qed.

Lemma julian_day_body (y m d : Z) :
  -1 <= y <= 9999 -> 3 <= m <= 14 -> 1 <= d <= 31 ->
  exists x,
    (q ← int_true_divide y 100;
     a ← math_floor q;
     q4 ← int_true_divide a 4;
     a4 ← math_floor q4;
     let b := 2 - a + a4 in
     fy ← float_of_int (y + 4716);
     d1 ← math_floor (lit 365.25 ⊗ fy);
     fm ← float_of_int (m + 1);
     d2 ← math_floor (lit 30.6001 ⊗ fm);
     s ← float_of_int (d1 + d2 + d + b);
     fh ← float_of_int 0;
     mq ← int_true_divide 0 60;
     Some (s ⊖ lit 1524.5 ⊕ (fh ⊕ mq) ⊘ lit 24)) = Some x /\
    real_float x = true /\
    ticks x
    = (2 * (1461 * (y + 4716) / 4 + 306001 * (m + 1) / 10000 + d
            + (2 - y / 100 + y / 100 / 4)) - 3049) * 2 ^ 1073.
Proof.
  intros Hy Hm Hd.
  destruct (year_roundings y Hy) as [Ha Hd1].
  assert (Ha4 : int_true_divide (y / 100) 4 ≫= math_floor = Some (y / 100 / 4)).
  { apply century_rounding. clear -Hy. Z.div_mod_to_equations. lia. }
  pose proof (month_rounding m Hm) as Hd2.
  set (I := 1461 * (y + 4716) / 4 + 306001 * (m + 1) / 10000 + d
            + (2 - y / 100 + y / 100 / 4)).
  assert (HI : 0 < I < 2 ^ 23).
  { subst I. clear -Hy Hm Hd. change (2 ^ 23) with 8388608.
    Z.div_mod_to_equations. lia. }
  assert (HI53 : Z.abs I < 2 ^ 53).
  { assert (2 ^ 23 < 2 ^ 53) by reflexivity. lia. }
  rewrite (bind_chain _ _ _ _ Ha), (bind_chain _ _ _ _ Ha4). cbv zeta.
  rewrite (bind_chain _ _ _ _ Hd1), (bind_chain _ _ _ _ Hd2).
  fold I. rewrite (float_of_int_exact I HI53). cbn [mbind option_bind].
  change (float_of_int 0) with (Some (S754_zero false)).
  change (int_true_divide 0 60) with (Some (S754_zero false)).
  cbn [mbind option_bind].
  change ((S754_zero false ⊕ S754_zero false) ⊘ lit 24) with (S754_zero false).
  destruct (of_Z_exact I HI53) as [Hr Ht].
  assert (H15 : real_float (lit 1524.5) = true) by (vm_compute; reflexivity).
  assert (T15 : ticks (lit 1524.5) = 3049 * 2 ^ 1073) by (vm_compute; reflexivity).
  assert (HU : 2 ^ 1074 = 2 * 2 ^ 1073) by reflexivity.
  assert (HV : 0 < 2 ^ 1073) by reflexivity.
  assert (Hmax : 2 ^ 25 * 2 ^ 1073 < 2 ^ 2097) by reflexivity.
  assert (H25 : 2 ^ 25 = 4 * 2 ^ 23) by reflexivity.
  assert (Hdiff : ticks (of_Z I) - ticks (lit 1524.5) = (2 * I - 3049) * 2 ^ 1073).
  { rewrite Ht, T15, HU. ring. }
  destruct (sub_spec (of_Z I) (lit 1524.5) Hr H15) as [Hs Ts].
  { rewrite Hdiff, Z.abs_mul, (Z.abs_eq (2 ^ 1073)) by lia. nia. }
  rewrite Hdiff in Ts.
  assert (Hexact : rnd ((2 * I - 3049) * 2 ^ 1073) = (2 * I - 3049) * 2 ^ 1073).
  { apply rnd_repr. rewrite Z.abs_mul, (Z.abs_eq (2 ^ 1073)) by lia.
    exists (Z.abs (2 * I - 3049)), 1073. split; [reflexivity|].
    assert (2 ^ 25 < 2 ^ 53) by reflexivity. lia. }
  rewrite Hexact in Ts.
  destruct (add_spec (of_Z I ⊖ lit 1524.5) (S754_zero false) Hs eq_refl) as [Hx Tx].
  { cbn [ticks]. rewrite Z.add_0_r, Ts, Z.abs_mul, (Z.abs_eq (2 ^ 1073)) by lia.
    nia. }
  cbn [ticks] in Tx. rewrite Z.add_0_r, Ts, Hexact in Tx.
  eexists. split; [reflexivity|]. split; [exact Hx | exact Tx].
Qed.

(** At midnight, [calculate_julian_day] returns exactly the ordinal of the
    date plus 1721424.5, for every month of the years 0 to 9999: no
    rounding error occurs. *)
Lemma julian_day_midnight (y m d : Z) :
  0 <= y <= 9999 -> 1 <= m <= 12 -> 1 <= d <= 31 ->
  exists x,
    calculate_julian_day y m d 0 0 = Some x /\
    real_float x = true /\
    ticks x = (2 * toordinal (civil_date y m d) + 3442849) * 2 ^ 1073.
Proof.
  intros Hy Hm Hd. pose proof (formula_of_ordinal y m d Hm) as Hord.
  unfold calculate_julian_day.
  destruct (m <=? 2) eqn:Hm2; [apply Z.leb_le in Hm2 | apply Z.leb_gt in Hm2].
  - destruct (julian_day_body (y - 1) (m + 12) d) as (x & Hx & Hr & Ht);
      try lia.
    exists x. split; [exact Hx|]. split; [exact Hr|].
    rewrite Ht, Hord. f_equal. lia.
  - destruct (julian_day_body y m d) as (x & Hx & Hr & Ht); try lia.
    exists x. split; [exact Hx|]. split; [exact Hr|].
    rewrite Ht, Hord. f_equal. lia.
Qed.

End JulianDay.

(** ** Four Pillars *)

Section FourPillars.

(** [int(x)] of a float that is not negative. *)
Lemma int_of_float_ticks (x : float) :
  real_float x = true -> 0 <= ticks x ->
  int_of_float x = Some (ticks x / 2 ^ 1074).
Proof.
  intros Hx H0. unfold int_of_float.
  destruct (real_float_inv x Hx) as [[s ->] | (s & m & e & -> & Hb)].
  - reflexivity.
  - cbn [is_finite trunc_Z]. f_equal.
    destruct (bounded_inv _ _ Hb) as (_ & He & _ & _).
    rewrite ticks_finite in *.
    assert (Hp : 0 < 2 ^ (e - emin)) by (apply pow2_pos; lia).
    destruct s; cbn [cond_Zopp] in *; [lia|].
    destruct (Z.le_gt_cases 0 e) as [Hpos | Hneg].
    + rewrite Z.shiftr_mul_pow2 by lia. rewrite Z.opp_involutive.
      replace (e - emin) with (e + 1074) by (unfold emin; lia).
      rewrite Z.pow_add_r, Z.mul_assoc by lia.
      rewrite Z.div_mul by (assert (0 < 2 ^ 1074) by reflexivity; lia).
      reflexivity.
    + rewrite Z.shiftr_div_pow2 by lia.
      assert (Hs : 2 ^ 1074 = 2 ^ (- e) * 2 ^ (e - emin)).
      { rewrite <- Z.pow_add_r by (unfold emin in *; lia).
        f_equal. unfold emin. lia. }
      rewrite Hs. symmetry. apply Z.div_mul_cancel_r; [|lia].
      assert (0 < 2 ^ (- e)) by (apply pow2_pos; lia). lia.
Qed.

Lemma valid_datetime_ranges (d : datetime) :
  valid_datetime d = true ->
  1 <= dt_year d <= 9999 /\ 1 <= dt_month d <= 12 /\ 1 <= dt_day d <= 31 /\
  0 <= dt_hour d <= 23.
Proof.
  unfold valid_datetime. rewrite !andb_true_iff, !Z.leb_le.
  intros H. decompose [and] H. clear H. repeat split; try lia.
  assert (Hdm : days_in_month (dt_year d) (dt_month d) <= 31); [|lia].
  unfold days_in_month.
  destruct ((dt_month d =? 2) && is_leap (dt_year d)); [lia|].
  assert (Hc : dt_month d = 1 \/ dt_month d = 2 \/ dt_month d = 3 \/
               dt_month d = 4 \/ dt_month d = 5 \/ dt_month d = 6 \/
               dt_month d = 7 \/ dt_month d = 8 \/ dt_month d = 9 \/
               dt_month d = 10 \/ dt_month d = 11 \/ dt_month d = 12) by lia.
  repeat (destruct Hc as [-> | Hc]; [vm_compute; discriminate|]).
  rewrite Hc. vm_compute. discriminate.
Qed.

(** The pillars in closed form: the year is the calendar year from March
    on and the year before in January and February, and the day pillar is
    read off the ordinal of the same month and day in that year. *)
Lemma calculate_four_pillars_spec (d : datetime) :
  valid_datetime d = true ->
  let y := pillar_year d in
  let o := (toordinal (civil_date y (dt_month d) (dt_day d)) + 1721424)
           mod 60 in
  let hb := ((dt_hour d + 1) / 2) mod 12 in
  exists py pm pd ph,
    pillar ((y - 4) mod 10) ((y - 4) mod 12) = Some py /\
    pillar (((y mod 5) * 2 + dt_month d) mod 10) ((dt_month d + 1) mod 12)
    = Some pm /\
    pillar (o mod 10) (o mod 12) = Some pd /\
    pillar ((o mod 10 * 2 + hb) mod 10) hb = Some ph /\
    calculate_four_pillars d
    = Some {| fp_year := py; fp_month := pm; fp_day := pd; fp_hour := ph |}.
Proof.
  intros Hv. destruct (valid_datetime_ranges d Hv) as (Hy & Hm & Hd & Hh).
  cbv zeta. unfold calculate_four_pillars. cbv zeta.
  assert (Hadj : (if (dt_month d =? 1)
                      || ((dt_month d =? 2) && (dt_day d <? 35))
                  then dt_year d - 1 else dt_year d) = pillar_year d).
  { unfold pillar_year.
    destruct (dt_month d =? 1) eqn:H1; destruct (dt_month d =? 2) eqn:H2;
      destruct (dt_day d <? 35) eqn:H35; destruct (dt_month d <=? 2) eqn:Hle;
      cbn [orb andb]; try reflexivity;
      rewrite ?Z.eqb_eq, ?Z.eqb_neq, ?Z.ltb_lt, ?Z.ltb_ge, ?Z.leb_le, ?Z.leb_gt in *;
      lia. }
  rewrite Hadj.
  assert (Hpy : 0 <= pillar_year d <= 9999)
    by (unfold pillar_year; destruct (dt_month d <=? 2); lia).
  set (y := pillar_year d) in *.
  destruct (julian_day_midnight y (dt_month d) (dt_day d) Hpy Hm Hd)
    as (x & Hx & Hr & Ht).
  rewrite Hx. cbn [mbind option_bind].
  set (T := toordinal (civil_date y (dt_month d) (dt_day d))) in *.
  assert (HT : 0 <= T + 1721424).
  { pose proof (formula_of_ordinal y (dt_month d) (dt_day d) Hm) as Hf.
    fold T in Hf. clear -Hf Hpy Hm Hd.
    destruct (dt_month d <=? 2) eqn:Hle;
      [apply Z.leb_le in Hle | apply Z.leb_gt in Hle];
      Z.div_mod_to_equations; lia. }
  assert (HV : 0 < 2 ^ 1073) by reflexivity.
  assert (HU : 2 ^ 1074 = 2 * 2 ^ 1073) by reflexivity.
  rewrite (int_of_float_ticks x Hr) by (rewrite Ht; nia).
  assert (Hq : ticks x / 2 ^ 1074 = T + 1721424).
  { rewrite Ht, HU. symmetry.
    apply Z.div_unique with (r := 2 ^ 1073); [lia | ring]. }
  rewrite Hq. cbn [mbind option_bind].
  set (o := (T + 1721424) mod 60).
  assert (Ho : 0 <= o < 60) by (subst o; apply Z.mod_pos_bound; lia).
  set (hb := ((dt_hour d + 1) / 2) mod 12).
  unfold pillar.
  assert (Hs : forall i, 0 <= i < 10 -> is_Some (list_getitem heavenly_stems i)).
  { intros i Hi. apply list_getitem_is_Some. exact Hi. }
  assert (Hb : forall i, 0 <= i < 12 -> is_Some (list_getitem earthly_branches i)).
  { intros i Hi. apply list_getitem_is_Some. exact Hi. }
  destruct (Hs ((y - 4) mod 10)) as [ys Hys]; [apply Z.mod_pos_bound; lia|].
  destruct (Hb ((y - 4) mod 12)) as [yb Hyb]; [apply Z.mod_pos_bound; lia|].
  destruct (Hs (((y mod 5) * 2 + dt_month d) mod 10)) as [ms Hms];
    [apply Z.mod_pos_bound; lia|].
  destruct (Hb ((dt_month d + 1) mod 12)) as [mb Hmb];
    [apply Z.mod_pos_bound; lia|].
  destruct (Hs (o mod 10)) as [ds Hds]; [apply Z.mod_pos_bound; lia|].
  destruct (Hb (o mod 12)) as [db Hdb]; [apply Z.mod_pos_bound; lia|].
  destruct (Hs ((o mod 10 * 2 + hb) mod 10)) as [hs Hhs];
    [apply Z.mod_pos_bound; lia|].
  destruct (Hb hb) as [hbr Hhb]; [subst hb; apply Z.mod_pos_bound; lia|].
  rewrite Hys, Hyb, Hms, Hmb, Hds, Hdb, Hhs, Hhb. cbn [mbind option_bind].
  eexists _, _, _, _. repeat split; reflexivity.
Qed.

End FourPillars.

(** At midnight [calculate_julian_day] is exact: it returns the ordinal of
    the date plus 1721424.5, for all months of the years 0 to 9999 (and it
    counts a day past the end of a month into the next month). *)
Theorem julian_day_at_midnight_is_exact (y m d : Z) :
  0 <= y <= 9999 -> 1 <= m <= 12 -> 1 <= d <= 31 ->
  exists x,
    calculate_julian_day y m d 0 0 = Some x /\
    is_finite x = true /\
    (value x == inject_Z (toordinal (civil_date y m d)) + (3442849 # 2))%Q.
Proof.
  intros Hy Hm Hd.
  destruct (julian_day_midnight y m d Hy Hm Hd) as (x & Hx & Hr & Ht).
  exists x. split; [exact Hx|]. split.
  - unfold real_float in Hr. apply andb_true_iff in Hr. apply Hr.
  - unfold value, Qeq, Qplus, inject_Z. cbn [Qnum Qden].
    rewrite Ht. change (Zpos (2 ^ 1074)) with (2 * 2 ^ 1073).
    change (Zpos (1 * 2)) with 2. ring.
Qed.

Lemma julian_day_at_midnight_is_exact_witness :
  exists x,
    calculate_julian_day 2000 1 1 0 0 = Some x /\
    is_finite x = true /\
    (value x == inject_Z (toordinal (civil_date 2000 1 1)) + (3442849 # 2))%Q.
Proof. apply (julian_day_at_midnight_is_exact 2000 1 1); lia. Defined.

(** [calculate_four_pillars] returns for every valid datetime, and its day
    pillar is read off an exact day count: the ordinal of the month and
    day in the pillar year plus 1721424, modulo 60. *)
Theorem four_pillars_day_pillar (d : datetime) :
  valid_datetime d = true ->
  exists r,
    calculate_four_pillars d = Some r /\
    let o := (toordinal (civil_date (pillar_year d) (dt_month d) (dt_day d))
              + 1721424) mod 60 in
    pillar (o mod 10) (o mod 12) = Some (fp_day r).
Proof.
  intros Hv.
  destruct (calculate_four_pillars_spec d Hv)
    as (py & pm & pd & ph & _ & _ & Hd & _ & Hr).
  eexists. split; [exact Hr|]. exact Hd.
Qed.

Lemma four_pillars_day_pillar_witness :
  exists r,
    calculate_four_pillars (civil_date 2000 1 15) = Some r /\
    pillar 3 1 = Some (fp_day r).
Proof.
  destruct (four_pillars_day_pillar (civil_date 2000 1 15)) as (r & Hr & Hd);
    [reflexivity|].
  exists r. split; [exact Hr | exact Hd].
Defined.

(** The year pillar is that of the calendar year from March on and that of
    the year before on every day of January and February; it repeats
    every 60 years. *)
Theorem four_pillars_year_pillar (d : datetime) :
  valid_datetime d = true ->
  exists r,
    calculate_four_pillars d = Some r /\
    pillar ((pillar_year d - 4) mod 10) ((pillar_year d - 4) mod 12)
    = Some (fp_year r) /\
    forall d',
      valid_datetime d' = true ->
      (pillar_year d' - pillar_year d) mod 60 = 0 ->
      fp_year <$> calculate_four_pillars d' = Some (fp_year r).
Proof.
  intros Hv.
  destruct (calculate_four_pillars_spec d Hv)
    as (py & pm & pd & ph & Hy & _ & _ & _ & Hr).
  eexists. split; [exact Hr|]. split; [exact Hy|].
  intros d' Hv' H60.
  destruct (calculate_four_pillars_spec d' Hv')
    as (py' & pm' & pd' & ph' & Hy' & _ & _ & _ & Hr').
  rewrite Hr'. cbn [fmap option_fmap option_map fp_year]. f_equal.
  cbv zeta in Hy, Hy'.
  assert (H10 : (pillar_year d' - 4) mod 10 = (pillar_year d - 4) mod 10)
    by (clear -H60; Z.div_mod_to_equations; lia).
  assert (H12 : (pillar_year d' - 4) mod 12 = (pillar_year d - 4) mod 12)
    by (clear -H60; Z.div_mod_to_equations; lia).
  rewrite H10, H12, Hy in Hy'. injection Hy' as <-. reflexivity.
Qed.

Lemma four_pillars_year_pillar_witness :
  exists r,
    calculate_four_pillars (civil_date 2024 2 20) = Some r /\
    pillar 9 3 = Some (fp_year r) /\
    fp_year <$> calculate_four_pillars (civil_date 1964 1 5)
    = Some (fp_year r).
Proof.
  destruct (four_pillars_year_pillar (civil_date 2024 2 20))
    as (r & Hr & Hy & H60); [reflexivity|].
  exists r. split; [exact Hr|]. split; [exact Hy|].
  apply H60; reflexivity.
Defined.

Lemma pillar_inj (i j i' j' : Z) (p : (string * string) * (string * string)) :
  0 <= i < 10 -> 0 <= j < 12 -> 0 <= i' < 10 -> 0 <= j' < 12 ->
  pillar i j = Some p -> pillar i' j' = Some p -> i = i' /\ j = j'.
Proof.
  intros Hi Hj Hi' Hj'. unfold pillar.
  rewrite !list_getitem_lookup by assumption.
  destruct (heavenly_stems !! Z.to_nat i) as [s|] eqn:Hs; [|discriminate].
  destruct (earthly_branches !! Z.to_nat j) as [b|] eqn:Hb; [|discriminate].
  destruct (heavenly_stems !! Z.to_nat i') as [s'|] eqn:Hs'; [|discriminate].
  destruct (earthly_branches !! Z.to_nat j') as [b'|] eqn:Hb'; [|discriminate].
  cbn [mbind option_bind]. intros H1 H2. rewrite <- H1 in H2.
  injection H2 as -> ->.
  assert (NS : NoDup heavenly_stems) by compute_done.
  assert (NB : NoDup earthly_branches) by compute_done.
  pose proof (NoDup_lookup _ _ _ _ NS Hs Hs').
  pose proof (NoDup_lookup _ _ _ _ NB Hb Hb'). lia.
Qed.

(** The year, day and hour pillars always pair a stem and a branch of the
    same parity (Yang with Yang, Yin with Yin), as the sixty-fold cycle
    does; the month pillar always pairs a stem and a branch of different
    parity. *)
Theorem four_pillars_parity (d : datetime) :
  valid_datetime d = true ->
  exists r,
    calculate_four_pillars d = Some r /\
    forall i j, 0 <= i < 10 -> 0 <= j < 12 ->
      (pillar i j = Some (fp_year r) \/ pillar i j = Some (fp_day r) \/
       pillar i j = Some (fp_hour r) -> i mod 2 = j mod 2) /\
      (pillar i j = Some (fp_month r) -> i mod 2 <> j mod 2).
Proof.
  intros Hv. destruct (valid_datetime_ranges d Hv) as (_ & Hm & _ & _).
  destruct (calculate_four_pillars_spec d Hv)
    as (py & pm & pd & ph & Hy & Hmo & Hd & Hh & Hr).
  cbv zeta in *.
  set (y := pillar_year d) in *.
  set (o := (toordinal (civil_date y (dt_month d) (dt_day d)) + 1721424)
            mod 60) in *.
  set (hb := ((dt_hour d + 1) / 2) mod 12) in *.
  set (m := dt_month d) in *.
  assert (Ho : 0 <= o < 60) by (subst o; apply Z.mod_pos_bound; lia).
  assert (Hhb : 0 <= hb < 12) by (subst hb; apply Z.mod_pos_bound; lia).
  clearbody y o hb m.
  eexists. split; [exact Hr|]. cbn [fp_year fp_month fp_day fp_hour].
  intros i j Hi Hj. split.
  - intros [H | [H | H]].
    + destruct (pillar_inj _ _ _ _ _ Hi Hj
                  ltac:(apply Z.mod_pos_bound; lia)
                  ltac:(apply Z.mod_pos_bound; lia) H Hy) as [-> ->].
      clear. Z.div_mod_to_equations. lia.
    + destruct (pillar_inj _ _ _ _ _ Hi Hj
                  ltac:(apply Z.mod_pos_bound; lia)
                  ltac:(apply Z.mod_pos_bound; lia) H Hd) as [-> ->].
      clear. Z.div_mod_to_equations. lia.
    + destruct (pillar_inj _ _ _ _ _ Hi Hj
                  ltac:(apply Z.mod_pos_bound; lia) Hhb H Hh) as [-> ->].
      clear -Hhb. Z.div_mod_to_equations. lia.
  - intros H.
    destruct (pillar_inj _ _ _ _ _ Hi Hj
                ltac:(apply Z.mod_pos_bound; lia)
                ltac:(apply Z.mod_pos_bound; lia) H Hmo) as [-> ->].
    clear. Z.div_mod_to_equations. lia.
Qed.

Lemma four_pillars_parity_witness :
  exists r,
    calculate_four_pillars (civil_date 1994 2 7) = Some r /\
    (pillar 8 3 = Some (fp_month r) -> 8 mod 2 <> 3 mod 2).
Proof.
  destruct (four_pillars_parity (civil_date 1994 2 7)) as (r & Hr & Hp);
    [reflexivity|].
  exists r. split; [exact Hr|]. apply (Hp 8 3); lia.
Defined.

(** The result depends on the time of day only through the double-hour
    [(hour + 1) // 2]: minutes and seconds are ignored, and the hours 23
    and 0 of one calendar day fall into the same hour pillar. *)
Theorem four_pillars_double_hour (d d' : datetime) :
  valid_datetime d = true -> valid_datetime d' = true ->
  dt_year d = dt_year d' -> dt_month d = dt_month d' ->
  dt_day d = dt_day d' ->
  ((dt_hour d + 1) / 2) mod 12 = ((dt_hour d' + 1) / 2) mod 12 ->
  calculate_four_pillars d = calculate_four_pillars d'.
Proof.
  intros Hv Hv' Hy Hm Hd Hh.
  destruct (calculate_four_pillars_spec d Hv)
    as (py & pm & pd & ph & H1 & H2 & H3 & H4 & Hr).
  destruct (calculate_four_pillars_spec d' Hv')
    as (py' & pm' & pd' & ph' & H1' & H2' & H3' & H4' & Hr').
  cbv zeta in *. unfold pillar_year in *.
  rewrite <- Hy, <- Hm, <- Hd, <- Hh in *.
  rewrite Hr, Hr'. congruence.
Qed.

Lemma four_pillars_double_hour_witness :
  calculate_four_pillars
    {| dt_year := 1994; dt_month := 2; dt_day := 7; dt_hour := 23;
       dt_minute := 59; dt_second := 59; dt_microsecond := 0 |}
  = calculate_four_pillars (civil_date 1994 2 7).
Proof.
  apply four_pillars_double_hour; reflexivity.
Defined.

(** ** Nakshatra: index, pada and degree *)

Section Nakshatra.

Lemma value_sum (x s r : float) (i : Z) :
  ticks x = i * ticks s + ticks r ->
  (value x == inject_Z i * value s + value r)%Q.
Proof.
  intros H. unfold value, Qeq, Qplus, Qmult, inject_Z. cbn [Qnum Qden].
  rewrite H, !Pos2Z.inj_mul. change (Zpos 1) with 1. ring.
Qed.

Lemma value_scaled_le (x q : float) (k : Z) :
  k * ticks q <= ticks x -> (inject_Z k * value q <= value x)%Q.
Proof.
  intros H. unfold value, Qle, Qmult, inject_Z. cbn [Qnum Qden].
  rewrite !Pos2Z.inj_mul. change (Zpos 1) with 1.
  assert (0 < Zpos (2 ^ 1074)) by reflexivity. nia.
Qed.

Lemma value_scaled_lt (x q : float) (k : Z) :
  ticks x < k * ticks q -> (value x < inject_Z k * value q)%Q.
Proof.
  intros H. unfold value, Qlt, Qmult, inject_Z. cbn [Qnum Qden].
  rewrite !Pos2Z.inj_mul. change (Zpos 1) with 1.
  assert (0 < Zpos (2 ^ 1074)) by reflexivity. nia.
Qed.

(** A longitude between [0] and [360], both included: [27] times the
    float [360 / 27] is a little more than [360]. *)
Lemma valid_circle_cases (x : float) :
  valid_float x = true -> leb zero x = true -> leb x (lit 360) = true ->
  is_zero x = true \/
  (pos_finite x = true /\ ticks x < 27 * ticks nakshatra_span).
Proof.
  intros Hv H0 H360.
  assert (Hle : ticks x <= ticks (lit 360) \/ is_finite x = false).
  { destruct (is_finite x) eqn:Hf; [left | right; reflexivity].
    rewrite leb_ticks in H360
      by (try assumption; rewrite lit_360; reflexivity).
    apply Z.leb_le, H360. }
  rewrite lit_360 in H360. unfold zero in H0.
  destruct x as [s|s| |s m e].
  - left. reflexivity.
  - destruct s; [cbn in H0; discriminate H0 | cbn in H360; discriminate H360].
  - cbn in H0. discriminate H0.
  - destruct s; [cbn in H0; discriminate H0|].
    right. split; [exact Hv|].
    destruct Hle as [Hle | Hf]; [|discriminate Hf].
    apply (Z.le_lt_trans _ _ _ Hle). vm_compute. reflexivity.
Qed.

Lemma nakshatra_details_ticks (x : float) :
  pos_finite x = true -> ticks x < 27 * ticks nakshatra_span ->
  exists r,
    get_nakshatra_details x = Some r /\
    list_getitem nakshatras (ticks x / ticks nakshatra_span)
    = Some (nk_name r, nk_lord r, nk_meaning r) /\
    real_float (nk_degree_in_nakshatra r) = true /\
    ticks (nk_degree_in_nakshatra r) = ticks x mod ticks nakshatra_span /\
    nk_pada r = ticks x mod ticks nakshatra_span / ticks nakshatra_quarter + 1.
Proof.
  intros Hp Hlt.
  destruct nakshatra_constants as (HS & HQ & H4 & H27 & Hmax).
  pose proof (pos_finite_ticks x Hp) as Hx.
  pose proof (pos_finite_ticks _ HS) as HtS.
  pose proof (pos_finite_ticks _ HQ) as HtQ.
  assert (H27max : 27 * ticks nakshatra_span < 2 ^ 2097)
    by (vm_compute; reflexivity).
  assert (Hxmax : ticks x < 2 ^ 2097)
    by (exact (Z.lt_trans _ _ _ Hlt H27max)).
  pose proof (Z.mod_pos_bound (ticks x) (ticks nakshatra_span) HtS) as Hr.
  pose proof (Z.mod_le (ticks x) (ticks nakshatra_span) ltac:(lia) HtS) as Hle.
  set (r := ticks x mod ticks nakshatra_span) in *.
  (* the index *)
  assert (Hq : 0 <= ticks x / ticks nakshatra_span <= 26).
  { split; [apply Z.div_pos; lia|].
    assert (ticks x / ticks nakshatra_span < 27); [|lia].
    apply Z.div_lt_upper_bound; lia. }
  assert (Hi : nakshatra_index_of x = Some (ticks x / ticks nakshatra_span)).
  { unfold nakshatra_index_of.
    rewrite float_floor_div_pos by (try assumption; lia).
    apply index_of_quot, Hq. }
  (* the remainder *)
  assert (Hrem : real_float (x %% nakshatra_span) = true /\
                 ticks (x %% nakshatra_span) = r).
  { rewrite float_rem_pos by assumption. fold r.
    assert (Hrmax : Z.abs r < 2 ^ 2097)
      by (rewrite (Z.abs_eq r (proj1 Hr));
          exact (Z.le_lt_trans _ _ _ Hle Hxmax)).
    destruct (of_ticks_spec r Hrmax) as [Hrf Hrt].
    split; [exact Hrf|]. rewrite Hrt.
    destruct (Z.eq_dec r 0) as [-> | Hne]; [reflexivity|].
    destruct (fmod_pos x nakshatra_span Hp HS Hxmax) as [Hfm Hnz].
    fold r in Hfm, Hnz. destruct (Hnz Hne) as [Hpf Ht].
    rewrite Hfm in Ht. rewrite <- Hrt. exact Ht. }
  (* the pada *)
  assert (Hpd : pada_of x = Some (r / ticks nakshatra_quarter + 1)).
  { unfold pada_of. cbv zeta.
    change (nakshatra_span ⊘ lit 4) with nakshatra_quarter.
    rewrite float_rem_pos by assumption. fold r.
    destruct (Z.eq_dec r 0) as [H0 | Hne].
    - rewrite H0. vm_compute. reflexivity.
    - destruct (fmod_pos x nakshatra_span Hp HS Hxmax) as [Hfm Hnz].
      fold r in Hfm, Hnz. destruct (Hnz Hne) as [Hpf Ht].
      rewrite Hfm in Hpf, Ht.
      rewrite float_floor_div_pos
        by (try assumption; rewrite Ht; exact (Z.le_lt_trans _ _ _ Hle Hxmax)).
      rewrite Ht.
      assert (Hq4 : 0 <= r / ticks nakshatra_quarter <= 3).
      { split; [apply Z.div_pos; lia|].
        assert (r / ticks nakshatra_quarter < 4); [|lia].
        apply Z.div_lt_upper_bound; lia. }
      rewrite (pada_of_quot _ Hq4). reflexivity. }
  destruct (list_getitem_is_Some nakshatras (ticks x / ticks nakshatra_span))
    as [info Hinfo].
  { change (Z.of_nat (length nakshatras)) with 27. lia. }
  unfold get_nakshatra_details. rewrite Hi, Hpd. cbn [mbind option_bind].
  rewrite Hinfo. cbn [mbind option_bind].
  eexists. split; [reflexivity|].
  cbn [nk_name nk_lord nk_meaning nk_pada nk_degree_in_nakshatra].
  destruct info as [[a b] c]. cbn [fst snd].
  split; [reflexivity|]. split; [apply Hrem|]. split; [apply Hrem | reflexivity].
Qed.

End Nakshatra.

(** For a sidereal Moon longitude in [[0, 360]], 360 included (which
    [% 360] can return), [get_nakshatra_details] returns, and the index,
    the degree within the nakshatra and the pada decompose the longitude
    without any rounding: longitude = index * span + degree with degree in
    [[0, span)], and the degree lies in the quarter [pada] of the span. *)
Theorem nakshatra_decomposition (x : float) :
  valid_float x = true -> leb zero x = true -> leb x (lit 360) = true ->
  exists r i,
    get_nakshatra_details x = Some r /\
    0 <= i <= 26 /\
    list_getitem nakshatras i = Some (nk_name r, nk_lord r, nk_meaning r) /\
    (value x
     == inject_Z i * value nakshatra_span
        + value (nk_degree_in_nakshatra r))%Q /\
    (0 <= value (nk_degree_in_nakshatra r))%Q /\
    (value (nk_degree_in_nakshatra r) < value nakshatra_span)%Q /\
    (inject_Z (nk_pada r - 1) * value nakshatra_quarter
     <= value (nk_degree_in_nakshatra r))%Q /\
    (value (nk_degree_in_nakshatra r)
     < inject_Z (nk_pada r) * value nakshatra_quarter)%Q /\
    (value nakshatra_span == 4 * value nakshatra_quarter)%Q.
Proof.
  intros Hv H0 H360.
  destruct nakshatra_constants as (HS & HQ & H4 & H27 & Hmax).
  pose proof (pos_finite_ticks _ HS) as HtS.
  pose proof (pos_finite_ticks _ HQ) as HtQ.
  assert (Hspan : (value nakshatra_span == 4 * value nakshatra_quarter)%Q).
  { unfold value, Qeq, Qmult. cbn [Qnum Qden]. rewrite H4, !Pos2Z.inj_mul.
    change (Zpos 1) with 1. ring. }
  destruct (valid_circle_cases x Hv H0 H360) as [Hz | [Hp Hlt]].
  - destruct x as [s|s| |s m e]; try discriminate Hz.
    exists {| nk_name := "Ashwini"; nk_lord := "Ketu";
              nk_meaning := "New beginnings, quick action"; nk_pada := 1;
              nk_degree_in_nakshatra := S754_zero false |}, 0.
    split; [destruct s; vm_compute; reflexivity|].
    split; [lia|]. split; [reflexivity|].
    cbn [nk_pada nk_degree_in_nakshatra].
    split; [apply value_sum; cbn [ticks]; lia|].
    split; [apply (value_ge 0); cbn [ticks]; lia|].
    split; [unfold value, Qlt; cbn [Qnum Qden ticks]; lia|].
    split; [apply value_scaled_le; cbn [ticks]; lia|].
    split; [apply value_scaled_lt; cbn [ticks]; lia | exact Hspan].
  - destruct (nakshatra_details_ticks x Hp Hlt) as (r & Hr & Hi & Hrf & Ht & Hpd).
    pose proof (pos_finite_ticks x Hp) as Hx.
    pose proof (Z.mod_pos_bound (ticks x) (ticks nakshatra_span) HtS) as Hm.
    pose proof (Z.div_mod (ticks x) (ticks nakshatra_span) ltac:(lia)) as Hdm.
    set (rt := ticks x mod ticks nakshatra_span) in *.
    pose proof (Z.mod_pos_bound rt (ticks nakshatra_quarter) HtQ) as Hm4.
    pose proof (Z.div_mod rt (ticks nakshatra_quarter) ltac:(lia)) as Hdm4.
    exists r, (ticks x / ticks nakshatra_span).
    split; [exact Hr|]. split.
    { split; [apply Z.div_pos; lia|].
      assert (ticks x / ticks nakshatra_span < 27); [|lia].
      apply Z.div_lt_upper_bound; lia. }
    split; [exact Hi|].
    split; [apply value_sum; rewrite Ht; lia|].
    split; [apply (value_ge 0); rewrite Ht; lia|].
    split; [unfold value, Qlt; cbn [Qnum Qden]; rewrite Ht;
            apply Z.mul_lt_mono_pos_r; [reflexivity | lia]|].
    split; [apply value_scaled_le; rewrite Ht, Hpd; lia|].
    split; [apply value_scaled_lt; rewrite Ht, Hpd; lia | exact Hspan].
Qed.

Lemma nakshatra_decomposition_witness :
  exists r i,
    get_nakshatra_details (lit 360) = Some r /\
    0 <= i <= 26 /\
    list_getitem nakshatras i = Some (nk_name r, nk_lord r, nk_meaning r) /\
    (value (lit 360)
     == inject_Z i * value nakshatra_span
        + value (nk_degree_in_nakshatra r))%Q.
Proof.
  destruct (nakshatra_decomposition (lit 360))
    as (r & i & H1 & H2 & H3 & H4 & _); try (vm_compute; reflexivity).
  exists r, i. auto.
Defined.

(** ** The range of [x % 360] *)

Section Normalize.

Lemma abs_cond_Zopp (s : bool) (a : Z) : Z.abs (cond_Zopp s a) = Z.abs a.
Proof. destruct s; cbn [cond_Zopp]; lia. Qed.

(** [fmod] of any finite float by a positive one is the exact remainder of
    the truncated division. *)
Lemma fmod_real (x y : float) :
  real_float x = true -> pos_finite y = true -> ticks y < 2 ^ 2097 ->
  real_float (fmod x y) = true /\
  ticks (fmod x y) = Z.rem (ticks x) (ticks y).
Proof.
  intros Hx Hy Hmax.
  destruct (pos_finite_inv y Hy) as (my & ey & -> & Hby).
  destruct (real_float_inv x Hx) as [[sx ->] | (sx & mx & ex & -> & Hbx)].
  { clear Hmax.
    split; [reflexivity|]. cbn [fmod]. change (ticks (S754_zero sx)) with 0.
    rewrite Z.rem_0_l; [reflexivity|].
    rewrite ticks_finite. cbn [cond_Zopp].
    destruct (bounded_inv _ _ Hby) as (_ & Hey & _ & _).
    pose proof (pow2_pos (ey - emin) ltac:(lia)). lia. }
  destruct (bounded_inv _ _ Hbx) as (_ & Hex & Hdx & _).
  destruct (bounded_inv _ _ Hby) as (_ & Hey & Hdy & _).
  revert Hmax. cbn [fmod]. set (e := Z.min ex ey).
  pose proof (pow2_pos (e - emin) ltac:(lia)) as Hp.
  pose proof (pow2_pos (ex - e) ltac:(lia)) as Hpx.
  pose proof (pow2_pos (ey - e) ltac:(lia)) as Hpy.
  set (X := Zpos mx * 2 ^ (ex - e)). set (Y := Zpos my * 2 ^ (ey - e)).
  assert (HX : ticks (S754_finite sx mx ex) = cond_Zopp sx (X * 2 ^ (e - emin))).
  { rewrite ticks_finite, cond_Zopp_mul. f_equal. unfold X.
    rewrite (pow2_split (ex - emin) (e - emin)) by lia.
    replace (ex - emin - (e - emin)) with (ex - e) by lia. lia. }
  assert (HY : ticks (S754_finite false my ey) = Y * 2 ^ (e - emin)).
  { rewrite ticks_finite. cbn [cond_Zopp]. unfold Y.
    rewrite (pow2_split (ey - emin) (e - emin)) by lia.
    replace (ey - emin - (e - emin)) with (ey - e) by lia. lia. }
  assert (HXp : 0 < X) by (unfold X; lia).
  assert (HYp : 0 < Y) by (unfold Y; lia).
  rewrite Z.rem_mod_nonneg by lia.
  intros Hmax. rewrite HY in Hmax. revert Hmax.
  pose proof (Z.mod_pos_bound X Y HYp) as Hr.
  assert (Hr53 : X mod Y < 2 ^ 53).
  { pose proof (digits2_pos_bounds mx) as [_ Hhx].
    pose proof (digits2_pos_bounds my) as [_ Hhy].
    assert (Hmx : Zpos mx < 2 ^ 53).
    { eapply Z.lt_le_trans; [exact Hhx|]. apply Z.pow_le_mono_r; lia. }
    assert (Hmy : Zpos my < 2 ^ 53).
    { eapply Z.lt_le_trans; [exact Hhy|]. apply Z.pow_le_mono_r; lia. }
    destruct (Z.le_gt_cases ex ey) as [Hle | Hgt].
    - assert (HXe : X = Zpos mx).
      { unfold X. replace (ex - e) with 0 by lia. lia. }
      pose proof (Z.mod_le X Y ltac:(lia) ltac:(lia)). lia.
    - assert (HYe : Y = Zpos my).
      { unfold Y. replace (ey - e) with 0 by lia. lia. }
      lia. }
  assert (Hrem : Z.rem (ticks (S754_finite sx mx ex))
                   (ticks (S754_finite false my ey))
                 = cond_Zopp sx (X mod Y * 2 ^ (e - emin))).
  { rewrite HX, HY. destruct sx; cbn [cond_Zopp].
    - rewrite Z.rem_opp_l by lia. f_equal.
      rewrite Z.rem_mod_nonneg by nia. apply Z.mul_mod_distr_r; lia.
    - rewrite Z.rem_mod_nonneg by nia. apply Z.mul_mod_distr_r; lia. }
  rewrite Hrem.
  destruct (Z.eq_dec (X mod Y) 0) as [H0 | Hne].
  { rewrite H0. destruct sx; cbn [cond_Zopp Z.opp binary_normalize];
      split; reflexivity. }
  assert (Hbn : binary_normalize prec emax (cond_Zopp sx (X mod Y)) e sx
                = of_ticks (cond_Zopp sx (X mod Y * 2 ^ (e - emin)))).
  { rewrite <- cond_Zopp_mul, <- binary_normalize_ticks by lia.
    destruct (cond_Zopp sx (X mod Y)) eqn:Hc; [|reflexivity|reflexivity].
    destruct sx; cbn [cond_Zopp] in Hc; lia. }
  rewrite Hbn.
  assert (HP0 : 0 <= X mod Y * 2 ^ (e - emin))
    by (apply Z.mul_nonneg_nonneg; [apply Hr | apply Z.lt_le_incl, Hp]).
  intros Hmax.
  assert (Hlt : X mod Y * 2 ^ (e - emin) < 2 ^ 2097).
  { eapply Z.le_lt_trans; [|exact Hmax].
    apply Z.mul_le_mono_nonneg_r;
      [apply Z.lt_le_incl, Hp | apply Z.lt_le_incl, Hr]. }
  clear Hmax.
  destruct (of_ticks_spec (cond_Zopp sx (X mod Y * 2 ^ (e - emin))))
    as [Hrf Hrt].
  { rewrite abs_cond_Zopp, (Z.abs_eq _ HP0). exact Hlt. }
  split; [exact Hrf|]. rewrite Hrt. apply rnd_repr.
  rewrite abs_cond_Zopp, (Z.abs_eq _ HP0).
  exists (X mod Y), (e - emin). split; [reflexivity|].
  clear -Hne Hr Hr53 Hex Hey. lia.
Qed.

(** [x % y] for a positive [y] is a NaN or lies between [0] and [y], both
    included: a small negative [x] makes [fmod(x, y) + y] round to [y]. *)
Lemma float_rem_range (x y : float) :
  valid_float x = true -> pos_finite y = true -> ticks y < 2 ^ 2096 ->
  is_nan (x %% y) = true \/
  (real_float (x %% y) = true /\ 0 <= ticks (x %% y) <= ticks y).
Proof.
  intros Hv Hy Hmax.
  pose proof (pos_finite_ticks y Hy) as Hty.
  pose proof (pos_finite_real y Hy) as Hry.
  destruct (pos_finite_inv y Hy) as (my & ey & Ey & Hby).
  destruct (is_finite x) eqn:Hfin.
  - right.
    assert (Hx : real_float x = true)
      by (unfold real_float; rewrite Hv, Hfin; reflexivity).
    destruct (fmod_real x y Hx Hy ltac:(lia)) as [Hrm Htm].
    pose proof (Z.rem_bound_abs (ticks x) (ticks y) ltac:(lia)) as Hab.
    rewrite <- Htm in Hab. rewrite (Z.abs_eq (ticks y)) in Hab by lia.
    unfold float_rem_nz. set (m := fmod x y) in *.
    assert (Hvm : valid_float m = true /\ is_finite m = true)
      by (apply andb_true_iff; exact Hrm).
    assert (Hvy : valid_float y = true /\ is_finite y = true)
      by (apply andb_true_iff; exact Hry).
    destruct Hvm as [Hvm Hfm]. destruct Hvy as [Hvy Hfy].
    rewrite (eqb_ticks m zero), (ltb_ticks y zero), (ltb_ticks m zero)
      by (try assumption; reflexivity).
    change (ticks zero) with 0.
    destruct (ticks m =? 0) eqn:H0; cbn [negb].
    + replace (signbit y) with false by (rewrite Ey; reflexivity).
      split; [reflexivity|]. change (ticks (S754_zero false)) with 0. lia.
    + apply Z.eqb_neq in H0.
      destruct (ticks y <? 0) eqn:Hy0; [apply Z.ltb_lt in Hy0; lia|].
      cbn [xorb]. destruct (ticks m <? 0) eqn:Hm0.
      * apply Z.ltb_lt in Hm0.
        destruct (add_spec m y Hrm Hry ltac:(lia)) as [Hra Hta].
        split; [exact Hra|]. rewrite Hta.
        assert (Hrep : representable (ticks y)).
        { rewrite Ey, ticks_finite. cbn [cond_Zopp].
          apply bounded_representable, Hby. }
        pose proof (rnd_bounds_pos (ticks m + ticks y) (ticks y)
                      ltac:(lia) Hrep). lia.
      * apply Z.ltb_ge in Hm0. split; [exact Hrm | lia].
  - left. destruct x as [s|s| |s m e]; try discriminate Hfin;
      rewrite Ey; reflexivity.
Qed.

End Normalize.

(** Every sidereal longitude is a NaN or a finite value in the closed
    interval [[0, 360]], and the sidereal dict has the bodies of the
    tropical dict: none is added or dropped. *)
Theorem sidereal_longitudes_range (tropical : gmap string float)
  (jd : float) :
  valid_float jd = true ->
  (forall body p, tropical !! body = Some p -> valid_float p = true) ->
  dom (calculate_vedic_positions tropical jd).1 = dom tropical /\
  forall body s,
    (calculate_vedic_positions tropical jd).1 !! body = Some s ->
    is_nan s = true \/
    (is_finite s = true /\ (0 <= value s)%Q /\ (value s <= 360)%Q).
Proof.
  intros Hjd Hp. unfold calculate_vedic_positions. cbn [fst].
  split; [apply dom_fmap_L|].
  intros body s. rewrite lookup_fmap.
  destruct (tropical !! body) as [p|] eqn:Hb; [|discriminate].
  cbn [fmap option_fmap option_map]. intros [= <-].
  assert (H360 : pos_finite (lit 360) = true) by (vm_compute; reflexivity).
  assert (T360 : ticks (lit 360) = 360 * 2 ^ 1074) by (vm_compute; reflexivity).
  assert (Hmax : ticks (lit 360) < 2 ^ 2096) by (vm_compute; reflexivity).
  destruct (float_rem_range (p ⊖ calculate_lahiri_ayanamsa jd) (lit 360))
    as [Hnan | [Hr Ht]]; try assumption.
  - apply sub_valid; [eapply Hp; eassumption|].
    apply calculate_lahiri_ayanamsa_valid, Hjd.
  - left. exact Hnan.
  - right. split; [|split].
    + unfold real_float in Hr. apply andb_true_iff in Hr. apply Hr.
    + apply (value_ge 0). lia.
    + apply (value_le 360). lia.
Qed.

Lemma sidereal_longitudes_range_witness :
  let tropical : gmap string float :=
    {[ "Sun" := lit 23.849999999999998; "Moon" := lit 100 ]} in
  dom (calculate_vedic_positions tropical (lit 2451545.0)).1 = dom tropical.
Proof.
  apply (sidereal_longitudes_range
           {[ "Sun" := lit 23.849999999999998; "Moon" := lit 100 ]}
           (lit 2451545.0)).
  - vm_compute. reflexivity.
  - intros body p. rewrite lookup_insert_Some, lookup_singleton_Some.
    intros [[_ <-] | [_ [_ <-]]]; vm_compute; reflexivity.
Defined.
